(** * Asset packer for the Momentum firmware: a verification development

    A shallow embedding of [asset_packer.py]: the monochrome bitmap codec
    ([convert_to_bm], [convert_to_bmx], [recover_png_from_bm]), the font
    extraction of [pack_font], the packers that walk a pack directory
    ([pack_anim], [pack_icon_animated], [pack_icon_static], [pack_font]),
    [pack_specific] and [create_asset_pack], followed by the properties
    proved about them.

    Python values are modelled as follows: [int] is [Z]; [bytes] and
    [bytearray] are [list byte]; ASCII text is a [list byte] of code points
    and text that may hold any character a [list Z] of code points; a file
    name is the [list byte] of its encoding and a [pathlib.Path] the list
    of its components; an exception is the [Raise] case of [result]; code
    that touches the file system or the logger runs in the
    state-and-exception monad [M] over [world]. *)

From Stdlib Require Import ZArith List String Ascii Bool Lia DecimalString.
From Stdlib.Strings Require Import Byte.
From stdpp Require Import gmap strings list.
Import ListNotations.
#[local] Open Scope Z_scope.

Abbreviation bytes := (list byte).

(** ** Python runtime: exceptions, integers and byte strings *)

Module Py.

Inductive exn : Type :=
| ValueError | TypeError | IndexError | StructError
| UnicodeDecodeError | UnicodeEncodeError
| FileNotFoundError | FileExistsError | NotADirectoryError
| IsADirectoryError | SameFileError | UnidentifiedImageError.

Inductive result (A : Type) : Type :=
| Ok (a : A)
| Raise (e : exn).
Arguments Ok {A} a.
Arguments Raise {A} e.

Definition rbind {A B} (r : result A) (k : A -> result B) : result B :=
  match r with
  | Ok a => k a
  | Raise e => Raise e
  end.

Definition rmap {A B} (f : A -> B) (r : result A) : result B :=
  rbind r (fun a => Ok (f a)).

Declare Scope result_scope.
Delimit Scope result_scope with result.
Notation "x <- e ;; k" := (rbind e (fun x => k))
  (at level 100, e at next level, right associativity) : result_scope.

(** [len(s)] *)
Definition len {A} (s : list A) : Z := Z.of_nat (length s).

(** The integer value of a byte, and the byte of an integer in [range(256)]. *)
Definition b2z (b : byte) : Z := Z.of_N (Byte.to_N b).

Definition z2b (z : Z) : byte :=
  match Byte.of_N (Z.to_N (z mod 256)) with
  | Some b => b
  | None => x00
  end.

(** [bytearray([i0, i1, ...])]: every item must be in [range(0, 256)],
    otherwise [ValueError: byte must be in range(0, 256)]. *)
Fixpoint bytearray (items : list Z) : result bytes :=
  match items with
  | [] => Ok []
  | i :: rest =>
      if (0 <=? i) && (i <? 256)
      then rbind (bytearray rest) (fun bs => Ok (z2b i :: bs))
      else Raise ValueError
  end.

(** ASCII text written as a Rocq string. *)
Definition txt (s : string) : bytes := list_byte_of_string s.

Definition QUOTE : byte := x22.
Definition BACKSLASH : byte := x5c.
Definition LF : byte := x0a.
Definition CR : byte := x0d.

(** [str.isspace] on a code point below 128, and the ASCII whitespace that
    [bytes.strip] and [bytes.fromhex] skip. *)
Definition str_isspace (c : byte) : bool :=
  let n := b2z c in
  ((9 <=? n) && (n <=? 13)) || ((28 <=? n) && (n <=? 32)).

Definition bytes_isspace (c : byte) : bool :=
  let n := b2z c in
  ((9 <=? n) && (n <=? 13)) || (n =? 32).

Fixpoint lstrip {A} (sp : A -> bool) (s : list A) : list A :=
  match s with
  | [] => []
  | c :: s' => if sp c then lstrip sp s' else s
  end.

Fixpoint rstrip {A} (sp : A -> bool) (s : list A) : list A :=
  match s with
  | [] => []
  | c :: s' =>
      match rstrip sp s' with
      | [] => if sp c then [] else [c]
      | kept => c :: kept
      end
  end.

Definition strip {A} (sp : A -> bool) (s : list A) : list A :=
  rstrip sp (lstrip sp s).

(** [s.startswith(prefix)] *)
Fixpoint startswith (prefix s : bytes) : bool :=
  match prefix, s with
  | [], _ => true
  | p :: prefix', c :: s' => Byte.eqb p c && startswith prefix' s'
  | _ :: _, [] => false
  end.

(** [s.replace(old, new)] for a non-empty [old]: occurrences are found from
    the left and do not overlap. [skip] counts the characters of the
    current occurrence that are still to be dropped. *)
Fixpoint replace_from (old new s : bytes) (skip : nat) : bytes :=
  match s with
  | [] => []
  | c :: s' =>
      match skip with
      | S k => replace_from old new s' k
      | O =>
          if startswith old s
          then new ++ replace_from old new s' (length old - 1)
          else c :: replace_from old new s' 0
      end
  end.

Definition replace (old new s : bytes) : bytes := replace_from old new s 0.

(** [s.split(sep)] for a non-empty [sep]: the pieces between occurrences,
    always at least one piece. *)
Fixpoint split_from (sep s : bytes) (skip : nat) : list bytes :=
  match s with
  | [] => [[]]
  | c :: s' =>
      match skip with
      | S k => split_from sep s' k
      | O =>
          if startswith sep s
          then [] :: split_from sep s' (length sep - 1)
          else
            match split_from sep s' 0 with
            | piece :: pieces => (c :: piece) :: pieces
            | [] => [[c]]
            end
      end
  end.

Definition split (sep s : bytes) : list bytes := split_from sep s 0.

(** [xs[i]] for a non-negative literal index. *)
Definition item {A} (xs : list A) (i : nat) : result A :=
  match nth_error xs i with
  | Some x => Ok x
  | None => Raise IndexError
  end.

(** [s[i:j]] with Python's treatment of negative and out-of-range bounds. *)
Definition clamp_index (n i : Z) : Z :=
  let i := if i <? 0 then i + n else i in
  Z.max 0 (Z.min n i).

Definition slice {A} (s : list A) (i j : Z) : list A :=
  let n := len s in
  let lo := clamp_index n i in
  let hi := clamp_index n j in
  firstn (Z.to_nat (hi - lo)) (skipn (Z.to_nat lo) s).

(** [s[i:]], [s[:-1]] and [s[1:-1]] *)
Definition slice_from {A} (s : list A) (i : nat) : list A := skipn i s.
Definition drop_last {A} (s : list A) : list A := removelast s.
Definition strip_ends {A} (s : list A) : list A := removelast (tl s).

(** [s.count(c)], [s.find(c)] and [s.rfind(c)] for a single byte [c]. *)
Definition count (c : byte) (s : bytes) : Z :=
  len (List.filter (Byte.eqb c) s).

Fixpoint find (c : byte) (s : bytes) : Z :=
  match s with
  | [] => -1
  | d :: s' =>
      if Byte.eqb c d then 0
      else let r := find c s' in if r <? 0 then -1 else r + 1
  end.

Fixpoint rfind (c : byte) (s : bytes) : Z :=
  match s with
  | [] => -1
  | d :: s' =>
      let r := rfind c s' in
      if 0 <=? r then r + 1
      else if Byte.eqb c d then 0 else -1
  end.

(** [bytes.splitlines()]: lines end at LF, CR or CR LF; the terminators are
    dropped and a final terminator opens no empty line. [after_cr] holds
    when the previous byte was a CR, whose line is already closed. *)
Fixpoint splitlines_from (s : bytes) (after_cr : bool) : list bytes :=
  match s with
  | [] => []
  | c :: s' =>
      if Byte.eqb c LF then
        if after_cr then splitlines_from s' false
        else [] :: splitlines_from s' false
      else if Byte.eqb c CR then [] :: splitlines_from s' true
      else
        match splitlines_from s' false with
        | line :: lines => (c :: line) :: lines
        | [] => [[c]]
        end
  end.

Definition splitlines (s : bytes) : list bytes := splitlines_from s false.

(** The value of a hexadecimal, decimal or octal digit. *)
Definition hex_digit (c : byte) : option Z :=
  let n := b2z c in
  if (48 <=? n) && (n <=? 57) then Some (n - 48)
  else if (97 <=? n) && (n <=? 102) then Some (n - 87)
  else if (65 <=? n) && (n <=? 70) then Some (n - 55)
  else None.

Definition dec_digit (c : byte) : option Z :=
  let n := b2z c in
  if (48 <=? n) && (n <=? 57) then Some (n - 48) else None.

Definition oct_digit (c : byte) : option Z :=
  let n := b2z c in
  if (48 <=? n) && (n <=? 55) then Some (n - 48) else None.

(** [bytearray.fromhex(s)]: pairs of hexadecimal digits, ASCII whitespace
    allowed between pairs only; anything else is a [ValueError]. [top] is
    the first digit of a pair whose second digit is awaited. *)
Fixpoint fromhex_from (s : bytes) (top : option Z) : result bytes :=
  match s with
  | [] =>
      match top with
      | None => Ok []
      | Some _ => Raise ValueError
      end
  | c :: s' =>
      match top with
      | None =>
          if bytes_isspace c then fromhex_from s' None
          else
            match hex_digit c with
            | Some d => fromhex_from s' (Some d)
            | None => Raise ValueError
            end
      | Some t =>
          match hex_digit c with
          | Some d => rbind (fromhex_from s' None) (fun bs => Ok (z2b (16 * t + d) :: bs))
          | None => Raise ValueError
          end
      end
  end.

Definition fromhex (s : bytes) : result bytes := fromhex_from s None.

(** [int(s)] in base 10 on ASCII text: surrounding whitespace, an optional
    sign, digits, and single underscores between digits. *)
Fixpoint int_digits (s : bytes) (acc : Z) (after_digit : bool) : result Z :=
  match s with
  | [] => if after_digit then Ok acc else Raise ValueError
  | c :: s' =>
      match dec_digit c with
      | Some d => int_digits s' (10 * acc + d) true
      | None =>
          if Byte.eqb c x5f && after_digit then int_digits s' acc false
          else Raise ValueError
      end
  end.

Definition int_of_text (s : bytes) : result Z :=
  match strip str_isspace s with
  | c :: s' =>
      if Byte.eqb c x2d then rmap Z.opp (int_digits s' 0 false)
      else if Byte.eqb c x2b then int_digits s' 0 false
      else int_digits (c :: s') 0 false
  | [] => Raise ValueError
  end.

(** [str(n)] and the format [f"{n:02}"]. *)
Definition str_of_int (n : Z) : bytes :=
  txt (NilZero.string_of_int (Z.to_int n)).

Definition format_02 (n : Z) : bytes :=
  let s := str_of_int n in
  if len s <? 2 then x30 :: s else s.

(** [struct.pack("<I...", v0, v1, ...)]: every value must fit 32 unsigned
    bits ([struct.error] otherwise) and is written low byte first. *)
Definition pack_I (v : Z) : bytes :=
  [z2b (Z.land v 255); z2b (Z.land (Z.shiftr v 8) 255);
   z2b (Z.land (Z.shiftr v 16) 255); z2b (Z.land (Z.shiftr v 24) 255)].

Fixpoint struct_pack_I (vs : list Z) : result bytes :=
  match vs with
  | [] => Ok []
  | v :: rest =>
      if (0 <=? v) && (v <? 4294967296)
      then rbind (struct_pack_I rest) (fun bs => Ok (pack_I v ++ bs))
      else Raise StructError
  end.

(** [bytes.decode("unicode_escape")]: the result is a list of code points.
    [unicodedata] resolves the names of [\N{...}] escapes. *)
Class Unicodedata := { lookup_name : bytes -> option Z }.

Inductive esc_state : Type :=
| Plain
| Slash
| Octal (more : nat) (v : Z)
| Hex (more : nat) (v : Z)
| Named (opened : bool) (name : bytes).

Definition simple_escape (c : byte) : option Z :=
  let n := b2z c in
  if (n =? 92) || (n =? 39) || (n =? 34) then Some n
  else if n =? 98 then Some 8
  else if n =? 102 then Some 12
  else if n =? 116 then Some 9
  else if n =? 110 then Some 10
  else if n =? 114 then Some 13
  else if n =? 118 then Some 11
  else if n =? 97 then Some 7
  else None.

Section UnicodeEscape.
Context `{UD : Unicodedata}.

Fixpoint unicode_escape_from (s : bytes) (st : esc_state) : result (list Z) :=
  match s with
  | [] =>
      match st with
      | Plain => Ok []
      | Octal _ v => Ok [v]
      | Slash | Hex _ _ | Named _ _ => Raise UnicodeDecodeError
      end
  | c :: s' =>
      let next := unicode_escape_from s' in
      let emit v st' := rbind (next st') (fun cps => Ok (v :: cps)) in
      let plain :=
        if Byte.eqb c BACKSLASH then next Slash else emit (b2z c) Plain in
      match st with
      | Plain => plain
      | Slash =>
          if Byte.eqb c LF then next Plain
          else
            match simple_escape c with
            | Some v => emit v Plain
            | None =>
                match oct_digit c with
                | Some d => next (Octal 2 d)
                | None =>
                    if Byte.eqb c x78 then next (Hex 2 0)
                    else if Byte.eqb c x75 then next (Hex 4 0)
                    else if Byte.eqb c x55 then next (Hex 8 0)
                    else if Byte.eqb c x4e then next (Named false [])
                    else rbind (emit (b2z c) Plain) (fun cps => Ok (92 :: cps))
                end
            end
      | Octal more v =>
          match more, oct_digit c with
          | S more', Some d => next (Octal more' (8 * v + d))
          | _, _ => rbind plain (fun cps => Ok (v :: cps))
          end
      | Hex more v =>
          match hex_digit c with
          | Some d =>
              let v' := 16 * v + d in
              match more with
              | S (S more') => next (Hex (S more') v')
              | _ => if v' <=? 1114111 then emit v' Plain
                     else Raise UnicodeDecodeError
              end
          | None => Raise UnicodeDecodeError
          end
      | Named false _ =>
          if Byte.eqb c x7b then next (Named true [])
          else Raise UnicodeDecodeError
      | Named true name =>
          if Byte.eqb c x7d then
            match lookup_name (rev name) with
            | Some v => emit v Plain
            | None => Raise UnicodeDecodeError
            end
          else next (Named true (c :: name))
      end
  end.

Definition decode_unicode_escape (s : bytes) : result (list Z) :=
  unicode_escape_from s Plain.

(** [str.encode("latin_1")] *)
Fixpoint encode_latin_1 (cps : list Z) : result bytes :=
  match cps with
  | [] => Ok []
  | v :: rest =>
      if v <=? 255
      then rbind (encode_latin_1 rest) (fun bs => Ok (z2b v :: bs))
      else Raise UnicodeEncodeError
  end.
End UnicodeEscape.

(** *** Text

    A [str] that may hold any character is the list of its code points. *)

(** A continuation byte of UTF-8 and its six bits. *)
Definition utf8_cont (c : byte) : option Z :=
  let n := b2z c in
  if (128 <=? n) && (n <? 192) then Some (n - 128) else None.

(** [bytes.decode()]: strict UTF-8. Sequences that are cut short, longer
    than needed, that encode a surrogate or a value above U+10FFFF are a
    [UnicodeDecodeError]. *)
Fixpoint utf8_decode (s : bytes) : result (list Z) :=
  match s with
  | [] => Ok []
  | c :: s1 =>
      let n := b2z c in
      if n <? 128 then rbind (utf8_decode s1) (fun cps => Ok (n :: cps))
      else if (194 <=? n) && (n <? 224) then
        match s1 with
        | c1 :: s2 =>
            match utf8_cont c1 with
            | Some v1 =>
                rbind (utf8_decode s2) (fun cps => Ok ((n - 192) * 64 + v1 :: cps))
            | None => Raise UnicodeDecodeError
            end
        | _ => Raise UnicodeDecodeError
        end
      else if (224 <=? n) && (n <? 240) then
        match s1 with
        | c1 :: c2 :: s3 =>
            match utf8_cont c1, utf8_cont c2 with
            | Some v1, Some v2 =>
                let cp := (n - 224) * 4096 + v1 * 64 + v2 in
                if (2048 <=? cp) && negb ((55296 <=? cp) && (cp <? 57344))
                then rbind (utf8_decode s3) (fun cps => Ok (cp :: cps))
                else Raise UnicodeDecodeError
            | _, _ => Raise UnicodeDecodeError
            end
        | _ => Raise UnicodeDecodeError
        end
      else if (240 <=? n) && (n <? 245) then
        match s1 with
        | c1 :: c2 :: c3 :: s4 =>
            match utf8_cont c1, utf8_cont c2, utf8_cont c3 with
            | Some v1, Some v2, Some v3 =>
                let cp := (n - 240) * 262144 + v1 * 4096 + v2 * 64 + v3 in
                if (65536 <=? cp) && (cp <=? 1114111)
                then rbind (utf8_decode s4) (fun cps => Ok (cp :: cps))
                else Raise UnicodeDecodeError
            | _, _, _ => Raise UnicodeDecodeError
            end
        | _ => Raise UnicodeDecodeError
        end
      else Raise UnicodeDecodeError
  end.

(** [os.fsencode] where the file system encoding is UTF-8; the text comes
    from [utf8_decode] and holds no surrogate. *)
Definition utf8_encode_char (cp : Z) : bytes :=
  if cp <? 128 then [z2b cp]
  else if cp <? 2048 then [z2b (192 + cp / 64); z2b (128 + cp mod 64)]
  else if cp <? 65536 then
    [z2b (224 + cp / 4096); z2b (128 + cp / 64 mod 64); z2b (128 + cp mod 64)]
  else
    [z2b (240 + cp / 262144); z2b (128 + cp / 4096 mod 64);
     z2b (128 + cp / 64 mod 64); z2b (128 + cp mod 64)].

Definition fsencode (s : list Z) : bytes := flat_map utf8_encode_char s.

(** [str.isspace] on one character. *)
Definition unicode_isspace (cp : Z) : bool :=
  ((9 <=? cp) && (cp <=? 13)) || ((28 <=? cp) && (cp <=? 32))
  || (cp =? 133) || (cp =? 160) || (cp =? 5760)
  || ((8192 <=? cp) && (cp <=? 8202))
  || (cp =? 8232) || (cp =? 8233) || (cp =? 8239) || (cp =? 8287) || (cp =? 12288).

(** [s.replace(old, new)] where [old] and [new] are one character each. *)
Definition replace_char (old new : Z) (s : list Z) : list Z :=
  map (fun c => if c =? old then new else c) s.

End Py.

Import Py.

(** ** Pillow: mode "1" images and the XBM writer

    A mode "1" raster: [pixels] lists the rows from the top, each from the
    left; a pixel is [true] when its stored value is non-zero (white).
    [Image.open] decodes a file and is a parameter of the model. *)

Module PIL.

Record Image : Type := { width : Z; height : Z; pixels : list bool }.

Definition size (im : Image) : Z * Z := (width im, height im).

Definition well_formed (im : Image) : Prop :=
  0 < width im /\ 0 < height im /\ len (pixels im) = width im * height im.

(** [img.convert("1")] on a mode "1" image is a copy. *)
Definition convert_1 (im : Image) : Image := im.

(** [ImageOps.invert] *)
Definition invert (im : Image) : Image :=
  {| width := width im; height := height im; pixels := map negb (pixels im) |}.

(** The rows of a pixel list, [w] pixels each. *)
Fixpoint rows_of (h w : nat) (px : list bool) : list (list bool) :=
  match h with
  | O => []
  | S h' => firstn w px :: rows_of h' w (skipn w px)
  end.

(** The value of up to eight bits, least significant first. *)
Fixpoint lsb_value (bits : list bool) : Z :=
  match bits with
  | [] => 0
  | b :: bits' => Z.b2z b + 2 * lsb_value bits'
  end.

(** The raw packer "1;R" of the XBM encoder: eight pixels a byte, the
    leftmost in the lowest bit, a set bit for a non-zero pixel, the last
    byte of a row padded with clear bits. *)
Fixpoint pack_1R (row : list bool) : bytes :=
  match row with
  | [] => []
  | b0 :: b1 :: b2 :: b3 :: b4 :: b5 :: b6 :: b7 :: row' =>
      z2b (lsb_value [b0; b1; b2; b3; b4; b5; b6; b7]) :: pack_1R row'
  | _ => [z2b (lsb_value row)]
  end.

Definition xbm_rows (im : Image) : list bytes :=
  map pack_1R (rows_of (Z.to_nat (height im)) (Z.to_nat (width im)) (pixels im)).

Definition hex_char (n : Z) : byte :=
  if n <? 10 then z2b (48 + n) else z2b (87 + n).

Definition hex_0x (b : byte) : bytes :=
  txt "0x" ++ [hex_char (b2z b / 16); hex_char (b2z b mod 16)].

(** One row of the encoder's text. [count] is the number of items on the
    current text line; a line is broken after 15 items. The last item of
    the last row is followed by a line break instead of a comma. *)
Fixpoint xbm_row_text (last_row : bool) (row : bytes) (count : nat) : bytes * nat :=
  match row with
  | [] => ([], count)
  | b :: row' =>
      match row' with
      | [] =>
          if last_row then (hex_0x b ++ [LF], count)
          else if (15 <=? S count)%nat then (hex_0x b ++ txt "," ++ [LF], O)
          else (hex_0x b ++ txt ",", S count)
      | _ :: _ =>
          let sep_count :=
            if (15 <=? S count)%nat then (txt "," ++ [LF], O) else (txt ",", S count) in
          let rest := xbm_row_text last_row row' (snd sep_count) in
          (hex_0x b ++ fst sep_count ++ fst rest, snd rest)
      end
  end.

Fixpoint xbm_body (rows : list bytes) (count : nat) : bytes :=
  match rows with
  | [] => []
  | row :: rows' =>
      match rows' with
      | [] => fst (xbm_row_text true row count)
      | _ :: _ =>
          let t := xbm_row_text false row count in
          fst t ++ xbm_body rows' (snd t)
      end
  end.

(** [img.save(output, format="XBM")] followed by [output.getvalue()] *)
Definition save_xbm (im : Image) : bytes :=
  txt "#define im_width " ++ str_of_int (width im) ++ [LF] ++
  txt "#define im_height " ++ str_of_int (height im) ++ [LF] ++
  txt "static char im_bits[] = {" ++ [LF] ++
  xbm_body (xbm_rows im) 0 ++
  txt "};" ++ [LF].

(** [Image.new("1", (w, h))]: every pixel 0; a negative side is refused. *)
Definition new (w h : Z) : result Image :=
  if (w <? 0) || (h <? 0) then Raise ValueError
  else Ok {| width := w; height := h;
             pixels := List.repeat false (Z.to_nat (w * h)) |}.

(** [img.putdata(data)]: the values fill the image from the top left; more
    values than pixels is a [TypeError] ("too many data entries"), fewer
    leave the remaining pixels as they were. *)
Definition putdata (im : Image) (data : list Z) : result Image :=
  if width im * height im <? len data then Raise TypeError
  else Ok {| width := width im; height := height im;
             pixels := map (fun v => 0 <? v) data
                       ++ skipn (length data) (pixels im) |}.

(** [Image.open(path)] on the bytes of the file, with the conversion to
    mode "1" that every caller applies. *)
Class Decoder := { open : bytes -> result Image }.

End PIL.

(** ** heatshrink2: the compressor behind the codec

    [compress data window_sz2 lookahead_sz2] and [decompress] are the
    library's functions; the packer is verified for every implementation
    of this interface. *)

Class Heatshrink2 : Type := {
  compress : bytes -> Z -> Z -> bytes;
  decompress : bytes -> Z -> Z -> result bytes
}.

(** A reference implementation of the interface in heatshrink's stream
    format: a literal is a set tag bit and the eight bits of the byte; a
    back-reference is a clear tag bit, the distance minus one in
    [window_sz2] bits and the length minus one in [lookahead_sz2] bits;
    bits fill bytes from the highest bit and the last byte is padded with
    clear bits. The encoder takes the longest match in a window that starts
    out zeroed, the nearest among equals, when it is longer than
    [(1 + window_sz2 + lookahead_sz2) / 8] bytes. *)

Module Heatshrink.

(** The [n] low bits of [v], highest first. *)
Fixpoint bits_of (n : nat) (v : Z) : list bool :=
  match n with
  | O => []
  | S n' => Z.testbit v (Z.of_nat n') :: bits_of n' v
  end.

Fixpoint msb_value (bits : list bool) (acc : Z) : Z :=
  match bits with
  | [] => acc
  | b :: bits' => msb_value bits' (2 * acc + Z.b2z b)
  end.

Fixpoint bytes_of_bits (bits : list bool) : bytes :=
  match bits with
  | [] => []
  | b0 :: b1 :: b2 :: b3 :: b4 :: b5 :: b6 :: b7 :: bits' =>
      z2b (msb_value [b0; b1; b2; b3; b4; b5; b6; b7] 0) :: bytes_of_bits bits'
  | _ => [z2b (msb_value (firstn 8 (bits ++ List.repeat false 8)) 0)]
  end.

Definition bits_of_bytes (bs : bytes) : list bool :=
  flat_map (fun b => bits_of 8 (b2z b)) bs.

(** The length of the common prefix of [a] and [b], at most [maxlen]. *)
Fixpoint match_length (maxlen : nat) (a b : bytes) : nat :=
  match maxlen, a, b with
  | S m, x :: a', y :: b' =>
      if N.eqb (Byte.to_N x) (Byte.to_N y) then S (match_length m a' b') else O
  | _, _, _ => O
  end.

(** The best match of [input] among the [w] starting points of [buf], the
    first of which lies [dist] bytes before the input. *)
Fixpoint best_match (w : nat) (buf input : bytes) (maxlen dist : nat)
    (best : nat * nat) : nat * nat :=
  match w, buf with
  | S w', _ :: buf' =>
      let l := match_length maxlen buf input in
      let best' := if (fst best <=? l)%nat then (l, dist) else best in
      best_match w' buf' input maxlen (dist - 1) best'
  | _, _ => best
  end.

Fixpoint encode_bits (fuel wbits lbits : nat) (window input : bytes) : list bool :=
  match fuel, input with
  | S fuel', c :: input' =>
      let maxlen := length (firstn (2 ^ lbits) input) in
      let m := best_match (length window) (window ++ input) input maxlen
                 (length window) (O, O) in
      if ((1 + wbits + lbits) / 8 <? fst m)%nat then
        false :: bits_of wbits (Z.of_nat (snd m) - 1)
          ++ bits_of lbits (Z.of_nat (fst m) - 1)
          ++ encode_bits fuel' wbits lbits
               (skipn (fst m) (window ++ firstn (fst m) input)) (skipn (fst m) input)
      else
        true :: bits_of 8 (b2z c)
          ++ encode_bits fuel' wbits lbits (skipn 1 (window ++ [c])) input'
  | _, _ => []
  end.

(** The encoder that looks for no match: every byte a literal. *)
Definition store (data : bytes) (window_sz2 lookahead_sz2 : Z) : bytes :=
  bytes_of_bits (flat_map (fun c => true :: bits_of 8 (b2z c)) data).

Definition encode (data : bytes) (window_sz2 lookahead_sz2 : Z) : bytes :=
  let wbits := Z.to_nat window_sz2 in
  bytes_of_bits
    (encode_bits (length data) wbits (Z.to_nat lookahead_sz2)
       (List.repeat x00 (2 ^ wbits)) data).

(** Copy [n] bytes from [dist] bytes back; [out] is the output so far, the
    newest byte first, and bytes before its start are zero. *)
Fixpoint copy_back (n dist : nat) (out : bytes) : bytes :=
  match n with
  | O => out
  | S n' => copy_back n' dist (nth (dist - 1) out x00 :: out)
  end.

Fixpoint decode_bits (fuel wbits lbits : nat) (bits : list bool) (out : bytes) : bytes :=
  match fuel, bits with
  | S fuel', true :: bits' =>
      if (length (firstn 8 bits') <? 8)%nat then out
      else decode_bits fuel' wbits lbits (skipn 8 bits')
             (z2b (msb_value (firstn 8 bits') 0) :: out)
  | S fuel', false :: bits' =>
      if (length (firstn (wbits + lbits) bits') <? wbits + lbits)%nat then out
      else
        let dist := Z.to_nat (msb_value (firstn wbits bits') 0) + 1 in
        let n := Z.to_nat (msb_value (firstn lbits (skipn wbits bits')) 0) + 1 in
        decode_bits fuel' wbits lbits (skipn (wbits + lbits) bits')
          (copy_back n dist out)
  | _, _ => out
  end%nat.

Definition decode (data : bytes) (window_sz2 lookahead_sz2 : Z) : result bytes :=
  let bits := bits_of_bytes data in
  Ok (rev_append (decode_bits (length bits) (Z.to_nat window_sz2)
                    (Z.to_nat lookahead_sz2) bits []) []).

End Heatshrink.

#[export] Instance reference_heatshrink : Heatshrink2 :=
  {| compress := Heatshrink.encode; decompress := Heatshrink.decode |}.

Definition storing_heatshrink : Heatshrink2 :=
  {| compress := Heatshrink.store; decompress := Heatshrink.decode |}.

(** ** The bitmap codec *)

Section Codec.
Context `{HS : Heatshrink2}.
#[local] Open Scope result_scope.

(** Lines 87 to 90: the hexadecimal items of the XBM text, read back as
    bytes. The text is ASCII, so [xbm.decode()] keeps every code point. *)
Definition xbm_data (xbm : bytes) : result bytes :=
  let f := strip str_isspace xbm in
  piece <- item (split (txt "=")
             (replace (txt " ") [] (replace [LF] [] (strip str_isspace f)))) 1 ;;
  let data := drop_last piece in
  let data_str := replace (txt "0x") [] (replace (txt ",") (txt " ") (strip_ends data)) in
  fromhex data_str.

(** The packed bits [data_bin] of an image (lines 81 to 90). *)
Definition data_bin_of (img : PIL.Image) : result bytes :=
  let img := PIL.convert_1 img in
  let img := PIL.invert img in
  let xbm := PIL.save_xbm img in
  xbm_data xbm.

(** Lines 93 to 101, from [data_bin] on. *)
Definition frame_bm (data_bin : bytes) : result bytes :=
  let data_encoded_str := compress data_bin 8 4 in
  let data_enc := data_encoded_str in
  prefix <- bytearray [Z.land (len data_enc) 255; Z.shiftr (len data_enc) 8] ;;
  let data_enc := prefix ++ data_enc in
  if len data_enc + 2 <? len data_bin + 1
  then Ok ([x01; x00] ++ data_enc)
  else Ok ([x00] ++ data_bin).

Definition convert_to_bm (img : PIL.Image) : result bytes :=
  data_bin <- data_bin_of img ;;
  frame_bm data_bin.

Definition convert_to_bmx (img : PIL.Image) : result bytes :=
  data <- struct_pack_I [fst (PIL.size img); snd (PIL.size img)] ;;
  bm <- convert_to_bm img ;;
  Ok (data ++ bm).

(** Lines 122 to 125: the packed bits of an encoded bitmap. *)
Definition data_dec_of (bm : bytes) : result bytes :=
  if startswith [x01; x00] bm
  then decompress (slice_from bm 4) 8 4
  else Ok (slice_from bm 1).

(** The list comprehension of line 128. *)
Definition unpack_pixels (data_dec : bytes) : list Z :=
  flat_map (fun byte =>
    map (fun i => 1 - Z.land (Z.shiftr (b2z byte) i) 1) [0; 1; 2; 3; 4; 5; 6; 7])
    data_dec.

Definition recover_png_from_bm (bm : bytes) (width height : Z) : result PIL.Image :=
  data_dec <- data_dec_of bm ;;
  img <- PIL.new width height ;;
  PIL.putdata img (unpack_pixels data_dec).
End Codec.

(** ** The file system, the logger and the monad of the packers *)

#[export] Instance byte_eq_decision : EqDecision byte := byte_eq_dec.
#[export] Instance byte_countable : Countable byte :=
  inj_countable Byte.to_N Byte.of_N Byte.of_to_N.

(** A path is the list of its components from the root of the model; the
    empty path is that root, which is always a directory. *)
Abbreviation path := (list bytes).

Inductive node : Type :=
| File (data : bytes)
| Dir.

(** What the program passes to its logger, in the order of the source. *)
Inductive message : Type :=
| Packing (asset_pack_path : path)
| NotADirectory (asset_pack_path : path)
| FailedToRemove (packed : path)
| CompilingAnim (pack : bytes) (anim : list Z)
| CompilingIcon (pack icons icon : bytes)
| CompilingFont (pack font : bytes)
| Finished (pack : bytes)
| SavedTo (packed : path)
| IllegalCharacters (name : bytes)
| AlreadyExists (p : path)
| Created (name : bytes) (output_directory : path).

Record world : Type := { files : gmap path node; console : list message }.

Definition M (A : Type) : Type := world -> world * result A.

Definition ret {A} (a : A) : M A := fun w => (w, Ok a).
Definition lift {A} (r : result A) : M A := fun w => (w, r).
Definition bind {A B} (m : M A) (k : A -> M B) : M B :=
  fun w =>
    match m w with
    | (w', Ok a) => k a w'
    | (w', Raise e) => (w', Raise e)
    end.

Declare Scope io_scope.
Delimit Scope io_scope with io.
Notation "x <- e ;; k" := (bind e (fun x => k))
  (at level 100, e at next level, right associativity) : io_scope.

(** [try: m] with [except Exception: handler] *)
Definition try_except {A} (m : M A) (handler : exn -> M A) : M A :=
  fun w =>
    match m w with
    | (w', Ok a) => (w', Ok a)
    | (w', Raise e) => handler e w'
    end.

(** [for x in xs: state = body(state, x)] *)
Fixpoint for_each {A S} (xs : list A) (body : S -> A -> M S) (s : S) : M S :=
  match xs with
  | [] => ret s
  | x :: xs' => bind (body s x) (for_each xs' body)
  end.

Module Path.

Definition child (p : path) (name : bytes) : path := p ++ [name].
Definition name (p : path) : bytes := List.last p [].
Definition parent (p : path) : path := removelast p.

(** [p / q.name]: the name of the root is empty, and joining it changes
    nothing. *)
Definition join_name (p : path) (nm : bytes) : path :=
  match nm with
  | [] => p
  | _ :: _ => child p nm
  end.

(** The pieces of a text between its separators. *)
Fixpoint pieces (s : list Z) : list (list Z) :=
  match s with
  | [] => [[]]
  | c :: s' =>
      if c =? 47 then [] :: pieces s'
      else
        match pieces s' with
        | piece :: rest => (c :: piece) :: rest
        | [] => [[c]]
        end
  end.

Definition kept_piece (piece : list Z) : bool :=
  match piece with
  | [] => false
  | [c] => negb (c =? 46)
  | _ => true
  end.

(** [p / s] for a text [s], read as [PurePosixPath] reads it: empty
    pieces and pieces [.] are dropped, and a text that starts with a
    separator names a path from the root. A piece [..] stays a component,
    as it does in pathlib; the file system of the model has no entry of
    that name. *)
Definition join_text (p : path) (s : list Z) : path :=
  let parts := map fsencode (List.filter kept_piece (pieces s)) in
  match s with
  | c :: _ => if c =? 47 then parts else p ++ parts
  | [] => p ++ parts
  end.

(** [q] is [p] or lies below it. *)
Fixpoint below (p q : path) : bool :=
  match p, q with
  | [], _ => true
  | c :: p', d :: q' => bool_decide (c = d) && below p' q'
  | _ :: _, [] => false
  end.

(** [PurePath.suffix] of a name: from the last dot on, unless that dot is
    the first or the last character. *)
Definition suffix (nm : bytes) : bytes :=
  let i := rfind x2e nm in
  if (0 <? i) && (i <? len nm - 1) then skipn (Z.to_nat i) nm else [].

(** [PurePath.with_suffix] on the last component; an empty name is a
    [ValueError]. *)
Definition name_with_suffix (nm sfx : bytes) : result bytes :=
  match nm with
  | [] => Raise ValueError
  | _ :: _ => Ok (firstn (length nm - length (suffix nm)) nm ++ sfx)
  end.

Definition with_suffix (p : path) (sfx : bytes) : result path :=
  rbind (name_with_suffix (name p) sfx) (fun nm => Ok (child (parent p) nm)).

Definition node_at (fs : gmap path node) (p : path) : option node :=
  match p with
  | [] => Some Dir
  | _ :: _ => fs !! p
  end.

Definition is_file_in (fs : gmap path node) (p : path) : bool :=
  match node_at fs p with
  | Some (File _) => true
  | _ => false
  end.

Definition is_dir_in (fs : gmap path node) (p : path) : bool :=
  match node_at fs p with
  | Some Dir => true
  | _ => false
  end.

Definition is_file (p : path) : M bool := fun w => (w, Ok (is_file_in (files w) p)).
Definition is_dir (p : path) : M bool := fun w => (w, Ok (is_dir_in (files w) p)).
Definition exists_ (p : path) : M bool :=
  fun w => (w, Ok (bool_decide (is_Some (node_at (files w) p)))).

Definition set_node (p : path) (n : node) (w : world) : world :=
  {| files := <[p := n]> (files w); console := console w |}.

(** [p.mkdir(parents=True, exist_ok=True)]: the missing directories from
    the root down; a file in the way is an error. *)
Fixpoint mkdir_from (base rest : path) : M unit :=
  match rest with
  | [] => ret tt
  | c :: rest' =>
      fun w =>
        let q := base ++ [c] in
        match node_at (files w) q with
        | Some (File _) =>
            (w, Raise (match rest' with [] => FileExistsError | _ => NotADirectoryError end))
        | Some Dir => mkdir_from q rest' w
        | None => mkdir_from q rest' (set_node q Dir w)
        end
  end.

Definition mkdir (p : path) : M unit := mkdir_from [] p.

Definition read_bytes (p : path) : M bytes :=
  fun w =>
    match node_at (files w) p with
    | Some (File data) => (w, Ok data)
    | Some Dir => (w, Raise IsADirectoryError)
    | None => (w, Raise FileNotFoundError)
    end.

(** [p.write_bytes(data)]: the parent must be a directory and [p] must not
    be one. *)
Definition write_bytes (p : path) (data : bytes) : M unit :=
  fun w =>
    match p with
    | [] => (w, Raise IsADirectoryError)
    | _ :: _ =>
        match node_at (files w) (parent p) with
        | Some Dir =>
            match node_at (files w) p with
            | Some Dir => (w, Raise IsADirectoryError)
            | _ => (set_node p (File data) w, Ok tt)
            end
        | Some (File _) => (w, Raise NotADirectoryError)
        | None => (w, Raise FileNotFoundError)
        end
    end.

(** [shutil.copyfile(src, dst)] *)
Definition copyfile (src dst : path) : M unit :=
  if bool_decide (src = dst) then lift (Raise SameFileError)
  else bind (read_bytes src) (write_bytes dst).

(** [shutil.rmtree(p, ignore_errors=True)]: a directory goes with all
    that lies below it; anything else is an error that is ignored. *)
Definition rmtree (p : path) : M unit :=
  fun w =>
    match node_at (files w) p with
    | Some Dir =>
        ({| files := filter (fun entry => below p entry.1 = false) (files w);
            console := console w |}, Ok tt)
    | _ => (w, Ok tt)
    end.

(** [p.unlink()] *)
Definition unlink (p : path) : M unit :=
  fun w =>
    match node_at (files w) p with
    | Some (File _) =>
        ({| files := delete p (files w); console := console w |}, Ok tt)
    | Some Dir => (w, Raise IsADirectoryError)
    | None => (w, Raise FileNotFoundError)
    end.

(** [p.iterdir()]: the entries of a directory, in the order the file
    system lists them. *)
Definition entries (fs : gmap path node) (p : path) : list path :=
  List.filter (fun q => bool_decide (q <> [] /\ parent q = p)) (map fst (map_to_list fs)).

Definition iterdir (p : path) : M (list path) :=
  fun w =>
    match node_at (files w) p with
    | Some Dir => (w, Ok (entries (files w) p))
    | Some (File _) => (w, Raise NotADirectoryError)
    | None => (w, Raise FileNotFoundError)
    end.

(** [p.read_text()] on ASCII text; other text is outside the model. *)
Definition read_text (p : path) : M bytes :=
  bind (read_bytes p) (fun data =>
    if forallb (fun c => b2z c <? 128) data then ret data
    else lift (Raise UnicodeDecodeError)).

End Path.

Infix "</>" := Path.child (at level 40, left associativity).

Definition logger (m : message) : M unit :=
  fun w => ({| files := files w; console := console w ++ [m] |}, Ok tt).

(** ** Font extraction (the [.c] branch of [pack_font]) *)

Definition FONT_SECTION : bytes := txt " U8G2_FONT_SECTION(" ++ [QUOTE].
Definition FONT_ASSIGN : bytes := [QUOTE] ++ txt ") =".

(** [for x in xs: acc = body(acc, x)] for code that may raise. *)
Fixpoint rfold {A S} (xs : list A) (body : S -> A -> result S) (s : S) : result S :=
  match xs with
  | [] => Ok s
  | x :: xs' => rbind (body s x) (rfold xs' body)
  end.

Section Font.
Context `{UD : Unicodedata}.
#[local] Open Scope result_scope.

(** Line 228: the text after the section marker and the assignment. *)
Definition font_code (source : bytes) : result bytes :=
  after_section <- item (split FONT_SECTION source) 1 ;;
  after_assign <- item (split FONT_ASSIGN after_section) 1 ;;
  Ok (strip bytes_isspace after_assign).

(** Line 232: a line counts when it holds exactly two double quotes. *)
Definition significant (line : bytes) : bool := count QUOTE line =? 2.

(** Lines 234 to 236: the bytes a line stands for. *)
Definition line_bytes (line : bytes) : result bytes :=
  cps <- decode_unicode_escape (slice line (find QUOTE line + 1) (rfind QUOTE line)) ;;
  encode_latin_1 cps.

Definition font_line (font line : bytes) : result bytes :=
  if significant line then
    decoded <- line_bytes line ;;
    Ok (font ++ decoded)
  else Ok font.

Definition extract_font (source : bytes) : result bytes :=
  code <- font_code source ;;
  font <- rfold (splitlines code) font_line [] ;;
  Ok (font ++ [x00]).
End Font.

(** ** The packers *)

(** [re.match(r"^[a-zA-Z0-9_\- ]+$", name)]: one or more characters of the
    class, then [$], which matches at the end of the string and also just
    before a line feed that ends the string. *)
Definition name_char (c : byte) : bool :=
  let n := b2z c in
  ((97 <=? n) && (n <=? 122)) || ((65 <=? n) && (n <=? 90))
  || ((48 <=? n) && (n <=? 57)) || (n =? 95) || (n =? 45) || (n =? 32).

Definition at_dollar (rest : bytes) : bool :=
  match rest with
  | [] => true
  | [c] => Byte.eqb c LF
  | _ => false
  end.

Fixpoint name_chars_then_dollar (s : bytes) : bool :=
  at_dollar s ||
  match s with
  | c :: s' => name_char c && name_chars_then_dollar s'
  | [] => false
  end.

Definition name_re_match (name : bytes) : bool :=
  match name with
  | c :: rest => name_char c && name_chars_then_dollar rest
  | [] => false
  end.

Definition EXAMPLE_MANIFEST : bytes := txt
"Filetype: Flipper Animation Manifest
Version: 1

Name: example_anim
Min butthurt: 0
Max butthurt: 18
Min level: 1
Max level: 30
Weight: 8
".

Definition EXAMPLE_META : bytes := txt
"Filetype: Flipper Animation
Version: 1

Width: 128
Height: 64
Passive frames: 24
Active frames: 0
Frames order: 0 1 2 3 4 5 6 7 8 9 10 11 12 13 14 15 16 17 18 19 20 21 22 23
Active cycles: 0
Frame rate: 1
Duration: 3600
Active cooldown: 0

Bubble slots: 0
".

(** The loop state of [pack_icon_animated]. *)
Record scan : Type := {
  frame_count : Z;
  frame_rate : option Z;
  size : option (Z * Z)
}.

(** [sorted(files, key=lambda x: x.name)]: a stable sort by name, names
    compared as Python compares strings. *)
Fixpoint name_le (a b : bytes) : bool :=
  match a, b with
  | [], _ => true
  | _ :: _, [] => false
  | x :: a', y :: b' =>
      if b2z x <? b2z y then true
      else if b2z y <? b2z x then false
      else name_le a' b'
  end.

Fixpoint insert_by_name (p : path) (sorted : list path) : list path :=
  match sorted with
  | [] => [p]
  | q :: rest =>
      if name_le (Path.name q) (Path.name p) then q :: insert_by_name p rest
      else p :: sorted
  end.

Definition sorted_by_name (ps : list path) : list path :=
  fold_left (fun acc p => insert_by_name p acc) ps [].

(** [re.finditer] with the pattern of line 321, the field [Name: ] and a
    group of any length: group 1 of every match, from the left. A dot of a bytes pattern matches every byte but the line
    feed, so a group runs to the end of its line; matches do not overlap,
    and [skip] counts the bytes of the current match that are still to be
    passed. *)
Definition NAME_FIELD : bytes := txt "Name: ".

Fixpoint until_lf (s : bytes) : bytes :=
  match s with
  | [] => []
  | c :: s' => if Byte.eqb c LF then [] else c :: until_lf s'
  end.

Fixpoint name_groups_from (s : bytes) (skip : nat) : list bytes :=
  match s with
  | [] => []
  | _ :: s' =>
      match skip with
      | S k => name_groups_from s' k
      | O =>
          if startswith NAME_FIELD s then
            let group := until_lf (skipn (length NAME_FIELD) s) in
            group :: name_groups_from s' (length NAME_FIELD - 1 + length group)
          else name_groups_from s' 0
      end
  end.

Definition name_groups (manifest : bytes) : list bytes :=
  name_groups_from manifest 0.

(** [os.sep] of a POSIX system. *)
Definition os_sep : Z := 47.

(** Lines 322 to 329: the name of an animation, from group 1 of a match. *)
Definition anim_name (group : bytes) : result (list Z) :=
  rbind (utf8_decode group) (fun text =>
    Ok (strip unicode_isspace
          (replace_char 13 10 (replace_char 47 os_sep (replace_char 92 47 text))))).

Section Packers.
Context `{HS : Heatshrink2} `{DEC : PIL.Decoder} `{UD : Unicodedata}.
#[local] Open Scope io_scope.

(** [Image.open(path)] *)
Definition open_image (p : path) : M PIL.Image :=
  data <- Path.read_bytes p ;;
  lift (PIL.open data).

(** [convert_to_bm] and [convert_to_bmx] called with a path. *)
Definition convert_to_bm_at (p : path) : M bytes :=
  img <- open_image p ;;
  lift (convert_to_bm img).

Definition convert_to_bmx_at (p : path) : M bytes :=
  img <- open_image p ;;
  lift (convert_to_bmx img).

Definition copy_file_as_lf (src dst : path) : M unit :=
  data <- Path.read_bytes src ;;
  Path.write_bytes dst (replace [CR; LF] [LF] data).

(** The body of the loop of [pack_anim]. *)
Definition pack_anim_frame (dst : path) (_ : unit) (frame : path) : M unit :=
  is_file <- Path.is_file frame ;;
  if negb is_file then ret tt
  else if bool_decide (Path.name frame = txt "meta.txt") then
    copy_file_as_lf frame (dst </> Path.name frame)
  else if startswith (txt "frame_") (Path.name frame) then
    if bool_decide (Path.suffix (Path.name frame) = txt ".png") then
      bm <- lift (Path.with_suffix frame (txt ".bm")) ;;
      data <- convert_to_bm_at frame ;;
      Path.write_bytes (dst </> Path.name bm) data
    else if bool_decide (Path.suffix (Path.name frame) = txt ".bm") then
      present <- Path.is_file (dst </> Path.name frame) ;;
      if negb present then Path.copyfile frame (dst </> Path.name frame)
      else ret tt
    else ret tt
  else ret tt.

Definition pack_anim (src dst : path) : M unit :=
  has_meta <- Path.is_file (src </> txt "meta.txt") ;;
  if negb has_meta then ret tt
  else
    _ <- Path.mkdir dst ;;
    frames <- Path.iterdir src ;;
    for_each frames (pack_anim_frame dst) tt.

(** Lines 203 and 204: the size of the first [.png] frame is kept. *)
Definition first_size (size : option (Z * Z)) (frame : path) : M (option (Z * Z)) :=
  match size with
  | None => img <- open_image frame ;; ret (Some (PIL.size img))
  | Some sz => ret (Some sz)
  end.

(** The body of the loop of [pack_icon_animated]. *)
Definition pack_icon_frame (dst : path) (files : list path) (st : scan)
    (frame : path) : M scan :=
  is_file <- Path.is_file frame ;;
  if negb is_file then ret st
  else if bool_decide (Path.name frame = txt "frame_rate") then
    text <- Path.read_text frame ;;
    rate <- lift (int_of_text (strip str_isspace text)) ;;
    ret {| frame_count := frame_count st; frame_rate := Some rate; size := size st |}
  else if bool_decide (Path.name frame = txt "meta") then
    _ <- Path.copyfile frame (dst </> Path.name frame) ;;
    ret st
  else
    let dst_frame := dst </> (txt "frame_" ++ format_02 (frame_count st) ++ txt ".bm") in
    if bool_decide (Path.suffix (Path.name frame) = txt ".png") then
      size' <- first_size (size st) frame ;;
      data <- convert_to_bm_at frame ;;
      _ <- Path.write_bytes dst_frame data ;;
      ret {| frame_count := frame_count st + 1; frame_rate := frame_rate st;
             size := size' |}
    else if bool_decide (Path.suffix (Path.name frame) = txt ".bm") then
      png <- lift (Path.with_suffix frame (txt ".png")) ;;
      if negb (bool_decide (png ∈ files)) then
        _ <- Path.copyfile frame dst_frame ;;
        ret {| frame_count := frame_count st + 1; frame_rate := frame_rate st;
               size := size st |}
      else ret st
    else ret st.

Definition initial_scan : scan :=
  {| frame_count := 0; frame_rate := None; size := None |}.

(** Lines 189 to 210: the scan of the frames. *)
Definition scan_icon_frames (src dst : path) : M scan :=
  listed <- Path.iterdir src ;;
  files <- (fun w => (w, Ok (List.filter (Path.is_file_in (files w)) listed))) ;;
  for_each (sorted_by_name files) (pack_icon_frame dst files) initial_scan.

(** Lines 211 and 212: the generated header. *)
Definition write_icon_meta (dst : path) (st : scan) : M unit :=
  match size st, frame_rate st with
  | Some (width, height), Some rate =>
      header <- lift (struct_pack_I [width; height; rate; frame_count st]) ;;
      Path.write_bytes (dst </> txt "meta") header
  | _, _ => ret tt
  end.

Definition pack_icon_animated (src dst : path) : M unit :=
  has_rate <- Path.is_file (src </> txt "frame_rate") ;;
  has_meta <- Path.is_file (src </> txt "meta") ;;
  if negb has_rate && negb has_meta then ret tt
  else
    _ <- Path.mkdir dst ;;
    st <- scan_icon_frames src dst ;;
    write_icon_meta dst st.

Definition pack_icon_static (src dst : path) : M unit :=
  _ <- Path.mkdir (Path.parent dst) ;;
  if bool_decide (Path.suffix (Path.name src) = txt ".png") then
    bmx <- lift (Path.with_suffix dst (txt ".bmx")) ;;
    data <- convert_to_bmx_at src ;;
    Path.write_bytes bmx data
  else if bool_decide (Path.suffix (Path.name src) = txt ".bmx") then
    present <- Path.is_file dst ;;
    if negb present then Path.copyfile src dst else ret tt
  else ret tt.

Definition pack_font (src dst : path) : M unit :=
  _ <- Path.mkdir (Path.parent dst) ;;
  if bool_decide (Path.suffix (Path.name src) = txt ".c") then
    source <- Path.read_bytes src ;;
    font <- lift (extract_font source) ;;
    u8f <- lift (Path.with_suffix dst (txt ".u8f")) ;;
    Path.write_bytes u8f font
  else if bool_decide (Path.suffix (Path.name src) = txt ".u8f") then
    present <- Path.is_file dst ;;
    if negb present then Path.copyfile src dst else ret tt
  else ret tt.

(** Lines 304 to 312: an output pack that is there already is removed. *)
Definition remove_existing_pack (packed : path) : M unit :=
  present <- Path.exists_ packed ;;
  if present then
    try_except
      (is_dir <- Path.is_dir packed ;;
       if is_dir then Path.rmtree packed else Path.unlink packed)
      (fun _ => logger (FailedToRemove packed))
  else ret tt.

(** Lines 315 to 331 *)
Definition pack_anims (asset_pack_path packed : path) : M unit :=
  let manifest_txt := asset_pack_path </> txt "Anims" </> txt "manifest.txt" in
  has_manifest <- Path.exists_ manifest_txt ;;
  if has_manifest then
    _ <- Path.mkdir (packed </> txt "Anims") ;;
    _ <- copy_file_as_lf manifest_txt (packed </> txt "Anims" </> txt "manifest.txt") ;;
    manifest <- Path.read_bytes manifest_txt ;;
    for_each (name_groups manifest)
      (fun _ group =>
         anim <- lift (anim_name group) ;;
         _ <- logger (CompilingAnim (Path.name asset_pack_path) anim) ;;
         pack_anim (Path.join_text (asset_pack_path </> txt "Anims") anim)
                   (Path.join_text (packed </> txt "Anims") anim))
      tt
  else ret tt.

(** Lines 338 to 346: one entry of a directory of icons. *)
Definition pack_icon (asset_pack_path packed icons : path) (_ : unit) (icon : path)
    : M unit :=
  if startswith (txt ".") (Path.name icon) then ret tt
  else
    let dst := packed </> txt "Icons" </> Path.name icons </> Path.name icon in
    is_dir <- Path.is_dir icon ;;
    if is_dir then
      _ <- logger (CompilingIcon (Path.name asset_pack_path) (Path.name icons)
                     (Path.name icon)) ;;
      pack_icon_animated icon dst
    else
      is_file <- Path.is_file icon ;;
      if is_file && (bool_decide (Path.suffix (Path.name icon) = txt ".png")
                     || bool_decide (Path.suffix (Path.name icon) = txt ".bmx")) then
        _ <- logger (CompilingIcon (Path.name asset_pack_path) (Path.name icons)
                       (Path.name icon)) ;;
        pack_icon_static icon dst
      else ret tt.

(** Lines 335 to 346: one entry of [Icons]. *)
Definition pack_icons_of (asset_pack_path packed : path) (_ : unit) (icons : path)
    : M unit :=
  is_dir <- Path.is_dir icons ;;
  if negb is_dir || startswith (txt ".") (Path.name icons) then ret tt
  else
    listed <- Path.iterdir icons ;;
    for_each listed (pack_icon asset_pack_path packed icons) tt.

(** Lines 350 to 358: one entry of [Fonts]. *)
Definition pack_font_of (asset_pack_path packed : path) (_ : unit) (font : path)
    : M unit :=
  is_file <- Path.is_file font ;;
  if negb is_file
     || startswith (txt ".") (Path.name font)
     || negb (bool_decide (Path.suffix (Path.name font) = txt ".c")
              || bool_decide (Path.suffix (Path.name font) = txt ".u8f"))
  then ret tt
  else
    _ <- logger (CompilingFont (Path.name asset_pack_path) (Path.name font)) ;;
    pack_font font (packed </> txt "Fonts" </> Path.name font).

Definition pack_specific (asset_pack_path output_directory : path) : M unit :=
  _ <- logger (Packing asset_pack_path) ;;
  is_dir <- Path.is_dir asset_pack_path ;;
  if negb is_dir then logger (NotADirectory asset_pack_path)
  else
    let packed := Path.join_name output_directory (Path.name asset_pack_path) in
    _ <- remove_existing_pack packed ;;
    _ <- pack_anims asset_pack_path packed ;;
    has_icons <- Path.is_dir (asset_pack_path </> txt "Icons") ;;
    _ <- (if has_icons then
            listed <- Path.iterdir (asset_pack_path </> txt "Icons") ;;
            for_each listed (pack_icons_of asset_pack_path packed) tt
          else ret tt) ;;
    has_fonts <- Path.is_dir (asset_pack_path </> txt "Fonts") ;;
    _ <- (if has_fonts then
            listed <- Path.iterdir (asset_pack_path </> txt "Fonts") ;;
            for_each listed (pack_font_of asset_pack_path packed) tt
          else ret tt) ;;
    _ <- logger (Finished (Path.name asset_pack_path)) ;;
    logger (SavedTo packed).

Definition create_asset_pack (name : bytes) (output_directory : path) : M unit :=
  if negb (name_re_match name) then logger (IllegalCharacters name)
  else
    taken <- Path.exists_ (output_directory </> name) ;;
    if taken then logger (AlreadyExists (output_directory </> name))
    else
      _ <- Path.mkdir (output_directory </> name) ;;
      _ <- Path.mkdir (output_directory </> name </> txt "Anims") ;;
      _ <- Path.mkdir (output_directory </> name </> txt "Icons") ;;
      _ <- Path.mkdir (output_directory </> name </> txt "Fonts") ;;
      _ <- Path.write_bytes
             (output_directory </> name </> txt "Anims" </> txt "manifest.txt")
             EXAMPLE_MANIFEST ;;
      _ <- Path.mkdir (output_directory </> name </> txt "Anims" </> txt "example_anim") ;;
      _ <- Path.write_bytes
             (output_directory </> name </> txt "Anims" </> txt "example_anim"
                </> txt "meta.txt")
             EXAMPLE_META ;;
      logger (Created name output_directory).
End Packers.

(** ** Sample inputs *)

(** A raster of one colour. *)
Definition solid (w h : Z) (white : bool) : PIL.Image :=
  {| PIL.width := w; PIL.height := h;
     PIL.pixels := List.repeat white (Z.to_nat (w * h)) |}.

(** A 4 by 2 raster: its rows are padded to a whole byte each. *)
Definition small_raster : PIL.Image :=
  {| PIL.width := 4; PIL.height := 2;
     PIL.pixels := [true; false; true; true; false; false; true; false] |}.

(** The flag that [recover_png_from_bm] reads. *)
Definition compressed_flag (bm : bytes) : bool := startswith [x01; x00] bm.

(** The [.png] files of a directory. *)
Definition png_frames (fs : gmap path node) (src : path) : list path :=
  List.filter
    (fun f => Path.is_file_in fs f
              && bool_decide (Path.suffix (Path.name f) = txt ".png"))
    (Path.entries fs src).

(** [pack_icon_animated] without its last statement (lines 211 and 212). *)
Definition pack_icon_animated_frames `{HS : Heatshrink2} `{DEC : PIL.Decoder}
    (src dst : path) : M unit :=
  bind (Path.is_file (src </> txt "frame_rate")) (fun has_rate =>
  bind (Path.is_file (src </> txt "meta")) (fun has_meta =>
  if negb has_rate && negb has_meta then ret tt
  else bind (Path.mkdir dst) (fun _ =>
       bind (scan_icon_frames src dst) (fun _ => ret tt)))).

(** Lines 188 to 210 of [pack_icon_animated]: the directory is made and
    the frames are scanned. *)
Definition icon_scan `{HS : Heatshrink2} `{DEC : PIL.Decoder} (src dst : path) : M scan :=
  bind (Path.mkdir dst) (fun _ => scan_icon_frames src dst).

(** A 32-bit little-endian number, as the format states it. *)
Definition u32le (v : Z) : bytes :=
  [z2b (v mod 256); z2b (v / 256 mod 256); z2b (v / 65536 mod 256);
   z2b (v / 16777216 mod 256)].

(** A stand-in for Pillow's decoders in examples: a file holds the width,
    the height and then one byte a pixel. *)
Definition sample_open (data : bytes) : result PIL.Image :=
  match data with
  | w :: h :: px =>
      if len px =? b2z w * b2z h
      then Ok {| PIL.width := b2z w; PIL.height := b2z h;
                 PIL.pixels := map (fun c => negb (Byte.eqb c x00)) px |}
      else Raise UnidentifiedImageError
  | _ => Raise UnidentifiedImageError
  end.

Definition sample_decoder : PIL.Decoder := {| PIL.open := sample_open |}.

(** The file of a white raster for [sample_open]. *)
Definition sample_image_file (w h : Z) : bytes :=
  z2b w :: z2b h :: List.repeat x01 (Z.to_nat (w * h)).

Definition world_of (entries : list (path * node)) : world :=
  {| files := list_to_map entries; console := [] |}.

(** An animated icon given as three [.png] frames of 10 by 20 pixels. *)
Definition png_icon_world : world :=
  world_of
    [ ([txt "icon"], Dir);
      ([txt "icon"; txt "frame_rate"], File (txt "5" ++ [LF]));
      ([txt "icon"; txt "frame_00.png"], File (sample_image_file 10 20));
      ([txt "icon"; txt "frame_01.png"], File (sample_image_file 10 20));
      ([txt "icon"; txt "frame_02.png"], File (sample_image_file 10 20)) ].

(** An animated icon given as two pre-encoded frames. *)
Definition bm_icon_world : world :=
  world_of
    [ ([txt "icon"], Dir);
      ([txt "icon"; txt "frame_rate"], File (txt "5" ++ [LF]));
      ([txt "icon"; txt "frame_00.bm"], File [x00; xff; xff]);
      ([txt "icon"; txt "frame_01.bm"], File [x00; x0f; xf0]) ].

(** An animated icon whose frame rate is negative. *)
Definition negative_rate_world : world :=
  world_of
    [ ([txt "icon"], Dir);
      ([txt "icon"; txt "frame_rate"], File (txt "-1" ++ [LF]));
      ([txt "icon"; txt "frame_00.png"], File (sample_image_file 10 20)) ].

#[export] Instance exn_eq_decision : EqDecision exn.
Proof. solve_decision. Defined.

#[export] Instance result_eq_decision {A} `{EqDecision A} : EqDecision (result A).
Proof. solve_decision. Defined.

(** The [frame_*.png] files of [src] that [pack_anim] encodes to the
    destination name [nm]. *)
Definition encodes_to (nm png : bytes) : bool :=
  startswith (txt "frame_") png
  && bool_decide (Path.suffix png = txt ".png")
  && bool_decide (Path.name_with_suffix png (txt ".bm") = Ok nm).

Definition png_siblings (fs : gmap path node) (src : path) (nm : bytes) : list path :=
  List.filter (fun f => Path.is_file_in fs f && encodes_to nm (Path.name f))
    (Path.entries fs src).

(** An animation whose frame 0 comes both as a [.png] and pre-encoded,
    with an output directory that already holds a hand-made [frame_0.bm];
    frame 1 comes pre-encoded only. *)
Definition SENTINEL : bytes := [xde; xad; xbe; xef].

Definition anim_world : world :=
  world_of
    [ ([txt "anim"], Dir);
      ([txt "anim"; txt "meta.txt"], File (txt "Width: 8" ++ [CR; LF] ++ txt "Height: 6" ++ [LF]));
      ([txt "anim"; txt "frame_0.png"], File (sample_image_file 8 6));
      ([txt "anim"; txt "frame_0.bm"], File [x00; x11; x22; x33; x44; x55; x66]);
      ([txt "anim"; txt "frame_1.bm"], File [x00; x01; x02; x03; x04; x05; x06]);
      ([txt "out"], Dir);
      ([txt "out"; txt "anim"], Dir);
      ([txt "out"; txt "anim"; txt "frame_0.bm"], File SENTINEL);
      ([txt "out"; txt "anim"; txt "frame_1.bm"], File SENTINEL) ].

(** A static icon and a font that come pre-built, with an output that
    already holds files of their names. *)
Definition prebuilt_world : world :=
  world_of
    [ ([txt "Icons"], Dir);
      ([txt "Icons"; txt "ok.bmx"], File [x08; x00; x00; x00; x01; x00; x00; x00; x00; xff]);
      ([txt "Fonts"], Dir);
      ([txt "Fonts"; txt "small.u8f"], File [x01; x02; x00]);
      ([txt "out"], Dir);
      ([txt "out"; txt "ok.bmx"], File SENTINEL);
      ([txt "out"; txt "small.u8f"], File SENTINEL) ].

(** A source pack whose animation frame, icon and font all come
    pre-built, and an output directory that holds a pack of the same name
    from an earlier run, its three files replaced by hand. *)
Definition pack_world : world :=
  world_of
    [ ([txt "pack"], Dir);
      ([txt "pack"; txt "Anims"], Dir);
      ([txt "pack"; txt "Anims"; txt "manifest.txt"],
       File (txt "Filetype: Flipper Animation Manifest" ++ [CR; LF]
             ++ txt "Name: wave" ++ [CR; LF] ++ txt "Weight: 8" ++ [CR; LF]));
      ([txt "pack"; txt "Anims"; txt "wave"], Dir);
      ([txt "pack"; txt "Anims"; txt "wave"; txt "meta.txt"], File (txt "Width: 8" ++ [LF]));
      ([txt "pack"; txt "Anims"; txt "wave"; txt "frame_0.bm"], File [x00; x11; x22]);
      ([txt "pack"; txt "Icons"], Dir);
      ([txt "pack"; txt "Icons"; txt "Set"], Dir);
      ([txt "pack"; txt "Icons"; txt "Set"; txt "ok.bmx"],
       File [x08; x00; x00; x00; x01; x00; x00; x00; x00; xff]);
      ([txt "pack"; txt "Fonts"], Dir);
      ([txt "pack"; txt "Fonts"; txt "small.u8f"], File [x01; x02; x00]);
      ([txt "asset_packs"], Dir);
      ([txt "asset_packs"; txt "pack"], Dir);
      ([txt "asset_packs"; txt "pack"; txt "Anims"], Dir);
      ([txt "asset_packs"; txt "pack"; txt "Anims"; txt "wave"], Dir);
      ([txt "asset_packs"; txt "pack"; txt "Anims"; txt "wave"; txt "frame_0.bm"],
       File SENTINEL);
      ([txt "asset_packs"; txt "pack"; txt "Icons"], Dir);
      ([txt "asset_packs"; txt "pack"; txt "Icons"; txt "Set"], Dir);
      ([txt "asset_packs"; txt "pack"; txt "Icons"; txt "Set"; txt "ok.bmx"],
       File SENTINEL);
      ([txt "asset_packs"; txt "pack"; txt "Fonts"], Dir);
      ([txt "asset_packs"; txt "pack"; txt "Fonts"; txt "small.u8f"], File SENTINEL) ].

(** [pack_specific] on [pack_world], with the stand-in decoder. *)
Definition repacked : world * result unit :=
  pack_specific (DEC := sample_decoder) (UD := {| lookup_name := fun _ => None |})
    [txt "pack"] [txt "asset_packs"] pack_world.

(** The packed bits of an image: the bytes of its rows, one row after the
    other (what the XBM text lists). *)
Definition xbm_bits (im : PIL.Image) : bytes := concat (PIL.xbm_rows im).

(** The two hexadecimal digits of a byte, and a list of bytes written as
    items [pre hh] separated by [sep]. *)
Definition hex2 (b : byte) : bytes :=
  [PIL.hex_char (b2z b / 16); PIL.hex_char (b2z b mod 16)].

Fixpoint hex_items (pre sep data : bytes) : bytes :=
  match data with
  | [] => []
  | b :: rest =>
      pre ++ hex2 b ++
      match rest with
      | [] => []
      | _ :: _ => sep ++ hex_items pre sep rest
      end
  end.

(** What lines 87 and 88 remove from the text: line feeds and spaces. *)
Definition squeeze (s : bytes) : bytes :=
  List.filter (fun c => negb (Byte.eqb x20 c))
    (List.filter (fun c => negb (Byte.eqb LF c)) s).

(** A font table of two lines, two escaped bytes each. *)
Definition sample_font_source : bytes :=
  txt "const uint8_t tiny[5] U8G2_FONT_SECTION(" ++ [QUOTE] ++ txt "tiny" ++ [QUOTE]
  ++ txt ") =" ++ [CR; LF]
  ++ txt "  " ++ [QUOTE] ++ txt "\001\042" ++ [QUOTE] ++ [LF]
  ++ txt "  " ++ [QUOTE] ++ txt "\x03\n" ++ [QUOTE] ++ txt ";" ++ [LF].

Definition empty_world : world := {| files := ∅; console := [] |}.

(** ** Notions used in the statements *)

(** A 16-bit little-endian count, as the format states it. *)
Definition u16le (n : Z) : bytes := [z2b (n mod 256); z2b (n / 256)].

Definition length_prefix (n : Z) : result bytes :=
  bytearray [Z.land n 255; Z.shiftr n 8].

(** What a step may do to the files: nothing, or set one path. *)
Definition unchanged_at (p : path) (w w' : world) : Prop :=
  files w' !! p = files w !! p.

(** [mkdir] only adds directories. *)
Definition only_adds_dirs (w w' : world) : Prop :=
  console w' = console w /\
  forall q, files w' !! q = files w !! q
            \/ (files w !! q = None /\ files w' !! q = Some Dir).

(** A computation that leaves the world as it is. *)
Definition read_only {A} (m : M A) : Prop := forall w, fst (m w) = w.

(** The invariant of the loop of [pack_anim] for a destination name
    [nm]: the file is there with its content, and no [.png] file of the
    source encodes to [nm]. *)
Definition kept (src dst : path) (nm data : bytes) (w : world) : Prop :=
  files w !! (dst </> nm) = Some (File data)
  /\ forall png, encodes_to nm png = true ->
                 Path.is_file_in (files w) (src </> png) = false.

(** The branch shared by [pack_icon_static] and [pack_font] for a file
    that comes pre-built. *)
Definition copy_if_absent (src dst : path) : M unit :=
  bind (Path.mkdir (Path.parent dst)) (fun _ =>
  bind (Path.is_file dst) (fun present =>
  if negb present then Path.copyfile src dst else ret tt)).

(** The characters of a printed integer. *)
Definition numeric (c : byte) : bool :=
  match dec_digit c with
  | Some _ => true
  | None => Byte.eqb c x2d
  end.

(** The text of a list of items after the squeeze. *)
Definition items_comma (row : bytes) : bytes :=
  flat_map (fun b => PIL.hex_0x b ++ txt ",") row.

(** The pixels that [putdata] stores for the values of line 128. *)
Definition decoded_pixels (data_dec : bytes) : list bool :=
  map (fun v => 0 <? v) (unpack_pixels data_dec).

(** The values that [struct.pack] takes for the format [I]. *)
Definition fits_u32 (v : Z) : bool := (0 <=? v) && (v <? 4294967296).

(** [sep] occurs nowhere in [s]. *)
Fixpoint occurs_nowhere (sep s : bytes) : bool :=
  negb (startswith sep s)
  && match s with
     | [] => true
     | _ :: s' => occurs_nowhere sep s'
     end.

(** *** The font table as the format states it

    One byte of a string literal: a character that stands for itself, a
    backslash and one to three octal digits, a backslash, [x] and two
    hexadecimal digits, or a backslash and one of the characters
    backslash, quote, double quote, a, b, f, n, r, t and v. *)
Inductive c_piece : Type :=
| Plain_byte (c : byte)
| Octal_escape (digits : bytes)
| Hex_escape (h1 h2 : byte)
| Letter_escape (c : byte).

Definition piece_text (p : c_piece) : bytes :=
  match p with
  | Plain_byte c => [c]
  | Octal_escape digits => BACKSLASH :: digits
  | Hex_escape h1 h2 => [BACKSLASH; x78; h1; h2]
  | Letter_escape c => [BACKSLASH; c]
  end.

Definition is_octal (c : byte) : bool := (48 <=? b2z c) && (b2z c <=? 55).

Definition is_hex (c : byte) : bool :=
  ((48 <=? b2z c) && (b2z c <=? 57)) || ((97 <=? b2z c) && (b2z c <=? 102))
  || ((65 <=? b2z c) && (b2z c <=? 70)).

Definition hex_value (c : byte) : Z :=
  if b2z c <=? 57 then b2z c - 48
  else if b2z c <=? 70 then b2z c - 55
  else b2z c - 87.

Definition octal_value (digits : bytes) : Z :=
  fold_left (fun acc d => 8 * acc + (b2z d - 48)) digits 0.

Definition letter_value (c : byte) : option Z :=
  match c with
  | x5c => Some 92
  | x27 => Some 39
  | x22 => Some 34
  | x61 => Some 7
  | x62 => Some 8
  | x66 => Some 12
  | x6e => Some 10
  | x72 => Some 13
  | x74 => Some 9
  | x76 => Some 11
  | _ => None
  end.

Definition piece_ok (p : c_piece) : bool :=
  match p with
  | Plain_byte c => negb (Byte.eqb c BACKSLASH)
  | Octal_escape digits =>
      (1 <=? len digits) && (len digits <=? 3) && forallb is_octal digits
  | Hex_escape h1 h2 => is_hex h1 && is_hex h2
  | Letter_escape c =>
      match letter_value c with
      | Some _ => true
      | None => false
      end
  end.

Definition piece_value (p : c_piece) : Z :=
  match p with
  | Plain_byte c => b2z c
  | Octal_escape digits => octal_value digits
  | Hex_escape h1 h2 => 16 * hex_value h1 + hex_value h2
  | Letter_escape c =>
      match letter_value c with
      | Some v => v
      | None => 0
      end
  end.

Definition literal_text (pieces : list c_piece) : bytes := flat_map piece_text pieces.

(** An octal escape of fewer than three digits ends where the character
    after it is no octal digit. *)
Definition starts_with_octal (s : bytes) : bool :=
  match s with
  | c :: _ => is_octal c
  | [] => false
  end.

Fixpoint literal_ok (pieces : list c_piece) : bool :=
  match pieces with
  | [] => true
  | p :: rest =>
      piece_ok p
      && match p with
         | Octal_escape digits =>
             (len digits =? 3) || negb (starts_with_octal (literal_text rest))
         | _ => true
         end
      && literal_ok rest
  end.

(** A line of the table: a line with one string literal, the text before
    it and the text after it, or any other line. *)
Inductive table_line : Type :=
| Literal (before : bytes) (pieces : list c_piece) (after : bytes)
| Other (text : bytes).

Definition line_text (l : table_line) : bytes :=
  match l with
  | Literal before pieces after =>
      before ++ [QUOTE] ++ literal_text pieces ++ [QUOTE] ++ after
  | Other text => text
  end.

Definition line_values (l : table_line) : list Z :=
  match l with
  | Literal _ pieces _ => map piece_value pieces
  | Other _ => []
  end.

Definition no_byte (c : byte) (s : bytes) : bool :=
  forallb (fun d => negb (Byte.eqb c d)) s.

(** The double quotes of a line with a literal are the two around the
    literal; any other line holds a number of double quotes that is not
    two. No line holds a line end. *)
Definition line_ok (l : table_line) : bool :=
  match l with
  | Literal before pieces after =>
      no_byte QUOTE before && no_byte QUOTE (literal_text pieces)
      && no_byte QUOTE after && literal_ok pieces
  | Other text => negb (length (List.filter (Byte.eqb QUOTE) text) =? 2)%nat
  end
  && no_byte LF (line_text l) && no_byte CR (line_text l).

(** A text with no white space at its ends. *)
Definition tight (s : bytes) : bool :=
  match s with
  | [] => true
  | c :: _ => negb (bytes_isspace c) && negb (bytes_isspace (List.last s c))
  end.

(** A font source: the text before the section marker, the name between
    the marker and the assignment, white space, the lines of the table
    with the line end before each further line, white space, and either
    nothing or the section marker of a next font and what follows it. *)
Record font_file : Type := {
  preamble : bytes;
  font_name : bytes;
  lead_space : bytes;
  first_line : table_line;
  more_lines : list (bytes * table_line);
  trail_space : bytes;
  next_fonts : bytes
}.

Definition table_lines (f : font_file) : list table_line :=
  first_line f :: map snd (more_lines f).

Definition table_body (f : font_file) : bytes :=
  line_text (first_line f)
  ++ flat_map (fun el => fst el ++ line_text (snd el)) (more_lines f).

Definition table_text (f : font_file) : bytes :=
  lead_space f ++ table_body f ++ trail_space f.

Definition source_text (f : font_file) : bytes :=
  preamble f ++ FONT_SECTION ++ font_name f ++ FONT_ASSIGN ++ table_text f
  ++ next_fonts f.

Definition is_line_end (e : bytes) : bool :=
  bool_decide (e = [LF]) || bool_decide (e = [CR; LF]).

Definition font_file_ok (f : font_file) : bool :=
  occurs_nowhere FONT_SECTION (preamble f)
  && occurs_nowhere FONT_SECTION (font_name f ++ FONT_ASSIGN ++ table_text f)
  && occurs_nowhere FONT_ASSIGN (font_name f)
  && occurs_nowhere FONT_ASSIGN (table_text f)
  && (bool_decide (next_fonts f = []) || startswith FONT_SECTION (next_fonts f))
  && forallb bytes_isspace (lead_space f)
  && forallb bytes_isspace (trail_space f)
  && tight (table_body f)
  && forallb line_ok (table_lines f)
  && forallb (fun el => is_line_end (fst el)) (more_lines f).

(** The values that the literals of the table stand for, line after
    line. *)
Definition table_values (f : font_file) : list Z :=
  flat_map line_values (table_lines f).

(** The first byte of a marker occurs only there. *)
Definition head_once (sep : bytes) : bool :=
  match sep with
  | a :: sep' => no_byte a sep'
  | [] => false
  end.

(** The sample table as a font source. *)
Definition sample_font_file : font_file :=
  {| preamble := txt "const uint8_t tiny[5]";
     font_name := txt "tiny";
     lead_space := [CR; LF; x20; x20];
     first_line := Literal [] [Octal_escape (txt "001"); Octal_escape (txt "042")] [];
     more_lines :=
       [([LF], Literal (txt "  ") [Hex_escape x30 x33; Letter_escape x6e] (txt ";"))];
     trail_space := [LF];
     next_fonts := [] |}.

(** A table whose first literal writes the byte 22 as an escaped double
    quote, and one whose first literal writes the question mark as the
    escape that C has for it. *)
Definition escaped_quote_source : bytes :=
  txt "const uint8_t tiny[5] U8G2_FONT_SECTION(" ++ [QUOTE] ++ txt "tiny" ++ [QUOTE]
  ++ txt ") =" ++ [LF]
  ++ txt "  " ++ [QUOTE] ++ txt "\001\" ++ [QUOTE] ++ [QUOTE] ++ [LF]
  ++ txt "  " ++ [QUOTE] ++ txt "\x03\n" ++ [QUOTE] ++ txt ";" ++ [LF].

Definition escaped_question_source : bytes :=
  txt "const uint8_t tiny[5] U8G2_FONT_SECTION(" ++ [QUOTE] ++ txt "tiny" ++ [QUOTE]
  ++ txt ") =" ++ [LF]
  ++ txt "  " ++ [QUOTE] ++ txt "\001\?" ++ [QUOTE] ++ [LF]
  ++ txt "  " ++ [QUOTE] ++ txt "\x03\n" ++ [QUOTE] ++ txt ";" ++ [LF].

Definition font_world (source : bytes) : world :=
  world_of
    [ ([txt "Fonts"], Dir);
      ([txt "Fonts"; txt "tiny.c"], File source) ].

(** *** Notions for the packers and the file system *)






(** Every entry of [w] is in [w'] as it was. *)
Definition extends (w w' : world) : Prop :=
  forall q n, files w !! q = Some n -> files w' !! q = Some n.





#[export] Instance node_eq_decision : EqDecision node.
Proof. solve_decision. Defined.




(** * Properties *)

(** ** Bytes and integers *)

Lemma len_nonneg {A} (s : list A) : 0 <= len s.
Proof. unfold len. lia. Qed.

Lemma len_app {A} (s t : list A) : len (s ++ t) = len s + len t.
Proof. unfold len. rewrite length_app. lia. Qed.

Lemma len_cons {A} (x : A) (s : list A) : len (x :: s) = 1 + len s.
Proof. unfold len. cbn [length]. lia. Qed.

Lemma b2z_range (b : byte) : 0 <= b2z b < 256.
Proof.
  unfold b2z. pose proof (Byte.to_N_bounded b). lia.
Qed.

Lemma b2z_z2b (z : Z) : b2z (z2b z) = z mod 256.
Proof.
  unfold b2z, z2b.
  pose proof (Z.mod_pos_bound z 256 eq_refl) as Hr.
  destruct (Byte.of_N (Z.to_N (z mod 256))) as [b|] eqn:E.
  - apply Byte.to_of_N in E. rewrite E. lia.
  - pose proof (Byte.to_of_N_option_map (Z.to_N (z mod 256))) as Hm.
    rewrite E in Hm. cbn in Hm.
    destruct (N.leb_spec (Z.to_N (z mod 256)) 255); [discriminate | lia].
Qed.

Lemma z2b_b2z (b : byte) : z2b (b2z b) = b.
Proof.
  unfold z2b, b2z. pose proof (Byte.to_N_bounded b).
  rewrite Z.mod_small by lia. rewrite N2Z.id, Byte.of_to_N. reflexivity.
Qed.

Lemma b2z_inj (a b : byte) : b2z a = b2z b -> a = b.
Proof. intros E. rewrite <- (z2b_b2z a), <- (z2b_b2z b), E. reflexivity. Qed.

Lemma byte_eqb_eq (a b : byte) : Byte.eqb a b = true <-> a = b.
Proof. split; [apply Byte.byte_dec_bl | apply Byte.byte_dec_lb]. Qed.

Lemma byte_eqb_refl (a : byte) : Byte.eqb a a = true.
Proof. apply byte_eqb_eq. reflexivity. Qed.

Lemma byte_eqb_neq (a b : byte) : Byte.eqb a b = false <-> a <> b.
Proof.
  split.
  - intros E ->. rewrite byte_eqb_refl in E. discriminate.
  - intros N. destruct (Byte.eqb a b) eqn:E; [|reflexivity].
    apply byte_eqb_eq in E. contradiction.
Qed.

(** ** The length prefix of [convert_to_bm] *)

Lemma length_prefix_fits (n : Z) :
  0 <= n < 65536 -> length_prefix n = Ok (u16le n).
Proof.
  intros Hn. unfold length_prefix, u16le, bytearray.
  change 255 with (Z.ones 8). rewrite Z.land_ones, Z.shiftr_div_pow2 by lia.
  change (2 ^ 8) with 256.
  pose proof (Z.mod_pos_bound n 256 eq_refl).
  assert (0 <= n / 256 < 256) by (split; [apply Z.div_pos | apply Z.div_lt_upper_bound]; lia).
  repeat match goal with
  | |- context [(?a <=? ?b) && (?c <? ?d)] =>
      replace ((a <=? b) && (c <? d)) with true by (symmetry; apply andb_true_iff; lia)
  end.
  reflexivity.
Qed.

Lemma length_prefix_overflows (n : Z) :
  65536 <= n -> 255 < Z.shiftr n 8 /\ length_prefix n = Raise ValueError.
Proof.
  intros Hn.
  assert (Hhi : 255 < Z.shiftr n 8).
  { rewrite Z.shiftr_div_pow2 by lia. change (2 ^ 8) with 256.
    assert (256 <= n / 256) by (apply Z.div_le_lower_bound; lia). lia. }
  split; [exact Hhi|].
  unfold length_prefix, bytearray.
  replace ((0 <=? Z.shiftr n 8) && (Z.shiftr n 8 <? 256)) with false
    by (symmetry; apply andb_false_iff; right; lia).
  destruct ((0 <=? Z.land n 255) && (Z.land n 255 <? 256)); reflexivity.
Qed.

Lemma u16le_value (n : Z) :
  0 <= n < 65536 ->
  exists lo hi, u16le n = [lo; hi] /\ b2z lo + 256 * b2z hi = n.
Proof.
  intros Hn. exists (z2b (n mod 256)), (z2b (n / 256)). split; [reflexivity|].
  rewrite !b2z_z2b, Z.mod_mod by lia.
  assert (0 <= n / 256 < 256) by (split; [apply Z.div_pos | apply Z.div_lt_upper_bound]; lia).
  rewrite (Z.mod_small (n / 256)) by lia.
  pose proof (Z.div_mod n 256). lia.
Qed.

(** ** The framing of [convert_to_bm] *)

Section Framing.
Context `{HS : Heatshrink2}.

Lemma frame_bm_cases (raw : bytes) :
  frame_bm raw =
    if 65536 <=? len (compress raw 8 4) then Raise ValueError
    else if 4 + len (compress raw 8 4) <? 1 + len raw
         then Ok ([x01; x00] ++ u16le (len (compress raw 8 4)) ++ compress raw 8 4)
         else Ok ([x00] ++ raw).
Proof.
  unfold frame_bm. fold (length_prefix (len (compress raw 8 4))).
  pose proof (len_nonneg (compress raw 8 4)) as Hc.
  destruct (Z.leb_spec 65536 (len (compress raw 8 4))) as [Hbig|Hsmall].
  - destruct (length_prefix_overflows _ Hbig) as [_ ->]. reflexivity.
  - rewrite length_prefix_fits by lia. cbn [rbind].
    rewrite len_app. change (len (u16le _)) with 2.
    replace (2 + len (compress raw 8 4) + 2) with (4 + len (compress raw 8 4)) by lia.
    replace (len raw + 1) with (1 + len raw) by lia.
    reflexivity.
Qed.

Lemma convert_to_bm_cases (img : PIL.Image) (raw : bytes) :
  data_bin_of img = Ok raw -> convert_to_bm img = frame_bm raw.
Proof. intros E. unfold convert_to_bm. rewrite E. reflexivity. Qed.

Lemma convert_to_bm_data (img : PIL.Image) (out : bytes) :
  convert_to_bm img = Ok out -> exists raw, data_bin_of img = Ok raw.
Proof.
  unfold convert_to_bm. destruct (data_bin_of img) as [raw|e]; [eauto | discriminate].
Qed.

(** C1, as amended: the compressed variant is chosen exactly when the
    whole compressed output, the two flag bytes and the two length bytes
    included (4 bytes of framing), is shorter than the whole raw output
    (1 byte of framing); otherwise the raw variant is produced. *)
Theorem compressed_iff_shorter_output (img : PIL.Image) (raw out : bytes) :
  data_bin_of img = Ok raw ->
  convert_to_bm img = Ok out ->
  (compressed_flag out = true <-> 4 + len (compress raw 8 4) < 1 + len raw)
  /\ (4 + len (compress raw 8 4) < 1 + len raw ->
      out = [x01; x00] ++ u16le (len (compress raw 8 4)) ++ compress raw 8 4)
  /\ (~ 4 + len (compress raw 8 4) < 1 + len raw -> out = [x00] ++ raw).
Proof.
  intros Hraw Hout. rewrite (convert_to_bm_cases _ _ Hraw), frame_bm_cases in Hout.
  destruct (65536 <=? _); [discriminate|].
  destruct (Z.ltb_spec (4 + len (compress raw 8 4)) (1 + len raw)) as [Hlt|Hge];
    injection Hout as <-.
  - split; [|split]; [split; [lia | reflexivity] | reflexivity | lia].
  - split; [|split]; [split; [discriminate | lia] | lia | reflexivity].
Qed.

(** C4: an output is either the compressed framing, the flag pair 01 00,
    the little-endian 16-bit count of the compressed bytes alone and
    those bytes, or the raw framing, 00 and the packed bits; never both. *)
Theorem output_has_one_framing (img : PIL.Image) (out : bytes) :
  convert_to_bm img = Ok out ->
  exists raw, data_bin_of img = Ok raw /\
    let c := compress raw 8 4 in
    ((exists lo hi, out = [x01; x00] ++ [lo; hi] ++ c
                    /\ u16le (len c) = [lo; hi]
                    /\ b2z lo + 256 * b2z hi = len c)
     \/ out = [x00] ++ raw)
    /\ ~ ((exists lo hi, out = [x01; x00] ++ [lo; hi] ++ c) /\ out = [x00] ++ raw).
Proof.
  intros Hout. destruct (convert_to_bm_data _ _ Hout) as [raw Hraw].
  exists raw. split; [exact Hraw|]. cbv zeta.
  rewrite (convert_to_bm_cases _ _ Hraw), frame_bm_cases in Hout.
  pose proof (len_nonneg (compress raw 8 4)) as Hc.
  split.
  - destruct (Z.leb_spec 65536 (len (compress raw 8 4))); [discriminate|].
    destruct (_ <? _); injection Hout as <-; [left | right; reflexivity].
    destruct (u16le_value (len (compress raw 8 4))) as (lo & hi & E & V); [lia|].
    exists lo, hi. split; [rewrite <- E; reflexivity | auto].
  - intros [(lo & hi & E1) E2]. rewrite E1 in E2. discriminate.
Qed.

(** C10: the two-byte prefix holds the compressed length when that
    length is at most 65535; from 65536 on the second item of the prefix
    exceeds 255 and the conversion raises [ValueError]. *)
Theorem length_prefix_limit (img : PIL.Image) (raw : bytes) :
  data_bin_of img = Ok raw ->
  let n := len (compress raw 8 4) in
  (n <= 65535 ->
     exists lo hi, length_prefix n = Ok [lo; hi] /\ b2z lo + 256 * b2z hi = n
       /\ (convert_to_bm img = Ok ([x01; x00] ++ [lo; hi] ++ compress raw 8 4)
           \/ convert_to_bm img = Ok ([x00] ++ raw)))
  /\ (65536 <= n ->
        255 < Z.shiftr n 8 /\ length_prefix n = Raise ValueError
        /\ convert_to_bm img = Raise ValueError).
Proof.
  intros Hraw n. subst n.
  pose proof (len_nonneg (compress raw 8 4)) as Hc.
  rewrite (convert_to_bm_cases _ _ Hraw), frame_bm_cases.
  split.
  - intros Hn.
    destruct (u16le_value (len (compress raw 8 4))) as (lo & hi & E & V); [lia|].
    exists lo, hi. rewrite length_prefix_fits, E by lia.
    split; [reflexivity | split; [exact V|]].
    destruct (Z.leb_spec 65536 (len (compress raw 8 4))); [lia|].
    destruct (_ <? _); auto.
  - intros Hn. destruct (length_prefix_overflows _ Hn) as [Hhi E].
    split; [exact Hhi | split; [exact E|]].
    destruct (Z.leb_spec 65536 (len (compress raw 8 4))); [reflexivity | lia].
Qed.

(** C3: the branch of [recover_png_from_bm] depends on the first two
    bytes alone. On 01 00 the four leading bytes are dropped and the rest
    is decompressed with window 2^8 = 256 and lookahead 2^4 = 16, the
    constants of [convert_to_bm]; otherwise exactly one byte is dropped
    and the rest is the packed bits. *)
Theorem branch_from_first_two_bytes (bm : bytes) (width height : Z) :
  (firstn 2 bm = [x01; x00] ->
     data_dec_of bm = decompress (skipn 4 bm) 8 4)
  /\ (firstn 2 bm <> [x01; x00] -> data_dec_of bm = Ok (skipn 1 bm))
  /\ (forall bm', firstn 2 bm' = firstn 2 bm ->
        compressed_flag bm' = compressed_flag bm)
  /\ recover_png_from_bm bm width height =
       rbind (if compressed_flag bm then decompress (skipn 4 bm) 8 4
              else Ok (skipn 1 bm))
         (fun data_dec => rbind (PIL.new width height)
            (fun img => PIL.putdata img (unpack_pixels data_dec)))
  /\ (forall raw, compressed_flag (x01 :: x00 :: raw) = true
        /\ compressed_flag (x00 :: raw) = false)
  /\ 2 ^ 8 = 256 /\ 2 ^ 4 = 16.
Proof.
  assert (Hflag : forall b : bytes, compressed_flag b = true <-> firstn 2 b = [x01; x00]).
  { intros b. unfold compressed_flag.
    destruct b as [|b0 [|b1 b]]; cbn [startswith firstn].
    - split; discriminate.
    - split; [|discriminate].
      intros E. destruct (Byte.eqb x01 b0); discriminate.
    - rewrite !andb_true_iff, !byte_eqb_eq.
      split; [intros (<- & <- & _); reflexivity|].
      intros E; injection E as <- <-; auto. }
  split; [|split; [|split; [|split; [|split]]]].
  - intros E. apply Hflag in E. unfold data_dec_of, slice_from.
    unfold compressed_flag in E. rewrite E. reflexivity.
  - intros N. unfold data_dec_of, slice_from.
    destruct (startswith [x01; x00] bm) eqn:E; [|reflexivity].
    apply Hflag in E. contradiction.
  - intros bm' E.
    destruct (compressed_flag bm) eqn:F.
    + apply Hflag. rewrite E. apply Hflag. exact F.
    + destruct (compressed_flag bm') eqn:F'; [|reflexivity].
      apply Hflag in F'. rewrite E in F'. apply Hflag in F'. congruence.
  - reflexivity.
  - intros raw. split; reflexivity.
  - split; reflexivity.
Qed.
End Framing.

(** An 8 by 7 black raster packs to seven bytes FF, which heatshrink
    compresses to three: the compressed output (7 bytes) is shorter than
    the raw one (8 bytes). *)
Lemma compressed_iff_shorter_output_witness :
  data_bin_of (solid 8 7 false) = Ok (List.repeat xff 7)
  /\ convert_to_bm (solid 8 7 false) = Ok [x01; x00; x03; x00; xff; x80; x14]
  /\ ((compressed_flag [x01; x00; x03; x00; xff; x80; x14] = true
       <-> 4 + len (compress (List.repeat xff 7) 8 4) < 1 + len (List.repeat xff 7))
      /\ (4 + len (compress (List.repeat xff 7) 8 4) < 1 + len (List.repeat xff 7) ->
          [x01; x00; x03; x00; xff; x80; x14]
          = [x01; x00] ++ u16le (len (compress (List.repeat xff 7) 8 4))
              ++ compress (List.repeat xff 7) 8 4)
      /\ (~ 4 + len (compress (List.repeat xff 7) 8 4) < 1 + len (List.repeat xff 7) ->
          [x01; x00; x03; x00; xff; x80; x14] = [x00] ++ List.repeat xff 7)).
Proof.
  split; [vm_compute; reflexivity|].
  split; [vm_compute; reflexivity|].
  apply (compressed_iff_shorter_output (solid 8 7 false)); vm_compute; reflexivity.
Defined.

(** C1 as stated fails on an 8 by 6 black raster: its six packed bytes FF
    compress to the three bytes FF 80 10, so that 3 + 3 < 1 + 6, and yet the
    raw variant is produced, because the compressed output would be as long
    as the raw one (7 bytes). *)
Lemma compressed_iff_3_plus_counterexample :
  data_bin_of (solid 8 6 false) = Ok (List.repeat xff 6)
  /\ compress (List.repeat xff 6) 8 4 = [xff; x80; x10]
  /\ 3 + len (compress (List.repeat xff 6) 8 4) < 1 + len (List.repeat xff 6)
  /\ convert_to_bm (solid 8 6 false) = Ok ([x00] ++ List.repeat xff 6)
  /\ ~ (compressed_flag ([x00] ++ List.repeat xff 6) = true
        <-> 3 + len (compress (List.repeat xff 6) 8 4) < 1 + len (List.repeat xff 6)).
Proof.
  split; [vm_compute; reflexivity|].
  split; [vm_compute; reflexivity|].
  split; [vm_compute; reflexivity|].
  split; [vm_compute; reflexivity|].
  intros [_ Himp].
  assert (E : compressed_flag ([x00] ++ List.repeat xff 6) = true)
    by (apply Himp; vm_compute; reflexivity).
  vm_compute in E. discriminate E.
Qed.

(** An 8 by 7 black raster comes out in the compressed framing. *)
Lemma output_has_one_framing_witness :
  convert_to_bm (solid 8 7 false) = Ok [x01; x00; x03; x00; xff; x80; x14]
  /\ exists raw, data_bin_of (solid 8 7 false) = Ok raw /\
       ((exists lo hi, [x01; x00; x03; x00; xff; x80; x14]
                       = [x01; x00] ++ [lo; hi] ++ compress raw 8 4
                       /\ u16le (len (compress raw 8 4)) = [lo; hi]
                       /\ b2z lo + 256 * b2z hi = len (compress raw 8 4))
        \/ [x01; x00; x03; x00; xff; x80; x14] = [x00] ++ raw)
       /\ ~ ((exists lo hi, [x01; x00; x03; x00; xff; x80; x14]
                            = [x01; x00] ++ [lo; hi] ++ compress raw 8 4)
             /\ [x01; x00; x03; x00; xff; x80; x14] = [x00] ++ raw).
Proof.
  split; [vm_compute; reflexivity|].
  apply (output_has_one_framing (solid 8 7 false)). vm_compute. reflexivity.
Defined.


(** ** The monad and the file system *)


Lemma run_result {A} (m : M A) (w : world) (r : result A) :
  snd (m w) = r -> m w = (fst (m w), r).
Proof. intros <-. destruct (m w); reflexivity. Qed.

Lemma bind_raise {A B} (m : M A) (k : A -> M B) (w w' : world) (e : exn) :
  m w = (w', Raise e) -> bind m k w = (w', Raise e).
Proof. intros E. unfold bind. rewrite E. reflexivity. Qed.

(** An invariant of a loop: [I] relates the world and the loop state after
    every completed iteration, [E] holds of the world when an iteration
    raises. *)
Lemma for_each_invariant {A S} (I : world -> S -> Prop) (E : world -> Prop)
    (xs : list A) (body : S -> A -> M S) :
  (forall s x w, x ∈ xs -> I w s ->
     match body s x w with
     | (w', Ok s') => I w' s'
     | (w', Raise _) => E w'
     end) ->
  forall s w, I w s ->
    match for_each xs body s w with
    | (w', Ok s') => I w' s'
    | (w', Raise _) => E w'
    end.
Proof.
  induction xs as [|x xs IH]; intros Hbody s w HI.
  - exact HI.
  - cbn [for_each]. unfold bind.
    pose proof (Hbody s x w (list_elem_of_here _ _) HI) as Hx.
    destruct (body s x w) as [w1 [s1|e]]; [|exact Hx].
    apply IH; [|exact Hx].
    intros s' y w' Hy. apply Hbody. apply list_elem_of_further. exact Hy.
Qed.

Lemma set_node_lookup (p q : path) (n : node) (w : world) :
  files (Path.set_node p n w) !! q = if decide (p = q) then Some n else files w !! q.
Proof. unfold Path.set_node. cbn. apply lookup_insert. Qed.

Lemma node_at_lookup (fs : gmap path node) (p : path) :
  p <> [] -> Path.node_at fs p = fs !! p.
Proof. destruct p; [contradiction | reflexivity]. Qed.

Lemma child_not_root (p : path) (nm : bytes) : p </> nm <> [].
Proof. unfold Path.child. destruct p; discriminate. Qed.


Lemma child_neq_parent (p : path) (nm : bytes) : p </> nm <> p.
Proof.
  unfold Path.child. intros E. apply (f_equal (@length bytes)) in E.
  rewrite length_app in E. cbn in E. lia.
Qed.

Lemma parent_child (p : path) (nm : bytes) : Path.parent (p </> nm) = p.
Proof. unfold Path.parent, Path.child. apply removelast_last. Qed.

Lemma name_child (p : path) (nm : bytes) : Path.name (p </> nm) = nm.
Proof. unfold Path.name, Path.child. apply last_last. Qed.

(** [write_bytes] sets its path, or raises and changes nothing. *)
Lemma write_bytes_effect (p : path) (data : bytes) (w : world) :
  (Path.write_bytes p data w = (Path.set_node p (File data) w, Ok tt)
   /\ Path.node_at (files w) (Path.parent p) = Some Dir
   /\ Path.node_at (files w) p <> Some Dir /\ p <> [])
  \/ (exists e, Path.write_bytes p data w = (w, Raise e)).
Proof.
  unfold Path.write_bytes. destruct p as [|c p]; [right; eauto|].
  destruct (Path.node_at (files w) (Path.parent (c :: p))) as [[d|]|] eqn:Ep;
    [right; eauto | | right; eauto].
  destruct (Path.node_at (files w) (c :: p)) as [[d|]|] eqn:En;
    [left | right; eauto | left]; repeat split; congruence.
Qed.

Lemma write_bytes_other (p q : path) (data : bytes) (w : world) :
  p <> q -> unchanged_at q w (fst (Path.write_bytes p data w)).
Proof.
  intros N. unfold unchanged_at.
  destruct (write_bytes_effect p data w) as [(-> & _)|(e & ->)]; cbn [fst];
    [|reflexivity].
  rewrite set_node_lookup. destruct (decide (p = q)); [contradiction | reflexivity].
Qed.

Lemma write_bytes_console (p : path) (data : bytes) (w : world) :
  console (fst (Path.write_bytes p data w)) = console w.
Proof.
  destruct (write_bytes_effect p data w) as [(-> & _)|(e & ->)]; reflexivity.
Qed.

Lemma read_bytes_world (p : path) (w : world) : fst (Path.read_bytes p w) = w.
Proof.
  unfold Path.read_bytes. destruct (Path.node_at (files w) p) as [[d|]|]; reflexivity.
Qed.

Lemma read_bytes_ok (p : path) (w w' : world) (data : bytes) :
  Path.read_bytes p w = (w', Ok data) ->
  w' = w /\ Path.node_at (files w) p = Some (File data).
Proof.
  unfold Path.read_bytes. destruct (Path.node_at (files w) p) as [[d|]|];
    intros E; inversion E; subst; auto.
Qed.

Lemma copyfile_other (src dst q : path) (w : world) :
  dst <> q -> unchanged_at q w (fst (Path.copyfile src dst w)).
Proof.
  intros N. unfold Path.copyfile. case_bool_decide; [reflexivity|].
  unfold bind. destruct (Path.read_bytes src w) as [w1 [d|e]] eqn:E.
  - apply read_bytes_ok in E as [-> _]. apply write_bytes_other. exact N.
  - pose proof (read_bytes_world src w) as Hw. rewrite E in Hw. cbn in Hw.
    subst w1. reflexivity.
Qed.

Lemma only_adds_dirs_refl (w : world) : only_adds_dirs w w.
Proof. split; auto. Qed.

Lemma only_adds_dirs_trans (w1 w2 w3 : world) :
  only_adds_dirs w1 w2 -> only_adds_dirs w2 w3 -> only_adds_dirs w1 w3.
Proof.
  intros [C1 H1] [C2 H2]. split; [congruence|].
  intros q. destruct (H1 q) as [E1|[E1 E1']], (H2 q) as [E2|[E2 E2']].
  - left. congruence.
  - right. split; congruence.
  - right. split; congruence.
  - congruence.
Qed.

Lemma mkdir_from_adds (rest base : path) (w : world) :
  only_adds_dirs w (fst (Path.mkdir_from base rest w)).
Proof.
  revert base w. induction rest as [|c rest IH]; intros base w.
  - apply only_adds_dirs_refl.
  - cbn [Path.mkdir_from].
    destruct (Path.node_at (files w) (base ++ [c])) as [[d|]|] eqn:E.
    + apply only_adds_dirs_refl.
    + apply IH.
    + eapply only_adds_dirs_trans; [|apply IH].
      split; [reflexivity|]. intros q. rewrite set_node_lookup.
      destruct (decide (base ++ [c] = q)) as [<-|]; [right|left; reflexivity].
      rewrite node_at_lookup in E by (destruct base; discriminate). auto.
Qed.

Lemma mkdir_adds (p : path) (w : world) :
  only_adds_dirs w (fst (Path.mkdir p w)).
Proof. apply mkdir_from_adds. Qed.

Lemma only_adds_dirs_file (w w' : world) (q : path) (data : bytes) :
  only_adds_dirs w w' ->
  files w' !! q = Some (File data) <-> files w !! q = Some (File data).
Proof.
  intros [_ H]. destruct (H q) as [E|[E E']]; rewrite ?E, ?E'; [reflexivity|].
  split; discriminate.
Qed.


(** After a successful [mkdir] the path is a directory. *)
Lemma mkdir_from_is_dir (rest base : path) (w w' : world) :
  Path.node_at (files w) base = Some Dir ->
  Path.mkdir_from base rest w = (w', Ok tt) ->
  Path.node_at (files w') (base ++ rest) = Some Dir.
Proof.
  revert base w. induction rest as [|c rest IH]; intros base w Hbase E.
  - cbn in E. injection E as <-. rewrite app_nil_r. exact Hbase.
  - cbn [Path.mkdir_from] in E.
    replace (base ++ c :: rest) with ((base ++ [c]) ++ rest)
      by (rewrite <- app_assoc; reflexivity).
    destruct (Path.node_at (files w) (base ++ [c])) as [[d|]|] eqn:En.
    + discriminate.
    + eapply IH; eauto.
    + eapply IH; [|exact E].
      rewrite node_at_lookup by (destruct base; discriminate).
      rewrite set_node_lookup. rewrite decide_True by reflexivity. reflexivity.
Qed.

Lemma mkdir_is_dir (p : path) (w w' : world) :
  Path.mkdir p w = (w', Ok tt) -> Path.node_at (files w') p = Some Dir.
Proof. intros E. apply (mkdir_from_is_dir p [] w w'); [reflexivity | exact E]. Qed.

(** ** [create_asset_pack] and the names it accepts *)

Lemma name_chars_then_dollar_spec (s : bytes) :
  name_chars_then_dollar s = true <->
  exists body, forallb name_char body = true /\ (s = body \/ s = body ++ [LF]).
Proof.
  induction s as [|c s IH].
  - split; [intros _; exists []; auto | reflexivity].
  - cbn [name_chars_then_dollar]. rewrite orb_true_iff, andb_true_iff, IH. split.
    + intros [Hd|[Hc (body & Hb & Hs)]].
      * destruct s as [|d s]; [|discriminate]. cbn in Hd.
        apply byte_eqb_eq in Hd. subst c. exists []. auto.
      * exists (c :: body). cbn [forallb]. rewrite Hc, Hb.
        split; [reflexivity|]. destruct Hs as [->| ->]; auto.
    + intros (body & Hb & Hs). destruct body as [|b body].
      * destruct Hs as [Hs|Hs]; [discriminate|]. cbn in Hs. injection Hs as -> ->.
        left. reflexivity.
      * right. cbn [forallb] in Hb. apply andb_true_iff in Hb as [Hb1 Hb2].
        assert (c = b) as -> by (destruct Hs as [Hs|Hs]; cbn in Hs; congruence).
        split; [exact Hb1|]. exists body. split; [exact Hb2|].
        destruct Hs as [Hs|Hs]; cbn in Hs; injection Hs as ->; auto.
Qed.

(** The names that pass the check of line 395: a non-empty run of allowed
    characters, or such a run followed by one line feed. *)
Lemma name_re_match_spec (name : bytes) :
  name_re_match name = true <->
  exists body, body <> [] /\ forallb name_char body = true
               /\ (name = body \/ name = body ++ [LF]).
Proof.
  destruct name as [|c s]; cbn [name_re_match].
  - split; [discriminate|]. intros (body & Hne & _ & [E|E]).
    + congruence.
    + destruct body; discriminate.
  - rewrite andb_true_iff, name_chars_then_dollar_spec. split.
    + intros [Hc (body & Hb & Hs)]. exists (c :: body). cbn [forallb].
      rewrite Hc, Hb. split; [discriminate|]. split; [reflexivity|].
      destruct Hs as [->| ->]; auto.
    + intros (body & Hne & Hb & Hs). destruct body as [|b body]; [congruence|].
      cbn [forallb] in Hb. apply andb_true_iff in Hb as [Hb1 Hb2].
      assert (c = b) as -> by (destruct Hs as [Hs|Hs]; cbn in Hs; congruence).
      split; [exact Hb1|]. exists body. split; [exact Hb2|].
      destruct Hs as [Hs|Hs]; cbn in Hs; injection Hs as ->; auto.
Qed.

(** A rejected name is reported and nothing else happens. *)
Lemma create_asset_pack_rejected (name : bytes) (output_directory : path) (w : world) :
  name_re_match name = false ->
  create_asset_pack name output_directory w
  = ({| files := files w; console := console w ++ [IllegalCharacters name] |}, Ok tt).
Proof. intros E. unfold create_asset_pack. rewrite E. reflexivity. Qed.

(** A name with a character outside the class that is not a line feed, a
    slash or a colon for instance, is rejected before any change to the
    file system. *)
Lemma create_asset_pack_rejects_illegal (name : bytes) (c : byte)
    (output_directory : path) (w : world) :
  c ∈ name -> name_char c = false -> c <> LF ->
  create_asset_pack name output_directory w
  = ({| files := files w; console := console w ++ [IllegalCharacters name] |}, Ok tt).
Proof.
  intros Hin Hc Hlf. apply create_asset_pack_rejected.
  destruct (name_re_match name) eqn:E; [|reflexivity].
  apply name_re_match_spec in E as (body & _ & Hb & Hs).
  rewrite forallb_forall in Hb.
  assert (c ∈ body) as Hcb.
  { destruct Hs as [->| ->]; [exact Hin|].
    apply elem_of_app in Hin as [Hin|Hin]; [exact Hin|].
    apply list_elem_of_singleton in Hin. contradiction. }
  apply list_elem_of_In in Hcb. apply Hb in Hcb. congruence.
Qed.

(** C8 at a failing input: the name "a" followed by a line feed holds a
    character outside the class, yet line 395 accepts it ([$] matches
    before a final line feed) and the directories and files of the pack
    are created. *)
Theorem create_asset_pack_accepts_final_newline :
  existsb (fun c => negb (name_char c)) (txt "a" ++ [LF]) = true
  /\ name_re_match (txt "a" ++ [LF]) = true
  /\ snd (create_asset_pack (txt "a" ++ [LF]) [] empty_world) = Ok tt
  /\ console (fst (create_asset_pack (txt "a" ++ [LF]) [] empty_world))
     = [Created (txt "a" ++ [LF]) []]
  /\ files (fst (create_asset_pack (txt "a" ++ [LF]) [] empty_world))
       !! [txt "a" ++ [LF]] = Some Dir
  /\ files (fst (create_asset_pack (txt "a" ++ [LF]) [] empty_world))
       !! [txt "a" ++ [LF]; txt "Anims"; txt "manifest.txt"]
     = Some (File EXAMPLE_MANIFEST).
Proof. repeat split; vm_compute; reflexivity. Qed.

(** ** Effects of the packers' steps *)

Lemma read_only_ret {A} (a : A) : read_only (ret a).
Proof. intros w. reflexivity. Qed.

Lemma read_only_lift {A} (r : result A) : read_only (lift r).
Proof. intros w. reflexivity. Qed.

Lemma read_only_bind {A B} (m : M A) (k : A -> M B) :
  read_only m -> (forall a, read_only (k a)) -> read_only (bind m k).
Proof.
  intros Hm Hk w. unfold bind. specialize (Hm w).
  destruct (m w) as [w1 [a|e]]; cbn in Hm; subst w1; [apply Hk | reflexivity].
Qed.

Lemma read_only_read_bytes (p : path) : read_only (Path.read_bytes p).
Proof. intros w. apply read_bytes_world. Qed.

Lemma read_only_is_file (p : path) : read_only (Path.is_file p).
Proof. intros w. reflexivity. Qed.

Lemma read_only_read_text (p : path) : read_only (Path.read_text p).
Proof.
  apply read_only_bind; [apply read_only_read_bytes|].
  intros data. destruct (forallb _ data); [apply read_only_ret | apply read_only_lift].
Qed.

Create HintDb packer.
#[export] Hint Resolve read_only_ret read_only_lift read_only_read_bytes
  read_only_is_file read_only_read_text : packer.

Section PackerEffects.
Context `{HS : Heatshrink2} `{DEC : PIL.Decoder}.

Lemma read_only_open_image (p : path) : read_only (open_image p).
Proof. apply read_only_bind; auto with packer. Qed.

Lemma read_only_convert_to_bm_at (p : path) : read_only (convert_to_bm_at p).
Proof.
  apply read_only_bind; [apply read_only_open_image | auto with packer].
Qed.


Lemma read_only_first_size (sz : option (Z * Z)) (p : path) :
  read_only (first_size sz p).
Proof.
  destruct sz; [apply read_only_ret|].
  apply read_only_bind; [apply read_only_open_image | auto with packer].
Qed.

Lemma ro_result {A} (m : M A) (w w' : world) (r : result A) :
  read_only m -> m w = (w', r) -> w' = w.
Proof. intros Hm E. specialize (Hm w). rewrite E in Hm. exact Hm. Qed.

(** An iteration of [pack_icon_animated] writes below [dst] only. *)
Lemma pack_icon_frame_writes (dst : path) (listed : list path) (st : scan)
    (frame q : path) (w : world) :
  (forall nm, q <> dst </> nm) ->
  unchanged_at q w (fst (pack_icon_frame dst listed st frame w)).
Proof.
  intros Hq. unfold pack_icon_frame, bind, Path.is_file. cbn beta iota.
  destruct (Path.is_file_in (files w) frame); cbn [negb]; [|reflexivity].
  case_bool_decide.
  { destruct (Path.read_text frame w) as [w1 [t|e]] eqn:E;
      apply (ro_result _ _ _ _ (read_only_read_text frame)) in E; subst w1;
      [|reflexivity].
    unfold lift. destruct (int_of_text _); reflexivity. }
  case_bool_decide.
  { pose proof (copyfile_other frame (dst </> Path.name frame) q w
                  (fun E => Hq _ (eq_sym E))) as Hc.
    destruct (Path.copyfile _ _ w) as [w1 [[]|e]]; exact Hc. }
  case_bool_decide.
  { destruct (first_size (size st) frame w) as [w1 [sz|e]] eqn:E;
      apply (ro_result _ _ _ _ (read_only_first_size _ frame)) in E; subst w1;
      [|reflexivity].
    destruct (convert_to_bm_at frame w) as [w1 [d|e]] eqn:E;
      apply (ro_result _ _ _ _ (read_only_convert_to_bm_at frame)) in E; subst w1;
      [|reflexivity].
    pose proof (write_bytes_other
                  (dst </> (txt "frame_" ++ format_02 (frame_count st) ++ txt ".bm"))
                  q d w (fun E => Hq _ (eq_sym E))) as Hw.
    destruct (Path.write_bytes _ d w) as [w1 [[]|e]]; exact Hw. }
  case_bool_decide; [|reflexivity].
  unfold lift. destruct (Path.with_suffix frame (txt ".png")) as [png|e]; [|reflexivity].
  destruct (negb _); [|reflexivity].
  pose proof (copyfile_other frame
                (dst </> (txt "frame_" ++ format_02 (frame_count st) ++ txt ".bm"))
                q w (fun E => Hq _ (eq_sym E))) as Hc.
  destruct (Path.copyfile _ _ w) as [w1 [[]|e]]; exact Hc.
Qed.

(** The [size] field of the scan changes only at a [.png] file met while
    no size is known, and becomes the size of that image. *)
Lemma pack_icon_frame_size (dst : path) (listed : list path) (st st' : scan)
    (frame : path) (w w' : world) :
  pack_icon_frame dst listed st frame w = (w', Ok st') ->
  size st' = size st
  \/ (Path.suffix (Path.name frame) = txt ".png"
      /\ Path.is_file_in (files w) frame = true
      /\ size st = None
      /\ exists img, open_image frame w = (w, Ok img)
                     /\ size st' = Some (PIL.size img)).
Proof.
  unfold pack_icon_frame, bind, Path.is_file. cbn beta iota.
  destruct (Path.is_file_in (files w) frame) eqn:Hf; cbn [negb];
    [|intros [= <- <-]; auto].
  case_bool_decide.
  { destruct (Path.read_text frame w) as [w1 [t|e]]; [|discriminate].
    unfold lift. destruct (int_of_text _); [|discriminate].
    intros [= <- <-]. auto. }
  case_bool_decide.
  { destruct (Path.copyfile _ _ w) as [w1 [[]|e]]; [|discriminate].
    intros [= <- <-]. auto. }
  case_bool_decide.
  { destruct (first_size (size st) frame w) as [w1 [sz|e]] eqn:E; [|discriminate].
    destruct (convert_to_bm_at frame w1) as [w2 [d|e]]; [|discriminate].
    destruct (Path.write_bytes _ d w2) as [w3 [[]|e]]; [|discriminate].
    intros [= <- <-]. cbn [size].
    unfold first_size in E. destruct (size st) as [sz0|] eqn:Es.
    - injection E as <- <-. auto.
    - right. unfold bind in E.
      destruct (open_image frame w) as [w4 [img|e]] eqn:Eo; [|discriminate].
      pose proof (ro_result _ _ _ _ (read_only_open_image frame) Eo). subst w4.
      injection E as <- <-. eauto 10. }
  case_bool_decide; [|intros [= <- <-]; auto].
  unfold lift. destruct (Path.with_suffix frame (txt ".png")) as [png|e]; [|discriminate].
  destruct (negb _); [|intros [= <- <-]; auto].
  destruct (Path.copyfile _ _ w) as [w1 [[]|e]]; [|discriminate].
  intros [= <- <-]. auto.
Qed.
End PackerEffects.

(** ** Directory listings *)

Lemma elem_of_entries (fs : gmap path node) (p f : path) :
  f ∈ Path.entries fs p <-> f <> [] /\ Path.parent f = p /\ is_Some (fs !! f).
Proof.
  unfold Path.entries. rewrite list_elem_of_In, filter_In, <- list_elem_of_In.
  rewrite bool_decide_eq_true, list_elem_of_fmap. split.
  - intros [([f' n] & -> & Hin) [Hne Hp]]. apply elem_of_map_to_list in Hin.
    cbn in *. eauto.
  - intros (Hne & Hp & [n Hn]). split; [|auto].
    exists (f, n). split; [reflexivity|]. apply elem_of_map_to_list. exact Hn.
Qed.

Lemma is_file_in_spec (fs : gmap path node) (f : path) :
  Path.is_file_in fs f = true <-> f <> [] /\ exists data, fs !! f = Some (File data).
Proof.
  unfold Path.is_file_in, Path.node_at. destruct f as [|c f].
  - split; [discriminate | intros [N _]; contradiction].
  - destruct (fs !! (c :: f)) as [[d|]|]; split; try discriminate; eauto.
    + intros [_ [d E]]. discriminate.
    + intros [_ [d E]]. discriminate.
Qed.

Lemma elem_of_insert_by_name (p x : path) (l : list path) :
  x ∈ insert_by_name p l <-> x = p \/ x ∈ l.
Proof.
  induction l as [|q l IH]; cbn [insert_by_name].
  - rewrite list_elem_of_singleton, elem_of_nil. tauto.
  - destruct (name_le _ _); rewrite !elem_of_cons, ?IH; tauto.
Qed.

Lemma elem_of_sorted_by_name (x : path) (l : list path) :
  x ∈ sorted_by_name l <-> x ∈ l.
Proof.
  unfold sorted_by_name.
  assert (G : forall acc, x ∈ fold_left (fun acc p => insert_by_name p acc) l acc
                          <-> x ∈ l \/ x ∈ acc).
  { induction l as [|p l IH]; intros acc; cbn [fold_left].
    - rewrite elem_of_nil. tauto.
    - rewrite IH, elem_of_insert_by_name, elem_of_cons. tauto. }
  rewrite G, elem_of_nil. tauto.
Qed.

(** ** [pack_icon_animated]: when the header is written *)

Section IconHeader.
Context `{HS : Heatshrink2} `{DEC : PIL.Decoder}.

(** The scan never learns a size in a directory without [.png] files. *)
Lemma scan_without_png (src dst : path) (w w' : world) (st : scan) :
  png_frames (files w) src = [] ->
  scan_icon_frames src dst w = (w', Ok st) ->
  size st = None.
Proof.
  intros Hpng. unfold scan_icon_frames, bind.
  destruct (Path.iterdir src w) as [w1 [listed|e]] eqn:El; [|discriminate].
  assert (w1 = w /\ listed = Path.entries (files w) src) as [-> ->].
  { unfold Path.iterdir in El.
    destruct (Path.node_at (files w) src) as [[d|]|]; inversion El; auto. }
  cbn beta iota. intros E.
  pose proof (for_each_invariant (fun _ s => size s = None) (fun _ => True)
                (sorted_by_name (List.filter (Path.is_file_in (files w))
                                   (Path.entries (files w) src)))
                (pack_icon_frame dst (List.filter (Path.is_file_in (files w))
                                        (Path.entries (files w) src)))) as Hinv.
  cbn beta in Hinv. specialize (Hinv) with (s := initial_scan) (w := w).
  rewrite E in Hinv. apply Hinv; [|reflexivity].
  intros s x w0 Hx Hs.
  destruct (pack_icon_frame dst _ s x w0) as [w2 [s'|e]] eqn:Es; [|exact I].
  apply pack_icon_frame_size in Es as [Eq|(Hsuf & _)]; [congruence|].
  exfalso.
  apply elem_of_sorted_by_name, list_elem_of_In, filter_In in Hx as [Hx Hf].
  assert (x ∈ png_frames (files w) src) as Hin.
  { unfold png_frames. apply list_elem_of_In, filter_In. split; [exact Hx|].
    rewrite Hf. cbn. apply bool_decide_eq_true. exact Hsuf. }
  rewrite Hpng in Hin. apply elem_of_nil in Hin. exact Hin.
Qed.

Lemma png_frames_mkdir (src p : path) (w : world) :
  png_frames (files w) src = [] ->
  png_frames (files (fst (Path.mkdir p w))) src = [].
Proof.
  intros Hpng. pose proof (mkdir_adds p w) as Hadd.
  destruct (png_frames (files (fst (Path.mkdir p w))) src) as [|f l] eqn:E;
    [reflexivity|exfalso].
  assert (f ∈ png_frames (files (fst (Path.mkdir p w))) src) as Hin
    by (rewrite E; apply list_elem_of_here).
  unfold png_frames in Hin.
  apply list_elem_of_In, filter_In in Hin as [Hent Hf].
  apply andb_true_iff in Hf as [Hf Hs].
  apply is_file_in_spec in Hf as [Hne [d Hd]].
  apply (only_adds_dirs_file _ _ f d Hadd) in Hd.
  apply list_elem_of_In, elem_of_entries in Hent as (_ & Hp & _).
  assert (f ∈ png_frames (files w) src) as Hin'.
  { unfold png_frames. apply list_elem_of_In, filter_In. split.
    - apply list_elem_of_In, elem_of_entries. rewrite Hd. eauto.
    - apply andb_true_iff. split; [|exact Hs].
      apply is_file_in_spec. eauto. }
  rewrite Hpng in Hin'. apply elem_of_nil in Hin'. exact Hin'.
Qed.

(** C9: in a directory whose frames are all pre-encoded, no [.png] file
    among them, the scan captures no dimensions and the generated header
    is not written, whatever the frame rate and the frames copied: the
    packer does what it does without lines 211 and 212. A size is only
    ever captured from a [.png] file, while none is known yet. *)
Theorem no_header_without_png (src dst : path) (w : world) :
  png_frames (files w) src = [] ->
  pack_icon_animated src dst w = pack_icon_animated_frames src dst w
  /\ (forall w1 w2 st,
        Path.mkdir dst w = (w1, Ok tt) ->
        scan_icon_frames src dst w1 = (w2, Ok st) ->
        size st = None /\ write_icon_meta dst st w2 = (w2, Ok tt))
  /\ (forall listed st st' frame w1 w2,
        pack_icon_frame dst listed st frame w1 = (w2, Ok st') ->
        size st' <> size st ->
        Path.suffix (Path.name frame) = txt ".png" /\ size st = None).
Proof.
  intros Hpng.
  assert (Hscan : forall w1 w2 st,
            Path.mkdir dst w = (w1, Ok tt) ->
            scan_icon_frames src dst w1 = (w2, Ok st) -> size st = None).
  { intros w1 w2 st Em Es. eapply scan_without_png; [|exact Es].
    pose proof (png_frames_mkdir src dst w Hpng) as H. rewrite Em in H. exact H. }
  split; [|split].
  - unfold pack_icon_animated, pack_icon_animated_frames, bind, Path.is_file.
    cbn beta iota. destruct (negb _ && negb _); [reflexivity|].
    destruct (Path.mkdir dst w) as [w1 [[]|e]] eqn:Em; [|reflexivity].
    destruct (scan_icon_frames src dst w1) as [w2 [st|e]] eqn:Es; [|reflexivity].
    unfold write_icon_meta. rewrite (Hscan _ _ _ eq_refl Es). reflexivity.
  - intros w1 w2 st Em Es. pose proof (Hscan _ _ _ Em Es) as Hsz.
    split; [exact Hsz|]. unfold write_icon_meta. rewrite Hsz. reflexivity.
  - intros listed st st' frame w1 w2 E Hne.
    apply pack_icon_frame_size in E as [Eq|(Hs & _ & Hn & _)]; [contradiction|auto].
Qed.
End IconHeader.

(** [struct.pack("<I", v)] against the stated layout. *)
Lemma pack_I_u32le (v : Z) : pack_I v = u32le v.
Proof.
  unfold pack_I, u32le.
  assert (E : forall x, z2b (Z.land x 255) = z2b (x mod 256)).
  { intros x. change 255 with (Z.ones 8). rewrite Z.land_ones by lia. reflexivity. }
  rewrite !E, !Z.shiftr_div_pow2 by lia. reflexivity.
Qed.

Lemma struct_pack_I_fits (vs : list Z) :
  forallb fits_u32 vs = true -> struct_pack_I vs = Ok (flat_map u32le vs).
Proof.
  induction vs as [|v vs IH]; [reflexivity|]. cbn [forallb]. intros H.
  apply andb_true_iff in H as [Hv Hvs]. cbn [struct_pack_I flat_map].
  unfold fits_u32 in Hv. rewrite Hv, (IH Hvs). cbn [rbind].
  rewrite pack_I_u32le. reflexivity.
Qed.

Lemma struct_pack_I_misfit (vs : list Z) :
  forallb fits_u32 vs = false -> struct_pack_I vs = Raise StructError.
Proof.
  induction vs as [|v vs IH]; [discriminate|]. cbn [forallb]. intros H.
  cbn [struct_pack_I]. fold (fits_u32 v).
  destruct (fits_u32 v); [|reflexivity]. rewrite (IH H). reflexivity.
Qed.

Section IconHeaderWritten.
Context `{HS : Heatshrink2} `{DEC : PIL.Decoder}.

Lemma node_at_unchanged (q : path) (w w' : world) :
  unchanged_at q w w' ->
  Path.node_at (files w') q = Path.node_at (files w) q.
Proof. intros E. destruct q; [reflexivity | exact E]. Qed.

(** The scan leaves the node of [dst] itself alone. *)
Lemma scan_keeps_dst (src dst : path) (w : world) :
  Path.node_at (files (fst (scan_icon_frames src dst w))) dst
  = Path.node_at (files w) dst.
Proof.
  unfold scan_icon_frames, bind.
  destruct (Path.iterdir src w) as [w1 [listed|e]] eqn:El.
  2:{ unfold Path.iterdir in El.
      destruct (Path.node_at (files w) src) as [[d|]|]; inversion El; reflexivity. }
  assert (w1 = w) as ->.
  { unfold Path.iterdir in El.
    destruct (Path.node_at (files w) src) as [[d|]|]; inversion El; auto. }
  cbn beta iota.
  set (fl := List.filter (Path.is_file_in (files w)) listed).
  pose proof (for_each_invariant
                (fun w' _ => Path.node_at (files w') dst = Path.node_at (files w) dst)
                (fun w' => Path.node_at (files w') dst = Path.node_at (files w) dst)
                (sorted_by_name fl) (pack_icon_frame dst fl)) as Hinv.
  cbn beta in Hinv. specialize (Hinv) with (s := initial_scan) (w := w).
  destruct (for_each (sorted_by_name fl) (pack_icon_frame dst fl) initial_scan w)
    as [w2 [st|e]]; cbn [fst]; apply Hinv; try reflexivity.
  all: intros s x w0 _ Hs;
    pose proof (pack_icon_frame_writes dst fl s x dst w0
                  (fun nm E => child_neq_parent dst nm (eq_sym E))) as Hu;
    apply node_at_unchanged in Hu;
    destruct (pack_icon_frame dst fl s x w0) as [w3 [s'|e']]; cbn [fst] in Hu;
    congruence.
Qed.

(** The [frame_rate] field of the scan changes only at a file named
    [frame_rate]. *)
Lemma pack_icon_frame_rate (dst : path) (listed : list path) (st st' : scan)
    (frame : path) (w w' : world) :
  pack_icon_frame dst listed st frame w = (w', Ok st') ->
  frame_rate st' = frame_rate st \/ Path.name frame = txt "frame_rate".
Proof.
  unfold pack_icon_frame, bind, Path.is_file. cbn beta iota.
  destruct (Path.is_file_in (files w) frame) eqn:Hf; cbn [negb];
    [|intros [= <- <-]; auto].
  case_bool_decide; [auto|].
  case_bool_decide.
  { destruct (Path.copyfile _ _ w) as [w1 [[]|e]]; [|discriminate].
    intros [= <- <-]. auto. }
  case_bool_decide.
  { destruct (first_size (size st) frame w) as [w1 [sz|e]] eqn:E; [|discriminate].
    destruct (convert_to_bm_at frame w1) as [w2 [d|e]]; [|discriminate].
    destruct (Path.write_bytes _ d w2) as [w3 [[]|e]]; [|discriminate].
    intros [= <- <-]. auto. }
  case_bool_decide; [|intros [= <- <-]; auto].
  unfold lift. destruct (Path.with_suffix frame (txt ".png")) as [png|e]; [|discriminate].
  destruct (negb _); [|intros [= <- <-]; auto].
  destruct (Path.copyfile _ _ w) as [w1 [[]|e]]; [|discriminate].
  intros [= <- <-]. auto.
Qed.

(** A frame rate comes from the file [frame_rate] of the source. *)
Lemma scan_rate_from_file (src dst : path) (w w' : world) (st : scan) (rate : Z) :
  icon_scan src dst w = (w', Ok st) ->
  frame_rate st = Some rate ->
  Path.is_file_in (files w) (src </> txt "frame_rate") = true.
Proof.
  unfold icon_scan, bind. intros Hscan Hrate.
  destruct (Path.mkdir dst w) as [w1 [[]|e]] eqn:Em; [|discriminate].
  unfold scan_icon_frames, bind in Hscan.
  destruct (Path.iterdir src w1) as [w1' [listed|e]] eqn:El; [|discriminate].
  assert (w1' = w1 /\ listed = Path.entries (files w1) src) as [-> ->].
  { unfold Path.iterdir in El.
    destruct (Path.node_at (files w1) src) as [[d|]|]; inversion El; auto. }
  cbn beta iota in Hscan.
  pose proof (for_each_invariant
                (fun _ s => frame_rate s = None
                            \/ Path.is_file_in (files w) (src </> txt "frame_rate") = true)
                (fun _ => True)
                (sorted_by_name (List.filter (Path.is_file_in (files w1))
                                   (Path.entries (files w1) src)))
                (pack_icon_frame dst (List.filter (Path.is_file_in (files w1))
                                        (Path.entries (files w1) src)))) as Hinv.
  cbn beta in Hinv. specialize (Hinv) with (s := initial_scan) (w := w1).
  rewrite Hscan in Hinv.
  destruct Hinv as [Hnone|Hfile]; [|left; reflexivity|congruence|exact Hfile].
  intros s x w0 Hx Hs.
  destruct (pack_icon_frame dst _ s x w0) as [w2 [s'|e]] eqn:Es; [|exact I].
  apply pack_icon_frame_rate in Es as [Eq|Hname]; [rewrite Eq; exact Hs|].
  right.
  apply elem_of_sorted_by_name, list_elem_of_In, filter_In in Hx as [Hx Hf].
  apply list_elem_of_In, elem_of_entries in Hx as (Hne & Hp & _).
  assert (Ex : x = src </> txt "frame_rate").
  { rewrite <- Hp, <- Hname. unfold Path.parent, Path.name, Path.child.
    apply app_removelast_last. exact Hne. }
  rewrite Ex in Hf.
  apply is_file_in_spec in Hf as [Hne' [d Hd]].
  apply is_file_in_spec. split; [exact Hne'|]. exists d.
  pose proof (mkdir_adds dst w) as Hadd. rewrite Em in Hadd. cbn [fst] in Hadd.
  apply (only_adds_dirs_file _ _ _ _ Hadd). exact Hd.
Qed.
(** C5: when the scan of the frames of [pack_icon_animated] ends with a
    size and a frame rate, the packer hands the width, the height, the
    frame rate and the frame count to [struct.pack]. When each of the
    four fits 32 unsigned bits, the file [meta] of the destination is
    written with the 16 bytes of the four values, each as 4 little-endian
    bytes, unless [meta] is a directory there, which is an
    [IsADirectoryError]. When one of the four does not fit, [struct.pack]
    raises and the world stays as the scan left it: no header is written.
    For 10, 20, 5 and 3 the header is 0A 00 00 00 14 00 00 00 05 00 00 00
    03 00 00 00. *)
Theorem icon_header_written (src dst : path) (w w' : world) (st : scan)
    (width height rate : Z) :
  icon_scan src dst w = (w', Ok st) ->
  size st = Some (width, height) ->
  frame_rate st = Some rate ->
  let values := [width; height; rate; frame_count st] in
  let header := u32le width ++ u32le height ++ u32le rate ++ u32le (frame_count st) in
  (forallb fits_u32 values = true ->
   Path.node_at (files w') (dst </> txt "meta") <> Some Dir ->
   pack_icon_animated src dst w
   = (Path.set_node (dst </> txt "meta") (File header) w', Ok tt)
   /\ files (fst (pack_icon_animated src dst w)) !! (dst </> txt "meta")
      = Some (File header))
  /\ (forallb fits_u32 values = true ->
      Path.node_at (files w') (dst </> txt "meta") = Some Dir ->
      pack_icon_animated src dst w = (w', Raise IsADirectoryError))
  /\ (forallb fits_u32 values = false ->
      pack_icon_animated src dst w = (w', Raise StructError))
  /\ len header = 16
  /\ u32le 10 ++ u32le 20 ++ u32le 5 ++ u32le 3
     = [x0a; x00; x00; x00; x14; x00; x00; x00; x05; x00; x00; x00; x03; x00; x00; x00].
Proof.
  intros Hscan Hsize Hrate values header.
  pose proof (scan_rate_from_file _ _ _ _ _ _ Hscan Hrate) as Hguard.
  assert (Hrun : pack_icon_animated src dst w
                 = bind (lift (struct_pack_I values))
                     (Path.write_bytes (dst </> txt "meta")) w').
  { unfold pack_icon_animated, bind, Path.is_file. cbn beta iota.
    replace (negb (Path.is_file_in (files w) (src </> txt "frame_rate"))
             && negb (Path.is_file_in (files w) (src </> txt "meta"))) with false
      by (rewrite Hguard; reflexivity).
    unfold icon_scan, bind in Hscan.
    destruct (Path.mkdir dst w) as [w1 [[]|e]] eqn:Em; [|discriminate].
    rewrite Hscan. unfold write_icon_meta. rewrite Hsize, Hrate. reflexivity. }
  assert (Hdir : Path.node_at (files w') dst = Some Dir).
  { unfold icon_scan, bind in Hscan.
    destruct (Path.mkdir dst w) as [w1 [[]|e]] eqn:Em; [|discriminate].
    pose proof (scan_keeps_dst src dst w1) as Hk. rewrite Hscan in Hk.
    cbn [fst] in Hk. rewrite Hk. apply mkdir_is_dir in Em. exact Em. }
  assert (Hheader : flat_map u32le values = header).
  { unfold values, header. cbn [flat_map]. rewrite app_nil_r. reflexivity. }
  assert (Hwrite : Path.write_bytes (dst </> txt "meta") header w'
                   = match Path.node_at (files w') (dst </> txt "meta") with
                     | Some Dir => (w', Raise IsADirectoryError)
                     | _ => (Path.set_node (dst </> txt "meta") (File header) w', Ok tt)
                     end).
  { unfold Path.write_bytes.
    destruct (dst </> txt "meta") as [|c p] eqn:Ep;
      [apply child_not_root in Ep; destruct Ep|].
    rewrite <- Ep, parent_child, Hdir. reflexivity. }
  split; [|split; [|split; [|split; reflexivity]]].
  - intros Hfit Hmeta.
    assert (E : pack_icon_animated src dst w
                = (Path.set_node (dst </> txt "meta") (File header) w', Ok tt)).
    { rewrite Hrun. unfold bind, lift. rewrite (struct_pack_I_fits _ Hfit), Hheader, Hwrite.
      destruct (Path.node_at (files w') (dst </> txt "meta")) as [[d|]|];
        [reflexivity | contradiction | reflexivity]. }
    split; [exact E|]. rewrite E. cbn [fst]. rewrite set_node_lookup.
    rewrite decide_True by reflexivity. reflexivity.
  - intros Hfit Hmeta. rewrite Hrun. unfold bind, lift.
    rewrite (struct_pack_I_fits _ Hfit), Hheader, Hwrite, Hmeta. reflexivity.
  - intros Hfit. rewrite Hrun. unfold bind, lift.
    rewrite (struct_pack_I_misfit _ Hfit). reflexivity.
Qed.
End IconHeaderWritten.

(** ** Names and suffixes *)

Lemma rfind_lower (c : byte) (s : bytes) : -1 <= rfind c s.
Proof.
  induction s as [|d s IH]; cbn [rfind]; [lia|].
  destruct (0 <=? rfind c s) eqn:E; [apply Z.leb_le in E; lia|].
  destruct (Byte.eqb c d); lia.
Qed.

Lemma rfind_absent (c : byte) (s : bytes) : c ∉ s -> rfind c s = -1.
Proof.
  induction s as [|d s IH]; intros Hn; cbn [rfind]; [reflexivity|].
  apply not_elem_of_cons in Hn as [Hd Hs]. rewrite (IH Hs). cbn.
  apply byte_eqb_neq in Hd. rewrite Hd. reflexivity.
Qed.

Lemma rfind_app_last (c : byte) (s t : bytes) :
  c ∉ t -> rfind c (s ++ c :: t) = len s.
Proof.
  intros Ht. induction s as [|d s IH].
  - cbn [app rfind]. rewrite (rfind_absent c t Ht). cbn.
    rewrite byte_eqb_refl. reflexivity.
  - cbn [app rfind]. rewrite IH. pose proof (len_nonneg s) as Hl.
    destruct (Z.leb_spec 0 (len s)); [|lia]. rewrite len_cons. lia.
Qed.

Lemma suffix_length (nm : bytes) : nm <> [] -> (length (Path.suffix nm) < length nm)%nat.
Proof.
  intros Hne. unfold Path.suffix.
  destruct ((0 <? rfind x2e nm) && (rfind x2e nm <? len nm - 1)) eqn:E.
  - apply andb_true_iff in E as [E1 E2]. apply Z.ltb_lt in E1, E2.
    rewrite length_skipn. unfold len in *. lia.
  - destruct nm; [contradiction | cbn; lia].
Qed.

Lemma suffix_of_stem_bm (stem : bytes) :
  stem <> [] -> Path.suffix (stem ++ txt ".bm") = txt ".bm".
Proof.
  intros Hne. assert (Hl : 0 < len stem) by (destruct stem; [contradiction | rewrite len_cons; pose proof (len_nonneg stem); lia]).
  unfold Path.suffix. change (txt ".bm") with (x2e :: txt "bm").
  rewrite rfind_app_last.
  2:{ intros Hin. change (txt "bm") with [x62; x6d] in Hin.
      repeat (apply elem_of_cons in Hin as [Hin|Hin]; [discriminate|]).
      apply elem_of_nil in Hin. exact Hin. }
  rewrite len_app. change (len (x2e :: txt "bm")) with 3.
  replace ((0 <? len stem) && (len stem <? len stem + 3 - 1)) with true
    by (symmetry; apply andb_true_iff; lia).
  unfold len. rewrite Nat2Z.id, skipn_app, skipn_all, Nat.sub_diag. reflexivity.
Qed.

(** A name given the suffix [.bm] has the suffix [.bm]. *)
Lemma suffix_with_bm (nm nm' : bytes) :
  Path.name_with_suffix nm (txt ".bm") = Ok nm' -> Path.suffix nm' = txt ".bm".
Proof.
  unfold Path.name_with_suffix. destruct nm as [|c nm]; [discriminate|].
  intros [= <-]. apply suffix_of_stem_bm.
  pose proof (suffix_length (c :: nm) ltac:(discriminate)) as Hlt.
  intros E. apply (f_equal (@length byte)) in E.
  rewrite length_firstn in E. cbn [length] in *. lia.
Qed.

Lemma path_split (f : path) : f <> [] -> f = Path.parent f </> Path.name f.
Proof.
  intros Hne. unfold Path.parent, Path.name, Path.child.
  apply app_removelast_last. exact Hne.
Qed.

Lemma child_eq_inv (p q : path) (a b : bytes) : p </> a = q </> b -> p = q /\ a = b.
Proof. unfold Path.child. intros E. apply app_inj_tail in E. exact E. Qed.

Lemma with_suffix_name (f f' : path) (sfx : bytes) :
  Path.with_suffix f sfx = Ok f' ->
  Path.name_with_suffix (Path.name f) sfx = Ok (Path.name f').
Proof.
  unfold Path.with_suffix, rbind.
  destruct (Path.name_with_suffix (Path.name f) sfx) as [nm|e]; [|discriminate].
  intros [= <-]. rewrite name_child. reflexivity.
Qed.

(** ** Passthrough files *)

Section Passthrough.
Context `{HS : Heatshrink2} `{DEC : PIL.Decoder} `{UD : Unicodedata}.

Lemma kept_unchanged (src dst : path) (nm data : bytes) (w w' : world) (p : path) :
  kept src dst nm data w ->
  p <> dst </> nm ->
  (forall png, encodes_to nm png = true -> p <> src </> png) ->
  (forall q, q <> p -> unchanged_at q w w') ->
  kept src dst nm data w'.
Proof.
  intros [Hj Hk] Hp Hpng Hu. split.
  - rewrite (Hu (dst </> nm)) by congruence. exact Hj.
  - intros png Hs. specialize (Hk png Hs). specialize (Hpng png Hs).
    unfold Path.is_file_in in *. rewrite !node_at_lookup in * by apply child_not_root.
    rewrite (Hu (src </> png)) by congruence. exact Hk.
Qed.

Lemma encodes_to_spec (nm png : bytes) :
  encodes_to nm png = true ->
  Path.suffix png = txt ".png" /\ Path.name_with_suffix png (txt ".bm") = Ok nm.
Proof.
  unfold encodes_to. rewrite !andb_true_iff, !bool_decide_eq_true. tauto.
Qed.

Lemma pack_anim_frame_keeps (src dst : path) (nm data : bytes) (frame : path)
    (w : world) :
  nm <> txt "meta.txt" ->
  frame <> [] -> Path.parent frame = src ->
  kept src dst nm data w ->
  kept src dst nm data (fst (pack_anim_frame dst tt frame w)).
Proof.
  intros Hnm Hne Hparent Hkept.
  unfold pack_anim_frame, bind, Path.is_file. cbn beta iota.
  destruct (Path.is_file_in (files w) frame) eqn:Hfile; cbn [negb]; [|exact Hkept].
  case_bool_decide as Hmeta.
  { (* meta.txt *)
    unfold copy_file_as_lf, bind.
    destruct (Path.read_bytes frame w) as [w1 [d|e]] eqn:Er;
      apply (ro_result _ _ _ _ (read_only_read_bytes frame)) in Er; subst w1;
      [|exact Hkept].
    eapply (kept_unchanged _ _ _ _ w _ (dst </> Path.name frame)); [exact Hkept | | |].
    - rewrite Hmeta. intros E. apply child_eq_inv in E as [_ E]. congruence.
    - intros png Hs E. apply child_eq_inv in E as [_ E].
      apply encodes_to_spec in Hs as [Hs _]. rewrite <- E, Hmeta in Hs.
      vm_compute in Hs. discriminate.
    - intros q Hq. apply write_bytes_other. congruence. }
  destruct (startswith (txt "frame_") (Path.name frame)) eqn:Hprefix; [|exact Hkept].
  case_bool_decide as Hpng.
  { (* a .png frame *)
    unfold lift.
    destruct (Path.with_suffix frame (txt ".bm")) as [bm|e] eqn:Ebm; [|exact Hkept].
    apply with_suffix_name in Ebm.
    destruct (convert_to_bm_at frame w) as [w1 [d|e]] eqn:Ec;
      apply (ro_result _ _ _ _ (read_only_convert_to_bm_at frame)) in Ec; subst w1;
      [|exact Hkept].
    eapply (kept_unchanged _ _ _ _ w _ (dst </> Path.name bm)); [exact Hkept | | |].
    - intros E. apply child_eq_inv in E as [_ E]. rewrite E in Ebm.
      destruct Hkept as [_ Hk]. specialize (Hk (Path.name frame)).
      rewrite <- Hparent, <- (path_split frame Hne), Hfile in Hk.
      assert (encodes_to nm (Path.name frame) = true) as Hs.
      { unfold encodes_to. rewrite Hprefix, !bool_decide_eq_true_2 by assumption.
        reflexivity. }
      specialize (Hk Hs). discriminate.
    - intros png Hs E. apply child_eq_inv in E as [_ E].
      apply encodes_to_spec in Hs as [Hs _]. apply suffix_with_bm in Ebm.
      rewrite E, Hs in Ebm. vm_compute in Ebm. discriminate.
    - intros q Hq. apply write_bytes_other. congruence. }
  case_bool_decide as Hbm; [|exact Hkept].
  (* a pre-encoded frame *)
  destruct (Path.is_file_in (files w) (dst </> Path.name frame)) eqn:Hpresent;
    cbn [negb]; [exact Hkept|].
  eapply (kept_unchanged _ _ _ _ w _ (dst </> Path.name frame)); [exact Hkept | | |].
  - intros E. destruct Hkept as [Hj _]. rewrite E in Hpresent.
    unfold Path.is_file_in in Hpresent.
    rewrite node_at_lookup, Hj in Hpresent by apply child_not_root. discriminate.
  - intros png Hs E. apply child_eq_inv in E as [_ E].
    apply encodes_to_spec in Hs as [Hs _]. rewrite <- E, Hbm in Hs.
    vm_compute in Hs. discriminate.
  - intros q Hq. apply copyfile_other. congruence.
Qed.

Lemma kept_initially (src dst : path) (nm data : bytes) (w : world) :
  files w !! (dst </> nm) = Some (File data) ->
  png_siblings (files w) src nm = [] ->
  kept src dst nm data w.
Proof.
  intros Hj Hs. split; [exact Hj|]. intros png Hp.
  destruct (Path.is_file_in (files w) (src </> png)) eqn:Hf; [exfalso|reflexivity].
  assert (src </> png ∈ png_siblings (files w) src nm) as Hin.
  { unfold png_siblings. apply list_elem_of_In, filter_In. split.
    - apply list_elem_of_In, elem_of_entries.
      apply is_file_in_spec in Hf as [Hne [d Hd]]. rewrite parent_child, Hd. eauto.
    - rewrite Hf, name_child, Hp. reflexivity. }
  rewrite Hs in Hin. apply elem_of_nil in Hin. exact Hin.
Qed.

Lemma kept_only_adds_dirs (src dst : path) (nm data : bytes) (w w' : world) :
  only_adds_dirs w w' -> kept src dst nm data w -> kept src dst nm data w'.
Proof.
  intros Hadd [Hj Hk]. split.
  - apply (only_adds_dirs_file _ _ _ _ Hadd). exact Hj.
  - intros png Hp. specialize (Hk png Hp).
    destruct (Path.is_file_in (files w') (src </> png)) eqn:Hf; [|reflexivity].
    apply is_file_in_spec in Hf as [Hne [d Hd]].
    apply (only_adds_dirs_file _ _ _ _ Hadd) in Hd.
    assert (Path.is_file_in (files w) (src </> png) = true)
      by (apply is_file_in_spec; eauto).
    congruence.
Qed.

(** [pack_anim] leaves an existing destination file alone unless a
    [.png] frame of the source encodes to its name. *)
Lemma pack_anim_keeps (src dst : path) (nm data : bytes) (w : world) :
  files w !! (dst </> nm) = Some (File data) ->
  nm <> txt "meta.txt" ->
  png_siblings (files w) src nm = [] ->
  files (fst (pack_anim src dst w)) !! (dst </> nm) = Some (File data).
Proof.
  intros Hj Hnm Hs.
  enough (kept src dst nm data (fst (pack_anim src dst w))) as [H _] by exact H.
  pose proof (kept_initially src dst nm data w Hj Hs) as Hk.
  unfold pack_anim, bind, Path.is_file. cbn beta iota.
  destruct (negb _); [exact Hk|].
  pose proof (mkdir_adds dst w) as Hadd.
  destruct (Path.mkdir dst w) as [w1 [[]|e]]; cbn [fst] in Hadd;
    [|exact (kept_only_adds_dirs _ _ _ _ _ _ Hadd Hk)].
  apply (kept_only_adds_dirs _ _ _ _ _ _ Hadd) in Hk.
  destruct (Path.iterdir src w1) as [w2 [frames|e]] eqn:Ei.
  2:{ unfold Path.iterdir in Ei.
      destruct (Path.node_at (files w1) src) as [[d|]|]; inversion Ei; subst; exact Hk. }
  assert (w2 = w1 /\ frames = Path.entries (files w1) src) as [-> ->].
  { unfold Path.iterdir in Ei.
    destruct (Path.node_at (files w1) src) as [[d|]|]; inversion Ei; auto. }
  pose proof (for_each_invariant (fun w' _ => kept src dst nm data w')
                (kept src dst nm data)
                (Path.entries (files w1) src) (pack_anim_frame dst)) as Hinv.
  cbn beta in Hinv. specialize (Hinv) with (s := tt) (w := w1).
  destruct (for_each (Path.entries (files w1) src) (pack_anim_frame dst) tt w1)
    as [w3 [[]|e]]; cbn [fst]; apply Hinv; try exact Hk.
  all: intros [] frame w0 Hin Hk0;
    apply elem_of_entries in Hin as (Hne & Hp & _);
    pose proof (pack_anim_frame_keeps src dst nm data frame w0 Hnm Hne Hp Hk0) as Hstep;
    destruct (pack_anim_frame dst tt frame w0) as [w4 [[]|e']]; exact Hstep.
Qed.
End Passthrough.

Section PassthroughFiles.
Context `{HS : Heatshrink2} `{DEC : PIL.Decoder} `{UD : Unicodedata}.

Lemma pack_icon_static_bmx (src dst : path) :
  Path.suffix (Path.name src) = txt ".bmx" ->
  pack_icon_static src dst = copy_if_absent src dst.
Proof. intros E. unfold pack_icon_static, copy_if_absent. rewrite E. reflexivity. Qed.

Lemma pack_font_u8f (src dst : path) :
  Path.suffix (Path.name src) = txt ".u8f" ->
  pack_font src dst = copy_if_absent src dst.
Proof. intros E. unfold pack_font, copy_if_absent. rewrite E. reflexivity. Qed.

Lemma copy_if_absent_present (src dst : path) (w : world) :
  Path.is_file_in (files w) dst = true ->
  only_adds_dirs w (fst (copy_if_absent src dst w))
  /\ files (fst (copy_if_absent src dst w)) !! dst = files w !! dst.
Proof.
  intros Hf. pose proof (mkdir_adds (Path.parent dst) w) as Hadd.
  assert (G : only_adds_dirs w (fst (copy_if_absent src dst w))).
  { unfold copy_if_absent, bind, Path.is_file. cbn beta iota.
    destruct (Path.mkdir (Path.parent dst) w) as [w1 [[]|e]]; cbn [fst] in *;
      [|exact Hadd].
    apply is_file_in_spec in Hf as [Hne [d Hd]].
    apply (only_adds_dirs_file _ _ _ _ Hadd) in Hd.
    replace (Path.is_file_in (files w1) dst) with true
      by (symmetry; apply is_file_in_spec; eauto).
    exact Hadd. }
  split; [exact G|].
  apply is_file_in_spec in Hf as [Hne [d Hd]]. rewrite Hd.
  apply (only_adds_dirs_file _ _ _ _ G). exact Hd.
Qed.

Lemma copy_if_absent_absent (src dst : path) (w w' : world) :
  Path.is_file_in (files w) dst = false ->
  copy_if_absent src dst w = (w', Ok tt) ->
  exists data, Path.node_at (files w) src = Some (File data)
               /\ files w' !! dst = Some (File data).
Proof.
  intros Hf. pose proof (mkdir_adds (Path.parent dst) w) as Hadd.
  unfold copy_if_absent, bind, Path.is_file. cbn beta iota.
  destruct (Path.mkdir (Path.parent dst) w) as [w1 [[]|e]]; cbn [fst] in *;
    [|discriminate].
  assert (Path.is_file_in (files w1) dst = false) as ->.
  { destruct (Path.is_file_in (files w1) dst) eqn:E; [|reflexivity].
    apply is_file_in_spec in E as [Hne [d Hd]].
    apply (only_adds_dirs_file _ _ _ _ Hadd) in Hd.
    assert (Path.is_file_in (files w) dst = true) by (apply is_file_in_spec; eauto).
    congruence. }
  cbn [negb]. unfold Path.copyfile. case_bool_decide; [discriminate|].
  unfold bind. destruct (Path.read_bytes src w1) as [w2 [d|e]] eqn:Er; [|discriminate].
  apply read_bytes_ok in Er as [-> Hsrc]. intros Ew.
  destruct (write_bytes_effect dst d w1) as [(Ew' & _)|(e & Ew')];
    rewrite Ew' in Ew; [|discriminate].
  injection Ew as <-. exists d. split.
  - destruct src as [|c src]; [discriminate|]. cbn in *.
    apply (only_adds_dirs_file _ _ _ _ Hadd). exact Hsrc.
  - rewrite set_node_lookup, decide_True by reflexivity. reflexivity.
Qed.

Lemma rmtree_effect (p : path) (w : world) :
  Path.is_dir_in (files w) p = true ->
  snd (Path.rmtree p w) = Ok tt
  /\ console (fst (Path.rmtree p w)) = console w
  /\ forall q, files (fst (Path.rmtree p w)) !! q
               = if Path.below p q then None else files w !! q.
Proof.
  unfold Path.is_dir_in, Path.rmtree.
  destruct (Path.node_at (files w) p) as [[|]|]; try discriminate. intros _.
  cbn [fst snd files console]. split; [reflexivity | split; [reflexivity|]].
  intros q. destruct (Path.below p q) eqn:B.
  - apply map_lookup_filter_None. right. intros x _. cbn. congruence.
  - destruct (files w !! q) as [x|] eqn:E.
    + apply map_lookup_filter_Some. split; [exact E | exact B].
    + apply map_lookup_filter_None. left. exact E.
Qed.

Lemma remove_existing_pack_effect (packed : path) (w : world) :
  Path.is_dir_in (files w) packed = true ->
  snd (remove_existing_pack packed w) = Ok tt
  /\ forall q, files (fst (remove_existing_pack packed w)) !! q
               = if Path.below packed q then None else files w !! q.
Proof.
  intros Hd. destruct (rmtree_effect packed w Hd) as (Hok & _ & Hfiles).
  unfold remove_existing_pack, bind, try_except, Path.exists_, Path.is_dir.
  cbn beta iota.
  assert (bool_decide (is_Some (Path.node_at (files w) packed)) = true) as ->.
  { apply bool_decide_eq_true. unfold Path.is_dir_in in Hd.
    destruct (Path.node_at (files w) packed); [eauto | discriminate]. }
  cbn beta iota. rewrite Hd.
  destruct (Path.rmtree packed w) as [w1 [[]|e]] eqn:E; cbn [fst snd] in *;
    [|discriminate].
  split; [reflexivity | exact Hfiles].
Qed.

(** C7, as amended: a packer called on a passthrough source leaves an
    existing destination file as it is. For [pack_anim] this holds of
    every destination file other than [meta.txt] to which no [.png] frame
    of the source encodes; for a [.bmx] icon and a [.u8f] font the call
    only makes the parent directory, and copies the source when the
    destination is not a file. [pack_specific] is another matter: the
    step it takes before it calls the packers removes an output pack that
    is there, with everything below it. *)
Theorem passthrough_destination_kept (src dst : path) (w : world) :
  (forall nm data,
     files w !! (dst </> nm) = Some (File data) ->
     nm <> txt "meta.txt" ->
     png_siblings (files w) src nm = [] ->
     files (fst (pack_anim src dst w)) !! (dst </> nm) = Some (File data))
  /\ (Path.suffix (Path.name src) = txt ".bmx" ->
      (Path.is_file_in (files w) dst = true ->
         only_adds_dirs w (fst (pack_icon_static src dst w))
         /\ files (fst (pack_icon_static src dst w)) !! dst = files w !! dst)
      /\ (forall w', Path.is_file_in (files w) dst = false ->
            pack_icon_static src dst w = (w', Ok tt) ->
            exists data, Path.node_at (files w) src = Some (File data)
                         /\ files w' !! dst = Some (File data)))
  /\ (Path.suffix (Path.name src) = txt ".u8f" ->
      (Path.is_file_in (files w) dst = true ->
         only_adds_dirs w (fst (pack_font src dst w))
         /\ files (fst (pack_font src dst w)) !! dst = files w !! dst)
      /\ (forall w', Path.is_file_in (files w) dst = false ->
            pack_font src dst w = (w', Ok tt) ->
            exists data, Path.node_at (files w) src = Some (File data)
                         /\ files w' !! dst = Some (File data)))
  /\ (forall packed,
        Path.is_dir_in (files w) packed = true ->
        snd (remove_existing_pack packed w) = Ok tt
        /\ forall q, files (fst (remove_existing_pack packed w)) !! q
                     = if Path.below packed q then None else files w !! q).
Proof.
  split; [|split; [|split]].
  - intros nm data. apply pack_anim_keeps.
  - intros E. rewrite (pack_icon_static_bmx _ _ E).
    split; [apply copy_if_absent_present | intros w'; apply copy_if_absent_absent].
  - intros E. rewrite (pack_font_u8f _ _ E).
    split; [apply copy_if_absent_present | intros w'; apply copy_if_absent_absent].
  - intros packed. apply remove_existing_pack_effect.
Qed.
End PassthroughFiles.

(** The destination frame 1 of [anim_world], which only comes pre-encoded,
    survives [pack_anim]; so do the pre-built icon and font. The first
    step of [pack_specific] on [pack_world] leaves nothing of the output
    pack. *)
Lemma passthrough_destination_kept_witness :
  files (fst (pack_anim (DEC := sample_decoder) [txt "anim"] [txt "out"; txt "anim"]
                anim_world))
    !! ([txt "out"; txt "anim"] </> txt "frame_1.bm") = Some (File SENTINEL)
  /\ files (fst (pack_icon_static (DEC := sample_decoder) [txt "Icons"; txt "ok.bmx"]
                   [txt "out"; txt "ok.bmx"] prebuilt_world))
       !! [txt "out"; txt "ok.bmx"] = Some (File SENTINEL)
  /\ files (fst (pack_font (UD := {| lookup_name := fun _ => None |})
                   [txt "Fonts"; txt "small.u8f"]
                   [txt "out"; txt "small.u8f"] prebuilt_world))
       !! [txt "out"; txt "small.u8f"] = Some (File SENTINEL)
  /\ files (fst (remove_existing_pack [txt "asset_packs"; txt "pack"] pack_world))
       !! [txt "asset_packs"; txt "pack"; txt "Icons"; txt "Set"; txt "ok.bmx"] = None.
Proof.
  split; [|split; [|split]].
  - apply (proj1 (passthrough_destination_kept (DEC := sample_decoder)
                    (UD := {| lookup_name := fun _ => None |})
                    [txt "anim"] [txt "out"; txt "anim"] anim_world)).
    + vm_compute. reflexivity.
    + discriminate.
    + vm_compute. reflexivity.
  - destruct (proj1 (proj2 (passthrough_destination_kept (DEC := sample_decoder)
                    (UD := {| lookup_name := fun _ => None |})
                    [txt "Icons"; txt "ok.bmx"] [txt "out"; txt "ok.bmx"] prebuilt_world))
                eq_refl) as [Hk _].
    destruct (Hk eq_refl) as [_ ->]. vm_compute. reflexivity.
  - destruct (proj1 (proj2 (proj2 (passthrough_destination_kept (DEC := sample_decoder)
                    (UD := {| lookup_name := fun _ => None |})
                    [txt "Fonts"; txt "small.u8f"] [txt "out"; txt "small.u8f"]
                    prebuilt_world))) eq_refl) as [Hk _].
    destruct (Hk eq_refl) as [_ ->]. vm_compute. reflexivity.
  - destruct (proj2 (proj2 (proj2 (passthrough_destination_kept (DEC := sample_decoder)
                    (UD := {| lookup_name := fun _ => None |}) [] [] pack_world)))
                [txt "asset_packs"; txt "pack"] eq_refl) as [_ ->].
    reflexivity.
Defined.

(** C7 as stated fails twice. In [pack_world] the output holds, from an
    earlier run, a frame, an icon and a font that were then replaced by
    hand; [pack_specific] removes the output pack and copies the three
    from the source again. In [anim_world] frame 0 comes pre-encoded and
    as a [.png]; the destination already holds a [frame_0.bm], and
    [pack_anim] replaces it by the encoding of the [.png]. *)
Lemma passthrough_clobbered_counterexample :
  (files pack_world
     !! [txt "asset_packs"; txt "pack"; txt "Anims"; txt "wave"; txt "frame_0.bm"]
   = Some (File SENTINEL)
   /\ files pack_world !! [txt "asset_packs"; txt "pack"; txt "Icons"; txt "Set"; txt "ok.bmx"]
      = Some (File SENTINEL)
   /\ files pack_world !! [txt "asset_packs"; txt "pack"; txt "Fonts"; txt "small.u8f"]
      = Some (File SENTINEL)
   /\ snd repacked = Ok tt
   /\ files (fst repacked)
        !! [txt "asset_packs"; txt "pack"; txt "Anims"; txt "wave"; txt "frame_0.bm"]
      = Some (File [x00; x11; x22])
   /\ files (fst repacked)
        !! [txt "asset_packs"; txt "pack"; txt "Icons"; txt "Set"; txt "ok.bmx"]
      = Some (File [x08; x00; x00; x00; x01; x00; x00; x00; x00; xff])
   /\ files (fst repacked) !! [txt "asset_packs"; txt "pack"; txt "Fonts"; txt "small.u8f"]
      = Some (File [x01; x02; x00]))
  /\ files anim_world !! [txt "anim"; txt "frame_0.bm"]
     = Some (File [x00; x11; x22; x33; x44; x55; x66])
  /\ files anim_world !! [txt "out"; txt "anim"; txt "frame_0.bm"] = Some (File SENTINEL)
  /\ snd (pack_anim (DEC := sample_decoder) [txt "anim"] [txt "out"; txt "anim"]
            anim_world) = Ok tt
  /\ files (fst (pack_anim (DEC := sample_decoder) [txt "anim"] [txt "out"; txt "anim"]
                   anim_world))
       !! [txt "out"; txt "anim"; txt "frame_0.bm"]
     = Some (File [x01; x00; x02; x00; x00; x28])
  /\ files (fst (pack_anim (DEC := sample_decoder) [txt "anim"] [txt "out"; txt "anim"]
                   anim_world))
       !! [txt "out"; txt "anim"; txt "frame_0.bm"]
     <> files anim_world !! [txt "out"; txt "anim"; txt "frame_0.bm"].
Proof. repeat split; try (vm_compute; reflexivity). vm_compute. discriminate. Qed.

(** Three [.png] frames of 10 by 20 pixels and a frame rate of 5: the
    generated header is the 16 bytes of the example. *)
Lemma icon_header_written_witness :
  files (fst (pack_icon_animated (DEC := sample_decoder) [txt "icon"]
                [txt "out"; txt "icon"] png_icon_world))
    !! ([txt "out"; txt "icon"] </> txt "meta")
  = Some (File [x0a; x00; x00; x00; x14; x00; x00; x00;
                x05; x00; x00; x00; x03; x00; x00; x00]).
Proof.
  destruct (icon_header_written (DEC := sample_decoder) [txt "icon"]
              [txt "out"; txt "icon"] png_icon_world
              (fst (icon_scan (DEC := sample_decoder) [txt "icon"]
                      [txt "out"; txt "icon"] png_icon_world))
              {| frame_count := 3; frame_rate := Some 5; size := Some (10, 20) |}
              10 20 5) as (Hwritten & _).
  - apply run_result. vm_compute. reflexivity.
  - reflexivity.
  - reflexivity.
  - destruct Hwritten as [_ E].
    + reflexivity.
    + vm_compute. discriminate.
    + exact E.
Defined.

(** C5 as stated fails on an icon whose [frame_rate] file holds -1: the
    scan ends with the size of the frame, 10 by 20, and the frame rate -1,
    [struct.pack] raises and the destination holds no [meta]. *)
Lemma icon_header_negative_rate_counterexample :
  snd (icon_scan (DEC := sample_decoder) [txt "icon"] [txt "out"; txt "icon"]
         negative_rate_world)
  = Ok {| frame_count := 1; frame_rate := Some (-1); size := Some (10, 20) |}
  /\ snd (pack_icon_animated (DEC := sample_decoder) [txt "icon"] [txt "out"; txt "icon"]
            negative_rate_world) = Raise StructError
  /\ files (fst (pack_icon_animated (DEC := sample_decoder) [txt "icon"]
                   [txt "out"; txt "icon"] negative_rate_world))
       !! [txt "out"; txt "icon"; txt "meta"] = None.
Proof. repeat split; vm_compute; reflexivity. Qed.

(** Two pre-encoded frames and a frame rate of 5: both frames are copied,
    the rate is read, and no [meta] appears in the destination. *)
Lemma no_header_without_png_witness :
  png_frames (files bm_icon_world) [txt "icon"] = []
  /\ snd (icon_scan (DEC := sample_decoder) [txt "icon"] [txt "out"; txt "icon"]
            bm_icon_world)
     = Ok {| frame_count := 2; frame_rate := Some 5; size := None |}
  /\ pack_icon_animated (DEC := sample_decoder) [txt "icon"] [txt "out"; txt "icon"]
       bm_icon_world
     = pack_icon_animated_frames (DEC := sample_decoder) [txt "icon"]
         [txt "out"; txt "icon"] bm_icon_world
  /\ files (fst (pack_icon_animated (DEC := sample_decoder) [txt "icon"]
                   [txt "out"; txt "icon"] bm_icon_world))
       !! [txt "out"; txt "icon"; txt "frame_01.bm"] = Some (File [x00; x0f; xf0])
  /\ files (fst (pack_icon_animated (DEC := sample_decoder) [txt "icon"]
                   [txt "out"; txt "icon"] bm_icon_world))
       !! [txt "out"; txt "icon"; txt "meta"] = None.
Proof.
  assert (Hpng : png_frames (files bm_icon_world) [txt "icon"] = [])
    by (vm_compute; reflexivity).
  split; [exact Hpng|].
  split; [vm_compute; reflexivity|].
  split; [|split; vm_compute; reflexivity].
  exact (proj1 (no_header_without_png (DEC := sample_decoder) [txt "icon"]
                  [txt "out"; txt "icon"] bm_icon_world Hpng)).
Defined.

(** ** Reading the XBM text back (lines 87 to 90) *)

Lemma replace_removal (c : byte) (s : bytes) :
  replace [c] [] s = List.filter (fun x => negb (Byte.eqb c x)) s.
Proof.
  unfold replace. induction s as [|x s IH]; [reflexivity|].
  cbn [replace_from startswith List.filter length Nat.sub app].
  rewrite andb_true_r. destruct (Byte.eqb c x); cbn [negb]; rewrite IH; reflexivity.
Qed.

Lemma replace_single (c d : byte) (s : bytes) :
  replace [c] [d] s = map (fun x => if Byte.eqb c x then d else x) s.
Proof.
  unfold replace. induction s as [|x s IH]; [reflexivity|].
  cbn [replace_from startswith map length Nat.sub app].
  rewrite andb_true_r. destruct (Byte.eqb c x); rewrite IH; reflexivity.
Qed.

Lemma squeeze_spec (s : bytes) : replace (txt " ") [] (replace [LF] [] s) = squeeze s.
Proof. change (txt " ") with [x20]. rewrite !replace_removal. reflexivity. Qed.

Lemma squeeze_app (s t : bytes) : squeeze (s ++ t) = squeeze s ++ squeeze t.
Proof. unfold squeeze. rewrite !List.filter_app. reflexivity. Qed.

Lemma split_absent (c : byte) (s : bytes) : c ∉ s -> split [c] s = [s].
Proof.
  unfold split. induction s as [|x s IH]; intros Hn; [reflexivity|].
  apply not_elem_of_cons in Hn as [Hx Hs].
  cbn [split_from startswith]. rewrite andb_true_r.
  apply byte_eqb_neq in Hx. rewrite Hx, (IH Hs). reflexivity.
Qed.

Lemma split_first (c : byte) (s t : bytes) :
  c ∉ s -> split [c] (s ++ c :: t) = s :: split [c] t.
Proof.
  unfold split. induction s as [|x s IH]; intros Hn.
  - cbn [app split_from startswith length Nat.sub]. rewrite byte_eqb_refl. reflexivity.
  - apply not_elem_of_cons in Hn as [Hx Hs].
    cbn [app split_from startswith]. rewrite andb_true_r.
    apply byte_eqb_neq in Hx. rewrite Hx, (IH Hs). reflexivity.
Qed.

Lemma rstrip_keeps (sp : byte -> bool) (s : bytes) (c : byte) :
  sp c = false -> rstrip sp (s ++ [c]) = s ++ [c].
Proof.
  intros Hc. induction s as [|x s IH]; cbn [app rstrip]; [rewrite Hc; reflexivity|].
  rewrite IH. destruct (s ++ [c]) eqn:E; [destruct s; discriminate | reflexivity].
Qed.

Lemma rstrip_drops (sp : byte -> bool) (s : bytes) (c d : byte) :
  sp c = false -> sp d = true -> rstrip sp (s ++ [c; d]) = s ++ [c].
Proof.
  intros Hc Hd. induction s as [|x s IH]; cbn [app rstrip].
  - rewrite Hd, Hc. reflexivity.
  - rewrite IH. destruct (s ++ [c]) eqn:E; [destruct s; discriminate | reflexivity].
Qed.

Lemma numeric_string_of_uint (d : Decimal.uint) :
  Forall (fun c => numeric c = true) (txt (NilEmpty.string_of_uint d)).
Proof. induction d; cbn; constructor; auto. Qed.

Lemma numeric_str_of_int (z : Z) : Forall (fun c => numeric c = true) (str_of_int z).
Proof.
  unfold str_of_int, NilZero.string_of_int.
  destruct (Z.to_int z) as [d|d]; unfold NilZero.string_of_uint.
  - destruct d; try apply numeric_string_of_uint. repeat constructor.
  - change (txt (String "-" ?s)) with (x2d :: txt s).
    constructor; [reflexivity|].
    destruct d; try apply numeric_string_of_uint. repeat constructor.
Qed.

Lemma numeric_plain (c : byte) :
  numeric c = true ->
  Byte.eqb LF c = false /\ Byte.eqb x20 c = false /\ c <> x3d.
Proof. destruct c; cbv; intuition discriminate. Qed.

Lemma squeeze_numeric (s : bytes) :
  Forall (fun c => numeric c = true) s -> squeeze s = s.
Proof.
  induction 1 as [|c s Hc _ IH]; [reflexivity|].
  destruct (numeric_plain c Hc) as (H1 & H2 & _).
  unfold squeeze in *. cbn [List.filter]. rewrite H1. cbn [negb List.filter].
  rewrite H2. cbn [negb]. rewrite IH. reflexivity.
Qed.

Lemma numeric_no_equals (s : bytes) :
  Forall (fun c => numeric c = true) s -> x3d ∉ s.
Proof.
  induction 1 as [|c s Hc _ IH]; [apply not_elem_of_nil|].
  apply not_elem_of_cons. split; [|exact IH].
  intros E. destruct (numeric_plain c Hc) as (_ & _ & H). congruence.
Qed.

Lemma hex_0x_hex2 (b : byte) : PIL.hex_0x b = txt "0x" ++ hex2 b.
Proof. reflexivity. Qed.

Lemma squeeze_hex_0x (b : byte) : squeeze (PIL.hex_0x b) = PIL.hex_0x b.
Proof. destruct b; reflexivity. Qed.

Lemma hex_0x_no_equals (b : byte) :
  forallb (fun c => negb (Byte.eqb x3d c)) (PIL.hex_0x b) = true.
Proof. destruct b; reflexivity. Qed.

Lemma hex_0x_no_comma (b : byte) :
  map (fun x => if Byte.eqb x2c x then x20 else x) (PIL.hex_0x b) = PIL.hex_0x b.
Proof. destruct b; reflexivity. Qed.

Lemma replace_0x_item (b : byte) (rest : bytes) :
  replace_from (txt "0x") [] (PIL.hex_0x b ++ x20 :: rest) 0
  = hex2 b ++ x20 :: replace_from (txt "0x") [] rest 0.
Proof. destruct b; reflexivity. Qed.

Lemma replace_0x_last (b : byte) :
  replace_from (txt "0x") [] (PIL.hex_0x b) 0 = hex2 b.
Proof. destruct b; reflexivity. Qed.

Lemma fromhex_item (b : byte) (rest : bytes) :
  fromhex_from (hex2 b ++ x20 :: rest) None
  = rbind (fromhex_from rest None) (fun bs => Ok (b :: bs)).
Proof. destruct b; reflexivity. Qed.

Lemma fromhex_last (b : byte) : fromhex_from (hex2 b) None = Ok [b].
Proof. destruct b; reflexivity. Qed.

Lemma absent_forallb (c : byte) (s : bytes) :
  forallb (fun x => negb (Byte.eqb c x)) s = true <-> c ∉ s.
Proof.
  induction s as [|x s IH]; cbn [forallb].
  - split; [intros _; apply not_elem_of_nil | reflexivity].
  - rewrite andb_true_iff, IH, not_elem_of_cons, negb_true_iff, byte_eqb_neq. tauto.
Qed.

Lemma hex_items_cons2 (pre sep : bytes) (b b' : byte) (rest : bytes) :
  hex_items pre sep (b :: b' :: rest)
  = pre ++ hex2 b ++ sep ++ hex_items pre sep (b' :: rest).
Proof. reflexivity. Qed.

Lemma items_comma_then (row data : bytes) :
  data <> [] ->
  items_comma row ++ hex_items (txt "0x") (txt ",") data
  = hex_items (txt "0x") (txt ",") (row ++ data).
Proof.
  intros Hd. induction row as [|b row IH]; [reflexivity|].
  cbn [items_comma flat_map app]. fold (items_comma row).
  rewrite <- !app_assoc, IH.
  destruct (row ++ data) as [|b' rest] eqn:E.
  - destruct row; [contradiction | discriminate].
  - rewrite hex_items_cons2, hex_0x_hex2, <- !app_assoc. reflexivity.
Qed.

Lemma squeeze_row_text (row : bytes) (count : nat) :
  squeeze (fst (PIL.xbm_row_text false row count)) = items_comma row.
Proof.
  revert count. induction row as [|b row IH]; intros count; [reflexivity|].
  cbn [PIL.xbm_row_text]. destruct row as [|b' row].
  - destruct (15 <=? S count)%nat; cbn [fst]; rewrite squeeze_app, squeeze_hex_0x;
      reflexivity.
  - cbn [fst snd]. rewrite !squeeze_app, squeeze_hex_0x, IH.
    destruct (15 <=? S count)%nat; reflexivity.
Qed.

Lemma squeeze_last_row_text (row : bytes) (count : nat) :
  squeeze (fst (PIL.xbm_row_text true row count)) = hex_items (txt "0x") (txt ",") row.
Proof.
  revert count. induction row as [|b row IH]; intros count; [reflexivity|].
  cbn [PIL.xbm_row_text]. destruct row as [|b' row].
  - cbn [fst]. rewrite squeeze_app, squeeze_hex_0x. reflexivity.
  - cbn [fst snd]. rewrite !squeeze_app, squeeze_hex_0x, IH, hex_items_cons2.
    rewrite hex_0x_hex2, <- !app_assoc.
    destruct (15 <=? S count)%nat; reflexivity.
Qed.

Lemma squeeze_body (rows : list bytes) (count : nat) :
  rows <> [] -> Forall (fun row => row <> []) rows ->
  squeeze (PIL.xbm_body rows count) = hex_items (txt "0x") (txt ",") (concat rows).
Proof.
  intros Hne Hrows. revert count.
  induction Hrows as [|row rows Hrow Hrows IH]; intros count; [contradiction|].
  cbn [PIL.xbm_body concat]. destruct rows as [|row' rows].
  - cbn [concat]. rewrite app_nil_r. apply squeeze_last_row_text.
  - rewrite squeeze_app, squeeze_row_text, IH by discriminate.
    apply items_comma_then. cbn [concat].
    inversion Hrows; subst. destruct row'; [contradiction | discriminate].
Qed.

Lemma hex_items_no_equals (data : bytes) :
  x3d ∉ hex_items (txt "0x") (txt ",") data.
Proof.
  apply absent_forallb. induction data as [|b data IH]; [reflexivity|].
  destruct data as [|b' data].
  - cbn [hex_items]. rewrite app_nil_r. apply (hex_0x_no_equals b).
  - rewrite hex_items_cons2, app_assoc, <- hex_0x_hex2, !forallb_app.
    rewrite hex_0x_no_equals, IH. reflexivity.
Qed.

Lemma comma_to_space (data : bytes) :
  replace (txt ",") (txt " ") (hex_items (txt "0x") (txt ",") data)
  = hex_items (txt "0x") (txt " ") data.
Proof.
  change (txt ",") with [x2c]. change (txt " ") with [x20].
  rewrite replace_single. induction data as [|b data IH]; [reflexivity|].
  destruct data as [|b' data].
  - cbn [hex_items]. rewrite !app_nil_r. apply (hex_0x_no_comma b).
  - rewrite !hex_items_cons2, !(app_assoc (txt "0x")), <- !hex_0x_hex2, !map_app.
    rewrite hex_0x_no_comma, IH. reflexivity.
Qed.

Lemma strip_0x (data : bytes) :
  replace (txt "0x") [] (hex_items (txt "0x") (txt " ") data)
  = hex_items [] (txt " ") data.
Proof.
  unfold replace. induction data as [|b data IH]; [reflexivity|].
  destruct data as [|b' data].
  - cbn [hex_items]. rewrite !app_nil_r. apply (replace_0x_last b).
  - rewrite !hex_items_cons2, !(app_assoc (txt "0x")), <- !hex_0x_hex2.
    change (txt " " ++ ?t) with (x20 :: t).
    rewrite replace_0x_item, IH. reflexivity.
Qed.

Lemma fromhex_items (data : bytes) : fromhex (hex_items [] (txt " ") data) = Ok data.
Proof.
  unfold fromhex. induction data as [|b data IH]; [reflexivity|].
  destruct data as [|b' data].
  - cbn [hex_items app]. rewrite app_nil_r. apply fromhex_last.
  - rewrite hex_items_cons2. cbn [app]. change (txt " " ++ ?t) with (x20 :: t).
    rewrite fromhex_item, IH. reflexivity.
Qed.

Lemma lstrip_head (sp : byte -> bool) (c : byte) (s : bytes) :
  sp c = false -> lstrip sp (c :: s) = c :: s.
Proof. intros Hc. cbn [lstrip]. rewrite Hc. reflexivity. Qed.

Lemma strip_text (c d : byte) (s : bytes) :
  str_isspace c = false -> str_isspace d = false ->
  strip str_isspace (strip str_isspace (c :: s ++ [d; LF])) = c :: s ++ [d].
Proof.
  intros Hc Hd. unfold strip.
  rewrite (lstrip_head _ c _ Hc).
  change (c :: s ++ [d; LF]) with ((c :: s) ++ [d; LF]).
  rewrite (rstrip_drops str_isspace (c :: s) d LF Hd eq_refl).
  cbn [app]. rewrite (lstrip_head _ c _ Hc).
  change (c :: s ++ [d]) with ((c :: s) ++ [d]).
  apply rstrip_keeps. exact Hd.
Qed.

(** Lines 87 to 90 read back the bytes that the XBM writer listed. *)
Lemma xbm_data_of_text (width height : Z) (rows : list bytes) :
  rows <> [] -> Forall (fun row => row <> []) rows ->
  xbm_data
    (txt "#define im_width " ++ str_of_int width ++ [LF] ++
     txt "#define im_height " ++ str_of_int height ++ [LF] ++
     txt "static char im_bits[] = {" ++ [LF] ++
     PIL.xbm_body rows 0 ++ txt "};" ++ [LF])
  = Ok (concat rows).
Proof.
  intros Hne Hrows. unfold xbm_data.
  set (W := str_of_int width). set (H := str_of_int height).
  set (body := PIL.xbm_body rows 0).
  set (inner := txt "define im_width " ++ W ++ [LF] ++
                txt "#define im_height " ++ H ++ [LF] ++
                txt "static char im_bits[] = {" ++ [LF] ++ body ++ [x7d]).
  replace (txt "#define im_width " ++ W ++ [LF] ++ txt "#define im_height " ++ H ++
           [LF] ++ txt "static char im_bits[] = {" ++ [LF] ++ body ++ txt "};" ++ [LF])
    with (x23 :: inner ++ [x3b; LF]).
  2:{ unfold inner. rewrite <- !app_assoc. reflexivity. }
  rewrite (strip_text x23 x3b inner eq_refl eq_refl), squeeze_spec.
  assert (Esq : squeeze (x23 :: inner ++ [x3b])
                = (txt "#defineim_width" ++ W ++ txt "#defineim_height" ++ H
                   ++ txt "staticcharim_bits[]")
                  ++ x3d :: (x7b :: hex_items (txt "0x") (txt ",") (concat rows)
                               ++ [x7d; x3b])).
  { change (x23 :: inner ++ [x3b]) with ([x23] ++ inner ++ [x3b]). unfold inner.
    rewrite !squeeze_app.
    rewrite (squeeze_numeric W (numeric_str_of_int width)).
    rewrite (squeeze_numeric H (numeric_str_of_int height)).
    unfold body. rewrite (squeeze_body rows 0 Hne Hrows).
    cbn [squeeze List.filter txt list_byte_of_string Byte.eqb negb app].
    rewrite <- !app_assoc. reflexivity. }
  change (txt "=") with [x3d]. rewrite Esq, split_first.
  2:{ rewrite !not_elem_of_app. repeat split;
        try (apply absent_forallb; reflexivity);
        apply numeric_no_equals, numeric_str_of_int. }
  rewrite split_absent.
  2:{ change (x7b :: ?t ++ [x7d; x3b]) with ([x7b] ++ t ++ [x7d; x3b]).
      rewrite !not_elem_of_app. repeat split;
        try (apply absent_forallb; reflexivity). apply hex_items_no_equals. }
  cbn [item nth_error rbind].
  assert (Ecut : strip_ends
                   (drop_last (x7b :: hex_items (txt "0x") (txt ",") (concat rows)
                                 ++ [x7d; x3b]))
                 = hex_items (txt "0x") (txt ",") (concat rows)).
  { unfold strip_ends, drop_last.
    assert (E : forall t : bytes,
               x7b :: t ++ [x7d; x3b] = ((x7b :: t) ++ [x7d]) ++ [x3b])
      by (intros t; rewrite <- app_assoc; reflexivity).
    rewrite E, removelast_last. cbn [app tl]. apply removelast_last. }
  rewrite Ecut, comma_to_space, strip_0x. apply fromhex_items.
Qed.

(** ** The packed bits of a well-formed image *)

Lemma rows_of_lengths (w h : nat) (px : list bool) :
  length px = (h * w)%nat ->
  Forall (fun row => length row = w) (PIL.rows_of h w px).
Proof.
  revert px. induction h as [|h IH]; intros px Hl; cbn [PIL.rows_of]; constructor.
  - rewrite length_firstn. cbn in Hl. lia.
  - apply IH. rewrite length_skipn. cbn in Hl. lia.
Qed.

Lemma rows_of_count (w h : nat) (px : list bool) :
  length (PIL.rows_of h w px) = h.
Proof.
  revert px. induction h as [|h IH]; intros px; cbn [PIL.rows_of length];
    [reflexivity | rewrite IH; reflexivity].
Qed.

Lemma concat_rows_of (w h : nat) (px : list bool) :
  length px = (h * w)%nat -> concat (PIL.rows_of h w px) = px.
Proof.
  revert px. induction h as [|h IH]; intros px Hl; cbn [PIL.rows_of concat].
  - destruct px; [reflexivity | discriminate].
  - rewrite IH by (rewrite length_skipn; cbn in Hl; lia).
    apply firstn_skipn.
Qed.

Lemma pack_1R_nonempty (row : list bool) : row <> [] -> PIL.pack_1R row <> [].
Proof.
  intros Hne.
  destruct row as [|b0 [|b1 [|b2 [|b3 [|b4 [|b5 [|b6 [|b7 row]]]]]]]];
    [contradiction | discriminate ..].
Qed.

Lemma pack_1R_eight (b0 b1 b2 b3 b4 b5 b6 b7 : bool) (row : list bool) :
  PIL.pack_1R (b0 :: b1 :: b2 :: b3 :: b4 :: b5 :: b6 :: b7 :: row)
  = z2b (PIL.lsb_value [b0; b1; b2; b3; b4; b5; b6; b7]) :: PIL.pack_1R row.
Proof. reflexivity. Qed.

(** A row of [n] pixels packs to [ceil (n / 8)] bytes. *)
Lemma pack_1R_length (row : list bool) :
  len (PIL.pack_1R row) = (len row + 7) / 8.
Proof.
  assert (G : forall n (r : list bool), (length r <= n)%nat ->
                len (PIL.pack_1R r) = (len r + 7) / 8).
  { induction n as [|n IH]; intros r Hr.
    - destruct r; [reflexivity | cbn in Hr; lia].
    - destruct r as [|b0 [|b1 [|b2 [|b3 [|b4 [|b5 [|b6 [|b7 r]]]]]]]];
        try reflexivity.
      rewrite pack_1R_eight, len_cons, IH by (cbn in Hr; lia).
      rewrite !len_cons.
      replace (1 + (1 + (1 + (1 + (1 + (1 + (1 + (1 + len r))))))) + 7)
        with ((len r + 7) + 1 * 8) by lia.
      rewrite Z.div_add by lia. lia. }
  apply (G (length row)). lia.
Qed.

Section WellFormed.
Variable img : PIL.Image.
Hypothesis Hwf : PIL.well_formed img.

Lemma wf_pixels_length :
  length (PIL.pixels img)
  = (Z.to_nat (PIL.height img) * Z.to_nat (PIL.width img))%nat.
Proof. destruct Hwf as (Hw & Hh & Hl). unfold len in Hl. nia. Qed.

Lemma wf_invert : PIL.well_formed (PIL.invert img).
Proof.
  destruct Hwf as (Hw & Hh & Hl). repeat split; cbn; try assumption.
  unfold len in *. rewrite length_map. exact Hl.
Qed.

Lemma wf_rows :
  PIL.xbm_rows img <> [] /\ Forall (fun row => row <> []) (PIL.xbm_rows img).
Proof.
  destruct Hwf as (Hw & Hh & Hl). unfold PIL.xbm_rows. split.
  - destruct (Z.to_nat (PIL.height img)) eqn:E; [lia | discriminate].
  - apply Forall_map.
    eapply Forall_impl; [apply rows_of_lengths, wf_pixels_length|].
    cbn beta. intros row Hrow. apply pack_1R_nonempty.
    destruct row; [cbn in Hrow; lia | discriminate].
Qed.

(** The XBM bytes have one row after the other, [ceil (width / 8)] bytes
    each. *)
Lemma xbm_bits_length :
  len (xbm_bits img) = PIL.height img * ((PIL.width img + 7) / 8).
Proof.
  destruct Hwf as (Hw & Hh & Hl). unfold xbm_bits, PIL.xbm_rows.
  pose proof (rows_of_lengths _ _ _ wf_pixels_length) as Hrows.
  pose proof (rows_of_count (Z.to_nat (PIL.width img)) (Z.to_nat (PIL.height img))
                (PIL.pixels img)) as Hn.
  revert Hrows Hn.
  generalize (PIL.rows_of (Z.to_nat (PIL.height img)) (Z.to_nat (PIL.width img))
                (PIL.pixels img)).
  intros rows Hrows Hn.
  assert (G : len (concat (map PIL.pack_1R rows))
              = Z.of_nat (length rows) * ((PIL.width img + 7) / 8)).
  { clear Hn. induction Hrows as [|row rows Hrow _ IH]; [reflexivity|].
    cbn [map concat length]. rewrite len_app, IH, pack_1R_length.
    unfold len. rewrite Hrow, Z2Nat.id by lia. lia. }
  rewrite G, Hn, Z2Nat.id by lia. reflexivity.
Qed.
End WellFormed.

Section PackedBits.
Context `{HS : Heatshrink2}.

(** Lines 81 to 90 yield the XBM bytes of the inverted image. *)
Lemma data_bin_of_spec (img : PIL.Image) :
  PIL.well_formed img -> data_bin_of img = Ok (xbm_bits (PIL.invert img)).
Proof.
  intros Hwf. unfold data_bin_of, PIL.convert_1, PIL.save_xbm, xbm_bits.
  destruct (wf_rows _ (wf_invert _ Hwf)) as [Hne Hrows].
  change (PIL.width (PIL.invert img)) with (PIL.width img).
  change (PIL.height (PIL.invert img)) with (PIL.height img).
  apply xbm_data_of_text; assumption.
Qed.
End PackedBits.

(** ** Decoding what was encoded *)

Lemma decoded_pixels_app (a b : bytes) :
  decoded_pixels (a ++ b) = decoded_pixels a ++ decoded_pixels b.
Proof. unfold decoded_pixels, unpack_pixels. rewrite flat_map_app, map_app. reflexivity. Qed.

Lemma unpack_pixels_length (data : bytes) : len (unpack_pixels data) = 8 * len data.
Proof.
  unfold unpack_pixels. induction data as [|b data IH]; [reflexivity|].
  cbn [flat_map]. rewrite len_app, IH, len_cons.
  change (len (map _ [0; 1; 2; 3; 4; 5; 6; 7])) with 8. lia.
Qed.

Lemma decoded_byte (b0 b1 b2 b3 b4 b5 b6 b7 : bool) :
  decoded_pixels [z2b (PIL.lsb_value [b0; b1; b2; b3; b4; b5; b6; b7])]
  = map negb [b0; b1; b2; b3; b4; b5; b6; b7].
Proof. destruct b0, b1, b2, b3, b4, b5, b6, b7; reflexivity. Qed.

Lemma decoded_row (k : nat) (row : list bool) :
  length row = (8 * k)%nat -> decoded_pixels (PIL.pack_1R row) = map negb row.
Proof.
  revert row. induction k as [|k IH]; intros row Hl.
  - destruct row; [reflexivity | discriminate].
  - destruct row as [|b0 [|b1 [|b2 [|b3 [|b4 [|b5 [|b6 [|b7 row]]]]]]]];
      try (cbn in Hl; lia).
    rewrite pack_1R_eight.
    change (?x :: PIL.pack_1R row) with ([x] ++ PIL.pack_1R row).
    rewrite decoded_pixels_app, decoded_byte, IH by (cbn in Hl; lia).
    reflexivity.
Qed.

Lemma decoded_rows (k : nat) (rows : list (list bool)) :
  Forall (fun row => length row = (8 * k)%nat) rows ->
  decoded_pixels (concat (map PIL.pack_1R rows)) = map negb (concat rows).
Proof.
  induction 1 as [|row rows Hrow _ IH]; [reflexivity|].
  cbn [map concat]. rewrite decoded_pixels_app, map_app, IH, (decoded_row k) by exact Hrow.
  reflexivity.
Qed.

Lemma negb_negb_map (l : list bool) : map negb (map negb l) = l.
Proof.
  induction l as [|b l IH]; [reflexivity|]. cbn [map]. rewrite IH, negb_involutive.
  reflexivity.
Qed.

(** In an image whose rows fill whole bytes, the decoded pixels of the
    packed bits are the pixels. *)
Lemma decoded_xbm_bits (img : PIL.Image) :
  PIL.well_formed img -> PIL.width img mod 8 = 0 ->
  decoded_pixels (xbm_bits (PIL.invert img)) = PIL.pixels img.
Proof.
  intros Hwf Hal. pose proof (wf_invert _ Hwf) as Hwf'.
  destruct Hwf as (Hw & Hh & Hl).
  unfold xbm_bits, PIL.xbm_rows.
  change (PIL.width (PIL.invert img)) with (PIL.width img).
  change (PIL.height (PIL.invert img)) with (PIL.height img).
  pose proof (wf_pixels_length _ Hwf') as Hlen. cbn in Hlen.
  assert (Hk : Z.to_nat (PIL.width img) = (8 * Z.to_nat (PIL.width img / 8))%nat).
  { pose proof (Z.div_mod (PIL.width img) 8). 
    assert (0 <= PIL.width img / 8) by (apply Z.div_pos; lia). lia. }
  rewrite (decoded_rows (Z.to_nat (PIL.width img / 8))).
  - rewrite concat_rows_of by exact Hlen. apply negb_negb_map.
  - rewrite <- Hk. apply rows_of_lengths. exact Hlen.
Qed.

Section RoundTrip.
Context `{HS : Heatshrink2}.

Lemma data_dec_of_output (raw out : bytes) :
  frame_bm raw = Ok out ->
  decompress (compress raw 8 4) 8 4 = Ok raw ->
  data_dec_of out = Ok raw.
Proof.
  intros Hout Hrt. rewrite frame_bm_cases in Hout.
  destruct (65536 <=? _); [discriminate|].
  destruct (_ <? _); injection Hout as <-; unfold data_dec_of; cbn; [exact Hrt|reflexivity].
Qed.

(** C2 on the code: for a well-formed raster that [convert_to_bm] encodes
    and whose packed bits heatshrink restores, decoding the encoding gives
    the raster back when the width is a multiple of 8; for any other width
    the rows are padded to whole bytes, the decoder reads the padding as
    pixels, and [putdata] raises [TypeError] ("too many data entries"). *)
Theorem round_trip_needs_whole_byte_rows (img : PIL.Image) (out : bytes) :
  PIL.well_formed img ->
  convert_to_bm img = Ok out ->
  decompress (compress (xbm_bits (PIL.invert img)) 8 4) 8 4
  = Ok (xbm_bits (PIL.invert img)) ->
  (PIL.width img mod 8 = 0 ->
     recover_png_from_bm out (PIL.width img) (PIL.height img) = Ok img)
  /\ (PIL.width img mod 8 <> 0 ->
        recover_png_from_bm out (PIL.width img) (PIL.height img) = Raise TypeError).
Proof.
  intros Hwf Hout Hrt.
  rewrite (convert_to_bm_cases _ _ (data_bin_of_spec img Hwf)) in Hout.
  pose proof (data_dec_of_output _ _ Hout Hrt) as Hdec.
  pose proof (xbm_bits_length _ (wf_invert _ Hwf)) as Hlen.
  change (PIL.width (PIL.invert img)) with (PIL.width img) in Hlen.
  change (PIL.height (PIL.invert img)) with (PIL.height img) in Hlen.
  destruct Hwf as (Hw & Hh & Hl).
  unfold recover_png_from_bm. rewrite Hdec. cbn [rbind]. unfold PIL.new.
  replace ((PIL.width img <? 0) || (PIL.height img <? 0)) with false
    by (symmetry; apply orb_false_iff; lia).
  cbn [rbind]. unfold PIL.putdata. cbn [PIL.width PIL.height PIL.pixels].
  rewrite unpack_pixels_length, Hlen.
  pose proof (Z.div_mod (PIL.width img + 7) 8 ltac:(lia)) as Hdm.
  pose proof (Z.mod_pos_bound (PIL.width img + 7) 8 ltac:(lia)) as Hmb.
  pose proof (Z.div_mod (PIL.width img) 8 ltac:(lia)) as Hdm'.
  pose proof (Z.mod_pos_bound (PIL.width img) 8 ltac:(lia)) as Hmb'.
  split; intros Hal.
  - assert (E8 : 8 * ((PIL.width img + 7) / 8) = PIL.width img).
    { assert ((PIL.width img + 7) / 8 = PIL.width img / 8); [|lia].
      replace (PIL.width img + 7) with (7 + PIL.width img / 8 * 8) by lia.
      rewrite Z.div_add by lia. reflexivity. }
    replace (PIL.width img * PIL.height img
             <? 8 * (PIL.height img * ((PIL.width img + 7) / 8))) with false
      by (symmetry; apply Z.ltb_ge; nia).
    fold (decoded_pixels (xbm_bits (PIL.invert img))).
    rewrite (decoded_xbm_bits img (conj Hw (conj Hh Hl)) Hal).
    rewrite skipn_all2.
    2:{ rewrite repeat_length.
        pose proof (unpack_pixels_length (xbm_bits (PIL.invert img))) as Hu.
        unfold len in Hu, Hlen. nia. }
    rewrite app_nil_r. destruct img; reflexivity.
  - assert (PIL.width img < 8 * ((PIL.width img + 7) / 8)).
    { assert (PIL.width img / 8 + 1 <= (PIL.width img + 7) / 8); [|lia].
      apply Z.div_le_lower_bound; lia. }
    replace (PIL.width img * PIL.height img
             <? 8 * (PIL.height img * ((PIL.width img + 7) / 8))) with true
      by (symmetry; apply Z.ltb_lt; nia).
    reflexivity.
Qed.
End RoundTrip.

(** The 4 by 2 raster is encoded raw, two bytes for two rows of four pixels,
    and decoding raises: sixteen values for eight pixels. An 8 by 7 raster
    goes through the compressed framing and comes back. *)
Lemma round_trip_needs_whole_byte_rows_witness :
  (convert_to_bm small_raster = Ok [x00; x02; x0b]
   /\ recover_png_from_bm [x00; x02; x0b] 4 2 = Raise TypeError)
  /\ (convert_to_bm (solid 8 7 false) = Ok [x01; x00; x03; x00; xff; x80; x14]
      /\ recover_png_from_bm [x01; x00; x03; x00; xff; x80; x14] 8 7
         = Ok (solid 8 7 false)).
Proof.
  split.
  - assert (E : convert_to_bm small_raster = Ok [x00; x02; x0b])
      by (vm_compute; reflexivity).
    split; [exact E|].
    apply (round_trip_needs_whole_byte_rows small_raster _); [| exact E | |].
    + repeat split; vm_compute; reflexivity.
    + vm_compute. reflexivity.
    + vm_compute. discriminate.
  - assert (E : convert_to_bm (solid 8 7 false)
                = Ok [x01; x00; x03; x00; xff; x80; x14])
      by (vm_compute; reflexivity).
    split; [exact E|].
    apply (round_trip_needs_whole_byte_rows (solid 8 7 false) _); [| exact E | |].
    + repeat split; vm_compute; reflexivity.
    + vm_compute. reflexivity.
    + vm_compute. reflexivity.
Defined.

(** ** An encoder whose output outgrows the length prefix *)

Lemma bytes_of_bits_length (bits : list bool) :
  len (Heatshrink.bytes_of_bits bits) = (len bits + 7) / 8.
Proof.
  assert (G : forall n (r : list bool), (length r <= n)%nat ->
                len (Heatshrink.bytes_of_bits r) = (len r + 7) / 8).
  { induction n as [|n IH]; intros r Hr.
    - destruct r; [reflexivity | cbn in Hr; lia].
    - destruct r as [|b0 [|b1 [|b2 [|b3 [|b4 [|b5 [|b6 [|b7 r]]]]]]]];
        try reflexivity.
      cbn [Heatshrink.bytes_of_bits]. rewrite len_cons, IH by (cbn in Hr; lia).
      rewrite !len_cons.
      replace (1 + (1 + (1 + (1 + (1 + (1 + (1 + (1 + len r))))))) + 7)
        with ((len r + 7) + 1 * 8) by lia.
      rewrite Z.div_add by lia. lia. }
  apply (G (length bits)). lia.
Qed.

Lemma store_length (data : bytes) (window_sz2 lookahead_sz2 : Z) :
  len (Heatshrink.store data window_sz2 lookahead_sz2) = (9 * len data + 7) / 8.
Proof.
  unfold Heatshrink.store. rewrite bytes_of_bits_length. f_equal. f_equal.
  induction data as [|c data IH]; [reflexivity|].
  cbn [flat_map]. rewrite len_app, IH, !len_cons.
  change (len (Heatshrink.bits_of 8 (b2z c))) with 8. lia.
Qed.

Lemma solid_well_formed (w h : Z) (white : bool) :
  0 < w -> 0 < h -> PIL.well_formed (solid w h white).
Proof.
  intros Hw Hh. repeat split; cbn; try assumption.
  unfold len. rewrite repeat_length. nia.
Qed.

(** With an encoder that stores every byte as a literal, nine bits each,
    the 65536 bytes of a 1024 by 512 raster grow to 73728: the length does
    not fit the prefix and the conversion raises. A small raster gets its
    prefix. *)
Lemma length_prefix_limit_witness :
  (65536 <= len (compress (Heatshrink2 := storing_heatshrink)
                   (xbm_bits (PIL.invert (solid 1024 512 false))) 8 4)
   /\ convert_to_bm (HS := storing_heatshrink) (solid 1024 512 false)
      = Raise ValueError)
  /\ (data_bin_of (solid 8 7 false) = Ok (List.repeat xff 7)
      /\ len (compress (List.repeat xff 7) 8 4) <= 65535
      /\ exists lo hi,
           length_prefix (len (compress (List.repeat xff 7) 8 4)) = Ok [lo; hi]
           /\ b2z lo + 256 * b2z hi = len (compress (List.repeat xff 7) 8 4)
           /\ (convert_to_bm (solid 8 7 false)
               = Ok ([x01; x00] ++ [lo; hi] ++ compress (List.repeat xff 7) 8 4)
               \/ convert_to_bm (solid 8 7 false) = Ok ([x00] ++ List.repeat xff 7))).
Proof.
  assert (Hwf : PIL.well_formed (solid 1024 512 false))
    by (apply solid_well_formed; lia).
  assert (Hraw : data_bin_of (solid 1024 512 false)
                 = Ok (xbm_bits (PIL.invert (solid 1024 512 false))))
    by (apply data_bin_of_spec; exact Hwf).
  assert (Hbig : 65536 <= len (compress (Heatshrink2 := storing_heatshrink)
                                 (xbm_bits (PIL.invert (solid 1024 512 false))) 8 4)).
  { change (compress (Heatshrink2 := storing_heatshrink)) with Heatshrink.store.
    rewrite store_length, (xbm_bits_length _ (wf_invert _ Hwf)).
    vm_compute. discriminate. }
  assert (Hraw' : data_bin_of (solid 8 7 false) = Ok (List.repeat xff 7))
    by (vm_compute; reflexivity).
  assert (Hsmall : len (compress (List.repeat xff 7) 8 4) <= 65535)
    by (vm_compute; discriminate).
  split.
  - split; [exact Hbig|].
    apply (proj2 (length_prefix_limit (HS := storing_heatshrink)
                    (solid 1024 512 false) _ Hraw) Hbig).
  - split; [exact Hraw' | split; [exact Hsmall|]].
    apply (proj1 (length_prefix_limit (solid 8 7 false) _ Hraw') Hsmall).
Defined.

(** ** Font extraction: the decoder *)

Section LiteralDecoding.
Context `{UD : Unicodedata}.

Lemma is_octal_digit (c : byte) :
  is_octal c = true -> oct_digit c = Some (b2z c - 48).
Proof. unfold is_octal, oct_digit. intros ->. reflexivity. Qed.

Lemma not_octal_digit (c : byte) : is_octal c = false -> oct_digit c = None.
Proof. unfold is_octal, oct_digit. intros ->. reflexivity. Qed.

Lemma is_hex_digit (c : byte) :
  is_hex c = true -> hex_digit c = Some (hex_value c) /\ 0 <= hex_value c <= 15.
Proof. destruct c; cbv; intros H; try discriminate H; repeat split; discriminate. Qed.

(** After an octal escape that cannot take another digit the decoder is
    back in its plain state. *)
Lemma octal_ends (rest : bytes) (more : nat) (v : Z) :
  more = 0%nat \/ starts_with_octal rest = false ->
  unicode_escape_from rest (Octal more v)
  = rbind (unicode_escape_from rest Plain) (fun cps => Ok (v :: cps)).
Proof.
  intros H. destruct rest as [|c rest]; [reflexivity|].
  cbn [unicode_escape_from]. destruct more as [|more].
  - reflexivity.
  - destruct H as [H|H]; [discriminate|]. cbn [starts_with_octal] in H.
    rewrite (not_octal_digit _ H). reflexivity.
Qed.

Lemma octal_digits (digits rest : bytes) (more : nat) (v : Z) :
  forallb is_octal digits = true ->
  (length digits <= more)%nat ->
  unicode_escape_from (digits ++ rest) (Octal more v)
  = unicode_escape_from rest
      (Octal (more - length digits)
         (fold_left (fun acc d => 8 * acc + (b2z d - 48)) digits v)).
Proof.
  revert more v. induction digits as [|d digits IH]; intros more v Hoct Hlen.
  - cbn. rewrite Nat.sub_0_r. reflexivity.
  - cbn [forallb] in Hoct. apply andb_true_iff in Hoct as [Hd Hds].
    cbn [length] in Hlen. destruct more as [|more]; [lia|].
    cbn [app unicode_escape_from]. rewrite (is_octal_digit _ Hd).
    rewrite IH by (try assumption; lia). reflexivity.
Qed.

Lemma decode_piece (p : c_piece) (rest : bytes) :
  piece_ok p = true ->
  match p with
  | Octal_escape digits => len digits = 3 \/ starts_with_octal rest = false
  | _ => True
  end ->
  unicode_escape_from (piece_text p ++ rest) Plain
  = rbind (unicode_escape_from rest Plain) (fun cps => Ok (piece_value p :: cps)).
Proof.
  intros Hok Hsep. destruct p as [c|digits|h1 h2|c]; cbn [piece_ok] in Hok.
  - cbn [piece_text app unicode_escape_from piece_value].
    apply negb_true_iff in Hok. rewrite Hok. reflexivity.
  - apply andb_true_iff in Hok as [Hlen Hoct].
    apply andb_true_iff in Hlen as [Hlo Hhi].
    apply Z.leb_le in Hlo, Hhi. unfold len in Hlo, Hhi, Hsep.
    destruct digits as [|d digits]; [cbn in Hlo; lia|].
    cbn [forallb] in Hoct. apply andb_true_iff in Hoct as [Hd Hds].
    cbn [piece_text app unicode_escape_from].
    replace (Byte.eqb BACKSLASH BACKSLASH) with true by reflexivity.
    assert (Hnl : Byte.eqb d LF = false) by (destruct d; try reflexivity; discriminate Hd).
    assert (Hse : simple_escape d = None) by (destruct d; try reflexivity; discriminate Hd).
    rewrite Hnl, Hse, (is_octal_digit _ Hd).
    cbn [length] in Hhi. rewrite octal_digits by (try assumption; lia).
    rewrite octal_ends.
    + unfold piece_value, octal_value. cbn [fold_left]. reflexivity.
    + destruct Hsep as [H3|H]; [left|right; exact H]. cbn [length] in H3. lia.
  - apply andb_true_iff in Hok as [H1 H2].
    apply is_hex_digit in H1 as [E1 R1]. apply is_hex_digit in H2 as [E2 R2].
    cbn [piece_text app unicode_escape_from].
    replace (Byte.eqb BACKSLASH BACKSLASH) with true by reflexivity.
    cbn. rewrite E1, E2.
    replace (16 * (16 * 0 + hex_value h1) + hex_value h2 <=? 1114111) with true
      by (symmetry; apply Z.leb_le; lia).
    cbn [piece_value]. replace (16 * 0 + hex_value h1) with (hex_value h1) by lia.
    reflexivity.
  - cbn [piece_text app piece_value].
    destruct c; try discriminate Hok; reflexivity.
Qed.

Lemma decode_literal (pieces : list c_piece) :
  literal_ok pieces = true ->
  decode_unicode_escape (literal_text pieces) = Ok (map piece_value pieces).
Proof.
  unfold decode_unicode_escape.
  induction pieces as [|p pieces IH]; [reflexivity|].
  cbn [literal_ok]. intros H. apply andb_true_iff in H as [H Hrest].
  apply andb_true_iff in H as [Hp Hsep].
  unfold literal_text. cbn [flat_map]. fold (literal_text pieces).
  rewrite decode_piece.
  - rewrite (IH Hrest). reflexivity.
  - exact Hp.
  - destruct p; try exact I. apply orb_true_iff in Hsep as [H3|H].
    + left. apply Z.eqb_eq. exact H3.
    + right. apply negb_true_iff. exact H.
Qed.

(** [encode("latin_1")] takes the values up to 255. *)
Lemma encode_latin_1_fits (values : list Z) :
  forallb (fun v => v <=? 255) values = true ->
  encode_latin_1 values = Ok (map z2b values).
Proof.
  induction values as [|v values IH]; [reflexivity|]. cbn [forallb]. intros H.
  apply andb_true_iff in H as [Hv Hvs]. cbn [encode_latin_1 map].
  rewrite Hv, (IH Hvs). reflexivity.
Qed.

Lemma encode_latin_1_misfit (values : list Z) :
  forallb (fun v => v <=? 255) values = false ->
  encode_latin_1 values = Raise UnicodeEncodeError.
Proof.
  induction values as [|v values IH]; [discriminate|]. cbn [forallb]. intros H.
  cbn [encode_latin_1]. destruct (v <=? 255); [|reflexivity].
  rewrite (IH H). reflexivity.
Qed.
End LiteralDecoding.

(** ** Font extraction: the markers, the white space and the lines *)

Lemma no_byte_absent (c : byte) (s : bytes) : no_byte c s = true -> c ∉ s.
Proof.
  unfold no_byte. induction s as [|d s IH]; cbn [forallb]; intros H.
  - apply not_elem_of_nil.
  - apply andb_true_iff in H as [Hd Hs]. apply negb_true_iff in Hd.
    apply not_elem_of_cons. split; [|exact (IH Hs)].
    intros ->. rewrite byte_eqb_refl in Hd. discriminate.
Qed.

Lemma no_byte_app (c : byte) (s t : bytes) :
  no_byte c (s ++ t) = no_byte c s && no_byte c t.
Proof. unfold no_byte. apply forallb_app. Qed.

Lemma count_app (c : byte) (s t : bytes) : count c (s ++ t) = count c s + count c t.
Proof. unfold count. rewrite List.filter_app. apply len_app. Qed.

Lemma count_absent (c : byte) (s : bytes) : no_byte c s = true -> count c s = 0.
Proof.
  unfold count, no_byte. induction s as [|d s IH]; cbn [forallb List.filter]; intros H.
  - reflexivity.
  - apply andb_true_iff in H as [Hd Hs]. apply negb_true_iff in Hd.
    rewrite Hd. exact (IH Hs).
Qed.

Lemma find_app_first (c : byte) (s t : bytes) :
  no_byte c s = true -> find c (s ++ c :: t) = len s.
Proof.
  unfold no_byte. induction s as [|d s IH]; cbn [forallb app find]; intros H.
  - rewrite byte_eqb_refl. reflexivity.
  - apply andb_true_iff in H as [Hd Hs]. apply negb_true_iff in Hd.
    rewrite Hd, (IH Hs). pose proof (len_nonneg s).
    destruct (Z.ltb_spec (len s) 0); [lia|]. rewrite len_cons. lia.
Qed.

Lemma slice_middle {A} (s t u : list A) :
  slice (s ++ t ++ u) (len s) (len s + len t) = t.
Proof.
  unfold slice, clamp_index. rewrite !len_app.
  pose proof (len_nonneg s). pose proof (len_nonneg t). pose proof (len_nonneg u).
  destruct (Z.ltb_spec (len s) 0); [lia|].
  destruct (Z.ltb_spec (len s + len t) 0); [lia|].
  replace (Z.max 0 (Z.min (len s + (len t + len u)) (len s))) with (len s) by lia.
  replace (Z.max 0 (Z.min (len s + (len t + len u)) (len s + len t)))
    with (len s + len t) by lia.
  replace (len s + len t - len s) with (len t) by lia.
  unfold len. rewrite !Nat2Z.id.
  rewrite drop_app_length. apply take_app_length.
Qed.

(** *** [split] at the first occurrence of a marker *)

Lemma startswith_app_self (sep s : bytes) : startswith sep (sep ++ s) = true.
Proof.
  induction sep as [|a sep IH]; [reflexivity|].
  cbn [app startswith]. rewrite byte_eqb_refl. exact IH.
Qed.

Lemma startswith_prefix (sep s : bytes) :
  startswith sep s = true -> exists rest, s = sep ++ rest.
Proof.
  revert s. induction sep as [|a sep IH]; intros s H; [exists s; reflexivity|].
  destruct s as [|c s]; [discriminate|]. cbn [startswith] in H.
  apply andb_true_iff in H as [Hc Hs]. apply Byte.byte_dec_bl in Hc as ->.
  destruct (IH _ Hs) as [rest ->]. exists rest. reflexivity.
Qed.

(** A match that reaches past [x] leaves a non-empty end of the marker at
    the start of what follows [x]. *)
Lemma startswith_across (sep x z : bytes) :
  startswith sep (x ++ z) = true -> startswith sep x = false ->
  exists r, sep = x ++ r /\ r <> [] /\ startswith r z = true.
Proof.
  revert x. induction sep as [|a sep IH]; intros x H Hx.
  - destruct x; discriminate Hx.
  - destruct x as [|c x].
    + exists (a :: sep). split; [reflexivity|]. split; [discriminate | exact H].
    + cbn [app startswith] in H, Hx. apply andb_true_iff in H as [Hc Hs].
      rewrite Hc in Hx. cbn [andb] in Hx. apply Byte.byte_dec_bl in Hc as ->.
      destruct (IH x Hs Hx) as (r & -> & Hr & Hz).
      exists r. split; [reflexivity|]. split; assumption.
Qed.

Lemma no_early_match (sep x y : bytes) :
  head_once sep = true -> x <> [] -> occurs_nowhere sep x = true ->
  startswith sep (x ++ sep ++ y) = false.
Proof.
  intros Honce Hne Hno.
  destruct (startswith sep (x ++ sep ++ y)) eqn:E; [exfalso|reflexivity].
  assert (Hx : startswith sep x = false).
  { destruct x; [contradiction|]. cbn [occurs_nowhere] in Hno.
    apply andb_true_iff in Hno as [Hno _]. apply negb_true_iff in Hno. exact Hno. }
  destruct (startswith_across _ _ _ E Hx) as (r & Hsep & Hr & Hz).
  destruct sep as [|a sep']; [discriminate|]. cbn [head_once] in Honce.
  destruct r as [|b r]; [contradiction|].
  cbn [app startswith] in Hz. apply andb_true_iff in Hz as [Hb _].
  apply Byte.byte_dec_bl in Hb as ->.
  destruct x as [|c x]; [contradiction|]. cbn [app] in Hsep.
  injection Hsep as _ Hsep. apply no_byte_absent in Honce. apply Honce.
  rewrite Hsep. apply elem_of_app. right. apply list_elem_of_here.
Qed.

Lemma split_skip (sep u y : bytes) :
  split_from sep (u ++ y) (length u) = split_from sep y 0.
Proof.
  induction u as [|c u IH]; [reflexivity|].
  cbn [app length split_from]. exact IH.
Qed.

Lemma split_at_first (sep x y : bytes) :
  head_once sep = true -> occurs_nowhere sep x = true ->
  split sep (x ++ sep ++ y) = x :: split sep y.
Proof.
  intros Honce. unfold split. induction x as [|c x IH]; intros Hno.
  - destruct sep as [|a sep']; [discriminate|].
    cbn [app split_from]. change (a :: sep' ++ y) with ((a :: sep') ++ y).
    rewrite startswith_app_self.
    replace (length (a :: sep') - 1)%nat with (length sep') by (cbn [length]; lia).
    rewrite split_skip. reflexivity.
  - pose proof (no_early_match sep (c :: x) y Honce ltac:(discriminate) Hno) as E.
    cbn [app] in E. cbn [app split_from]. rewrite E.
    cbn [occurs_nowhere] in Hno. apply andb_true_iff in Hno as [_ Hno].
    rewrite (IH Hno). reflexivity.
Qed.

Lemma split_nowhere (sep s : bytes) :
  sep <> [] -> occurs_nowhere sep s = true -> split sep s = [s].
Proof.
  intros Hsep. unfold split. induction s as [|c s IH]; intros Hno; [reflexivity|].
  cbn [occurs_nowhere] in Hno. apply andb_true_iff in Hno as [Hc Hs].
  apply negb_true_iff in Hc. cbn [split_from]. rewrite Hc, (IH Hs). reflexivity.
Qed.

(** *** [strip] *)

Lemma lstrip_space_app {A} (sp : A -> bool) (ws s : list A) :
  forallb sp ws = true -> lstrip sp (ws ++ s) = lstrip sp s.
Proof.
  induction ws as [|c ws IH]; [reflexivity|]. cbn [forallb app lstrip]. intros H.
  apply andb_true_iff in H as [Hc Hws]. rewrite Hc. exact (IH Hws).
Qed.

Lemma rstrip_all_space {A} (sp : A -> bool) (ws : list A) :
  forallb sp ws = true -> rstrip sp ws = [].
Proof.
  induction ws as [|c ws IH]; [reflexivity|]. cbn [forallb rstrip]. intros H.
  apply andb_true_iff in H as [Hc Hws]. rewrite (IH Hws), Hc. reflexivity.
Qed.

Lemma rstrip_app_space {A} (sp : A -> bool) (s ws : list A) :
  forallb sp ws = true -> rstrip sp (s ++ ws) = rstrip sp s.
Proof.
  intros Hws. induction s as [|c s IH].
  - cbn [app rstrip]. apply rstrip_all_space. exact Hws.
  - cbn [app rstrip]. rewrite IH. reflexivity.
Qed.

Lemma rstrip_last {A} (sp : A -> bool) (s : list A) (d : A) :
  s <> [] -> sp (List.last s d) = false -> rstrip sp s = s.
Proof.
  induction s as [|c s IH]; [contradiction|]. intros _ Hlast.
  destruct s as [|c' s].
  - cbn in Hlast. cbn [rstrip]. rewrite Hlast. reflexivity.
  - change (List.last (c :: c' :: s) d) with (List.last (c' :: s) d) in Hlast.
    cbn [rstrip] in IH |- *. rewrite (IH ltac:(discriminate) Hlast). reflexivity.
Qed.

Lemma strip_tight (lead body trail : bytes) :
  forallb bytes_isspace lead = true -> forallb bytes_isspace trail = true ->
  tight body = true ->
  strip bytes_isspace (lead ++ body ++ trail) = body.
Proof.
  intros Hlead Htrail Htight. unfold strip. rewrite (lstrip_space_app _ _ _ Hlead).
  destruct body as [|c body].
  - cbn [app]. rewrite <- (app_nil_r trail), (lstrip_space_app _ _ _ Htrail).
    reflexivity.
  - cbn [tight] in Htight. apply andb_true_iff in Htight as [Hc Hl].
    apply negb_true_iff in Hc, Hl. cbn [app lstrip]. rewrite Hc.
    change (c :: body ++ trail) with ((c :: body) ++ trail).
    rewrite (rstrip_app_space _ _ _ Htrail).
    apply (rstrip_last _ _ c); [discriminate | exact Hl].
Qed.

(** *** The lines *)

Lemma byte_eqb_swap (a b : byte) : Byte.eqb a b = Byte.eqb b a.
Proof.
  destruct (Byte.eqb b a) eqn:E.
  - apply Byte.byte_dec_bl in E as ->. apply byte_eqb_refl.
  - destruct (Byte.eqb a b) eqn:E'; [|reflexivity].
    apply Byte.byte_dec_bl in E' as ->. rewrite byte_eqb_refl in E. discriminate.
Qed.

Lemma splitlines_lf (l rest : bytes) :
  no_byte LF l = true -> no_byte CR l = true ->
  splitlines_from (l ++ LF :: rest) false = l :: splitlines_from rest false.
Proof.
  unfold no_byte. induction l as [|c l IH]; cbn [forallb app]; intros Hlf Hcr.
  - reflexivity.
  - apply andb_true_iff in Hlf as [Hc1 Hlf]. apply andb_true_iff in Hcr as [Hc2 Hcr].
    apply negb_true_iff in Hc1, Hc2. rewrite byte_eqb_swap in Hc1, Hc2.
    cbn [splitlines_from]. rewrite Hc1, Hc2, (IH Hlf Hcr). reflexivity.
Qed.

Lemma splitlines_crlf (l rest : bytes) :
  no_byte LF l = true -> no_byte CR l = true ->
  splitlines_from (l ++ CR :: LF :: rest) false = l :: splitlines_from rest false.
Proof.
  unfold no_byte. induction l as [|c l IH]; cbn [forallb app]; intros Hlf Hcr.
  - reflexivity.
  - apply andb_true_iff in Hlf as [Hc1 Hlf]. apply andb_true_iff in Hcr as [Hc2 Hcr].
    apply negb_true_iff in Hc1, Hc2. rewrite byte_eqb_swap in Hc1, Hc2.
    cbn [splitlines_from]. rewrite Hc1, Hc2, (IH Hlf Hcr). reflexivity.
Qed.

Lemma splitlines_end (l : bytes) :
  no_byte LF l = true -> no_byte CR l = true ->
  splitlines_from l false = match l with [] => [] | _ :: _ => [l] end.
Proof.
  unfold no_byte. induction l as [|c l IH]; cbn [forallb]; intros Hlf Hcr.
  - reflexivity.
  - apply andb_true_iff in Hlf as [Hc1 Hlf]. apply andb_true_iff in Hcr as [Hc2 Hcr].
    apply negb_true_iff in Hc1, Hc2. rewrite byte_eqb_swap in Hc1, Hc2.
    cbn [splitlines_from]. rewrite Hc1, Hc2, (IH Hlf Hcr). destruct l; reflexivity.
Qed.

Lemma line_ok_no_line_end (l : table_line) :
  line_ok l = true -> no_byte LF (line_text l) = true /\ no_byte CR (line_text l) = true.
Proof.
  unfold line_ok. intros H. apply andb_true_iff in H as [H Hcr].
  apply andb_true_iff in H as [_ Hlf]. split; assumption.
Qed.

Section FontLines.
Context `{UD : Unicodedata}.

Lemma encode_latin_1_app (a b : list Z) :
  encode_latin_1 (a ++ b)
  = rbind (encode_latin_1 a) (fun x =>
      rbind (encode_latin_1 b) (fun y => Ok (x ++ y))).
Proof.
  induction a as [|v a IH]; cbn [app encode_latin_1 rbind].
  - destruct (encode_latin_1 b); reflexivity.
  - destruct (v <=? 255); [|reflexivity]. rewrite IH.
    destruct (encode_latin_1 a); cbn [rbind]; [|reflexivity].
    destruct (encode_latin_1 b); reflexivity.
Qed.

(** What the loop of lines 231 to 237 does with one line of the table. *)
Lemma font_line_of (l : table_line) (font : bytes) :
  line_ok l = true ->
  font_line font (line_text l)
  = rbind (encode_latin_1 (line_values l)) (fun decoded => Ok (font ++ decoded)).
Proof.
  unfold line_ok. intros H. apply andb_true_iff in H as [H _].
  apply andb_true_iff in H as [H _]. destruct l as [before pieces after|text].
  - apply andb_true_iff in H as [H Hlit]. apply andb_true_iff in H as [H Hafter].
    apply andb_true_iff in H as [Hbefore Hbody].
    cbn [line_text line_values].
    set (text := before ++ [QUOTE] ++ literal_text pieces ++ [QUOTE] ++ after).
    assert (Hcount : count QUOTE text = 2).
    { unfold text. rewrite !count_app, (count_absent _ _ Hbefore),
        (count_absent _ _ Hbody), (count_absent _ _ Hafter). reflexivity. }
    assert (Hfind : find QUOTE text = len before).
    { apply (find_app_first QUOTE before _ Hbefore). }
    assert (Hrfind : rfind QUOTE text = len before + 1 + len (literal_text pieces)).
    { unfold text.
      replace (before ++ [QUOTE] ++ literal_text pieces ++ [QUOTE] ++ after)
        with ((before ++ [QUOTE] ++ literal_text pieces) ++ QUOTE :: after)
        by (rewrite <- !app_assoc; reflexivity).
      rewrite (rfind_app_last _ _ _ (no_byte_absent _ _ Hafter)), !len_app.
      change (len [QUOTE]) with 1. lia. }
    assert (Hslice : slice text (len before + 1)
                       (len before + 1 + len (literal_text pieces))
                     = literal_text pieces).
    { unfold text.
      replace (before ++ [QUOTE] ++ literal_text pieces ++ [QUOTE] ++ after)
        with ((before ++ [QUOTE]) ++ literal_text pieces ++ ([QUOTE] ++ after))
        by (rewrite <- !app_assoc; reflexivity).
      replace (len before + 1) with (len (before ++ [QUOTE]))
        by (rewrite len_app; reflexivity).
      apply slice_middle. }
    unfold font_line, significant. rewrite Hcount. cbn [Z.eqb Pos.eqb].
    unfold line_bytes. rewrite Hfind, Hrfind, Hslice, (decode_literal _ Hlit).
    reflexivity.
  - cbn [line_text line_values encode_latin_1 rbind]. unfold font_line, significant, count, len.
    apply negb_true_iff, Nat.eqb_neq in H.
    destruct (Z.eqb_spec (Z.of_nat (length (List.filter (Byte.eqb QUOTE) text))) 2) as [E|_];
      [lia|]. rewrite app_nil_r. reflexivity.
Qed.

Lemma rfold_table_lines (lines : list table_line) (font : bytes) :
  forallb line_ok lines = true ->
  rfold (map line_text lines) font_line font
  = rbind (encode_latin_1 (flat_map line_values lines))
      (fun decoded => Ok (font ++ decoded)).
Proof.
  revert font. induction lines as [|l lines IH]; intros font H.
  - cbn. rewrite app_nil_r. reflexivity.
  - cbn [forallb] in H. apply andb_true_iff in H as [Hl Hls].
    cbn [map rfold flat_map]. rewrite (font_line_of _ _ Hl), encode_latin_1_app.
    destruct (encode_latin_1 (line_values l)) as [a|e]; cbn [rbind]; [|reflexivity].
    rewrite (IH _ Hls).
    destruct (encode_latin_1 (flat_map line_values lines)) as [b|e]; cbn [rbind];
      [|reflexivity].
    rewrite app_assoc. reflexivity.
Qed.

(** A last line that is empty gives no line and no bytes. *)
Lemma rfold_body (first : table_line) (more : list (bytes * table_line)) (font : bytes) :
  forallb line_ok (first :: map snd more) = true ->
  forallb (fun el => is_line_end (fst el)) more = true ->
  rfold (splitlines (line_text first
                     ++ flat_map (fun el => fst el ++ line_text (snd el)) more))
    font_line font
  = rfold (map line_text (first :: map snd more)) font_line font.
Proof.
  unfold splitlines. revert first font.
  induction more as [|[e l] more IH]; intros first font Hok Hends.
  - cbn [forallb map] in Hok. apply andb_true_iff in Hok as [Hok _].
    destruct (line_ok_no_line_end _ Hok) as [Hlf Hcr].
    cbn [flat_map map]. rewrite app_nil_r, (splitlines_end _ Hlf Hcr).
    destruct (line_text first); reflexivity.
  - cbn [forallb map] in Hok. apply andb_true_iff in Hok as [Hfirst Hok].
    destruct (line_ok_no_line_end _ Hfirst) as [Hlf Hcr].
    cbn [forallb fst] in Hends. apply andb_true_iff in Hends as [He Hends].
    cbn [flat_map fst snd map].
    assert (Hsplit : splitlines_from
                       (line_text first
                        ++ (e ++ line_text l)
                        ++ flat_map (fun el => fst el ++ line_text (snd el)) more) false
                     = line_text first
                       :: splitlines_from
                            (line_text l
                             ++ flat_map (fun el => fst el ++ line_text (snd el)) more)
                            false).
    { unfold is_line_end in He. apply orb_true_iff in He as [He|He];
        apply bool_decide_eq_true in He; subst e; rewrite <- app_assoc; cbn [app].
      - apply splitlines_lf; assumption.
      - apply splitlines_crlf; assumption. }
    rewrite Hsplit. cbn [rfold].
    destruct (font_line font (line_text first)) as [font'|err]; cbn [rbind];
      [|reflexivity].
    apply (IH l font'); [exact Hok | exact Hends].
Qed.
End FontLines.

(** *** From the source to the blob *)

Lemma font_file_ok_inv (f : font_file) :
  font_file_ok f = true ->
  occurs_nowhere FONT_SECTION (preamble f) = true
  /\ occurs_nowhere FONT_SECTION (font_name f ++ FONT_ASSIGN ++ table_text f) = true
  /\ occurs_nowhere FONT_ASSIGN (font_name f) = true
  /\ occurs_nowhere FONT_ASSIGN (table_text f) = true
  /\ (next_fonts f = [] \/ startswith FONT_SECTION (next_fonts f) = true)
  /\ forallb bytes_isspace (lead_space f) = true
  /\ forallb bytes_isspace (trail_space f) = true
  /\ tight (table_body f) = true
  /\ forallb line_ok (table_lines f) = true
  /\ forallb (fun el => is_line_end (fst el)) (more_lines f) = true.
Proof.
  unfold font_file_ok. intros H.
  repeat (apply andb_true_iff in H as [H ?]).
  repeat split; try assumption.
  match goal with
  | Hn : _ || _ = true |- _ =>
      apply orb_true_iff in Hn as [Hn|Hn]; [left; apply bool_decide_eq_true in Hn|right];
      exact Hn
  end.
Qed.

Lemma FONT_SECTION_not_empty : FONT_SECTION <> [].
Proof. intros E. apply (f_equal (@length byte)) in E. discriminate E. Qed.

Lemma FONT_ASSIGN_not_empty : FONT_ASSIGN <> [].
Proof. intros E. apply (f_equal (@length byte)) in E. discriminate E. Qed.

Section FontSource.
Context `{UD : Unicodedata}.

(** Line 228 on a font source: the table, without the white space around
    it. *)
Lemma font_code_of_file (f : font_file) :
  font_file_ok f = true -> font_code (source_text f) = Ok (table_body f).
Proof.
  intros Hok.
  destruct (font_file_ok_inv f Hok)
    as (Hpre & Hsec & Hname & Htable & Hnext & Hlead & Htrail & Htight & _).
  unfold font_code, source_text.
  rewrite (split_at_first FONT_SECTION _ _ eq_refl Hpre).
  assert (Hafter : item (preamble f
                         :: split FONT_SECTION
                              (font_name f ++ FONT_ASSIGN ++ table_text f ++ next_fonts f)) 1
                   = Ok (font_name f ++ FONT_ASSIGN ++ table_text f)).
  { destruct Hnext as [Hnil|Hstart].
    - rewrite Hnil, app_nil_r, (split_nowhere _ _ FONT_SECTION_not_empty Hsec). reflexivity.
    - apply startswith_prefix in Hstart as [rest ->].
      replace (font_name f ++ FONT_ASSIGN ++ table_text f ++ FONT_SECTION ++ rest)
        with ((font_name f ++ FONT_ASSIGN ++ table_text f) ++ FONT_SECTION ++ rest)
        by (rewrite <- !app_assoc; reflexivity).
      rewrite (split_at_first FONT_SECTION _ _ eq_refl Hsec). reflexivity. }
  rewrite Hafter. cbn [rbind].
  rewrite (split_at_first FONT_ASSIGN _ _ eq_refl Hname),
    (split_nowhere _ _ FONT_ASSIGN_not_empty Htable).
  cbn [item nth_error rbind]. unfold table_text.
  rewrite (strip_tight _ _ _ Hlead Htrail Htight). reflexivity.
Qed.

Lemma extract_font_of_file (f : font_file) :
  font_file_ok f = true ->
  extract_font (source_text f)
  = rbind (encode_latin_1 (table_values f)) (fun decoded => Ok (decoded ++ [x00])).
Proof.
  intros Hok.
  destruct (font_file_ok_inv f Hok) as (_ & _ & _ & _ & _ & _ & _ & _ & Hlines & Hends).
  unfold extract_font. rewrite (font_code_of_file f Hok). cbn [rbind].
  unfold table_body. rewrite (rfold_body _ _ _ Hlines Hends).
  fold (table_lines f). rewrite (rfold_table_lines _ _ Hlines).
  fold (table_values f).
  destruct (encode_latin_1 (table_values f)); reflexivity.
Qed.

(** No section marker, or no assignment after it: line 228 raises. *)
Lemma extract_font_no_section (source : bytes) :
  occurs_nowhere FONT_SECTION source = true -> extract_font source = Raise IndexError.
Proof.
  intros Hno. unfold extract_font, font_code.
  rewrite (split_nowhere _ _ FONT_SECTION_not_empty Hno). reflexivity.
Qed.

Lemma extract_font_no_assign (pre rest : bytes) :
  occurs_nowhere FONT_SECTION pre = true ->
  occurs_nowhere FONT_SECTION rest = true ->
  occurs_nowhere FONT_ASSIGN rest = true ->
  extract_font (pre ++ FONT_SECTION ++ rest) = Raise IndexError.
Proof.
  intros Hpre Hrest Hassign. unfold extract_font, font_code.
  rewrite (split_at_first FONT_SECTION _ _ eq_refl Hpre),
    (split_nowhere _ _ FONT_SECTION_not_empty Hrest).
  cbn [item nth_error rbind].
  rewrite (split_nowhere _ _ FONT_ASSIGN_not_empty Hassign). reflexivity.
Qed.
End FontSource.

Section FontTable.
Context `{UD : Unicodedata}.

(** [pack_font] on a [.c] source: the extraction, then the write. *)
Lemma pack_font_c (src dst : path) (w w1 : world) (source : bytes) :
  Path.suffix (Path.name src) = txt ".c" ->
  Path.node_at (files w) src = Some (File source) ->
  Path.mkdir (Path.parent dst) w = (w1, Ok tt) ->
  pack_font src dst w
  = match extract_font source with
    | Ok font =>
        bind (lift (Path.with_suffix dst (txt ".u8f")))
          (fun u8f => Path.write_bytes u8f font) w1
    | Raise e => (w1, Raise e)
    end.
Proof.
  intros Hsuffix Hsrc Hmk. unfold pack_font, bind. rewrite Hmk.
  rewrite bool_decide_eq_true_2 by exact Hsuffix.
  assert (Hsrc1 : Path.node_at (files w1) src = Some (File source)).
  { pose proof (mkdir_adds (Path.parent dst) w) as Hadd. rewrite Hmk in Hadd.
    cbn [fst] in Hadd. destruct src as [|c src]; [discriminate Hsrc|].
    cbn [Path.node_at] in Hsrc |- *.
    apply (only_adds_dirs_file _ _ _ _ Hadd). exact Hsrc. }
  unfold Path.read_bytes. rewrite Hsrc1. unfold lift.
  destruct (extract_font source); reflexivity.
Qed.

(** C6: [pack_font] on a [.c] source, once the parent directory of the
    destination is made. For a font source (the text before the section
    marker, the marker, the name, the assignment and the table) it writes
    the file with the suffix [.u8f]: the bytes that the literals of the
    lines of the table stand for, line after line, and one zero byte. A
    line counts when it holds exactly two double quotes; between them a
    character stands for itself and an escape (a backslash with one to
    three octal digits, with [x] and two hexadecimal digits, or with one
    of the letters) for one value. A value above 255 is a
    [UnicodeEncodeError]; a source without the section marker, or without
    the assignment after it, is an [IndexError]; nothing is written
    then. *)
Theorem pack_font_extracts_table (src dst : path) (w w1 : world) (source : bytes) :
  Path.suffix (Path.name src) = txt ".c" ->
  Path.node_at (files w) src = Some (File source) ->
  Path.mkdir (Path.parent dst) w = (w1, Ok tt) ->
  (forall f u8f,
      source = source_text f -> font_file_ok f = true ->
      forallb (fun v => v <=? 255) (table_values f) = true ->
      Path.with_suffix dst (txt ".u8f") = Ok u8f ->
      Path.node_at (files w1) u8f <> Some Dir ->
      let font := map z2b (table_values f) ++ [x00] in
      pack_font src dst w = (Path.set_node u8f (File font) w1, Ok tt)
      /\ files (fst (pack_font src dst w)) !! u8f = Some (File font))
  /\ (forall f,
      source = source_text f -> font_file_ok f = true ->
      forallb (fun v => v <=? 255) (table_values f) = false ->
      pack_font src dst w = (w1, Raise UnicodeEncodeError))
  /\ (occurs_nowhere FONT_SECTION source = true ->
      pack_font src dst w = (w1, Raise IndexError))
  /\ (forall pre rest,
      source = pre ++ FONT_SECTION ++ rest ->
      occurs_nowhere FONT_SECTION pre = true ->
      occurs_nowhere FONT_SECTION rest = true ->
      occurs_nowhere FONT_ASSIGN rest = true ->
      pack_font src dst w = (w1, Raise IndexError)).
Proof.
  intros Hsuffix Hsrc Hmk.
  pose proof (pack_font_c src dst w w1 source Hsuffix Hsrc Hmk) as Hrun.
  split; [|split; [|split]].
  - intros f u8f -> Hok Hfit Hu8f Hnode font.
    rewrite (extract_font_of_file f Hok), (encode_latin_1_fits _ Hfit) in Hrun.
    cbn [rbind] in Hrun. fold font in Hrun.
    unfold bind, lift in Hrun. rewrite Hu8f in Hrun.
    assert (E : pack_font src dst w = (Path.set_node u8f (File font) w1, Ok tt)).
    { rewrite Hrun.
      destruct (write_bytes_effect u8f font w1) as [(E & _)|(e & E)]; [exact E|].
      exfalso. unfold Path.write_bytes in E.
      unfold Path.with_suffix, rbind in Hu8f.
      destruct (Path.name_with_suffix (Path.name dst) (txt ".u8f")) as [nm|];
        [|discriminate].
      injection Hu8f as <-.
      destruct (Path.parent dst </> nm) as [|c p] eqn:Ep;
        [apply child_not_root in Ep; exact Ep|].
      rewrite <- Ep, parent_child in E. rewrite (mkdir_is_dir _ _ _ Hmk) in E.
      rewrite Ep in E.
      destruct (Path.node_at (files w1) (c :: p)) as [[d|]|];
        [discriminate | contradiction | discriminate]. }
    split; [exact E|]. rewrite E. cbn [fst].
    rewrite set_node_lookup, decide_True by reflexivity. reflexivity.
  - intros f -> Hok Hmis.
    rewrite (extract_font_of_file f Hok), (encode_latin_1_misfit _ Hmis) in Hrun.
    exact Hrun.
  - intros Hno. rewrite (extract_font_no_section _ Hno) in Hrun. exact Hrun.
  - intros pre rest -> Hpre Hrest Hassign.
    rewrite (extract_font_no_assign _ _ Hpre Hrest Hassign) in Hrun. exact Hrun.
Qed.
End FontTable.

(** The sample table: its two lines stand for 01 22 and 03 0A. *)
Lemma pack_font_extracts_table_witness :
  source_text sample_font_file = sample_font_source
  /\ files (fst (pack_font (UD := {| lookup_name := fun _ => None |})
                   [txt "Fonts"; txt "tiny.c"] [txt "out"; txt "tiny.c"]
                   (font_world sample_font_source)))
       !! [txt "out"; txt "tiny.u8f"]
     = Some (File [x01; x22; x03; x0a; x00]).
Proof.
  split; [reflexivity|].
  apply (proj1 (pack_font_extracts_table (UD := {| lookup_name := fun _ => None |})
                  [txt "Fonts"; txt "tiny.c"] [txt "out"; txt "tiny.c"]
                  (font_world sample_font_source)
                  (fst (Path.mkdir [txt "out"] (font_world sample_font_source)))
                  sample_font_source eq_refl eq_refl eq_refl)
           sample_font_file [txt "out"; txt "tiny.u8f"]).
  - reflexivity.
  - reflexivity.
  - reflexivity.
  - reflexivity.
  - discriminate.
Defined.

(** C6 as stated fails on a table of two quoted lines of two escaped bytes
    each where the first line writes the byte 22 as an escaped double
    quote: the line holds three double quotes and is skipped, and the blob
    is 03 0A 00. A question mark written as an escape comes out as the
    backslash and the question mark. *)
Lemma escaped_quote_line_skipped_counterexample :
  extract_font (UD := {| lookup_name := fun _ => None |}) escaped_quote_source
  = Ok [x03; x0a; x00]
  /\ files (fst (pack_font (UD := {| lookup_name := fun _ => None |})
                   [txt "Fonts"; txt "tiny.c"] [txt "out"; txt "tiny.c"]
                   (font_world escaped_quote_source)))
       !! [txt "out"; txt "tiny.u8f"]
     = Some (File [x03; x0a; x00])
  /\ extract_font (UD := {| lookup_name := fun _ => None |}) escaped_question_source
     = Ok [x01; x5c; x3f; x03; x0a; x00].
Proof. repeat split; vm_compute; reflexivity. Qed.

(** ** Sizes and layout of the outputs of the codec *)



Section CodecSizes.
Context `{HS : Heatshrink2}.



End CodecSizes.












(** ** [copy_file_as_lf] *)




Lemma byte_eqb_sym (a b : byte) : Byte.eqb a b = Byte.eqb b a.
Proof.
  destruct (Byte.eqb b a) eqn:E.
  - apply byte_eqb_eq in E as ->. apply byte_eqb_refl.
  - apply byte_eqb_neq. apply byte_eqb_neq in E. congruence.
Qed.




(** ** Paths above and below *)

Lemma below_prefix (p q : path) : Path.below p q = true <-> p `prefix_of` q.
Proof.
  revert q. induction p as [|c p IH]; intros q; cbn [Path.below].
  - split; [intros _; apply prefix_nil | reflexivity].
  - destruct q as [|d q].
    + split; [discriminate | intros H; apply prefix_nil_not in H; contradiction].
    + rewrite andb_true_iff, bool_decide_eq_true, IH. split.
      * intros [-> H]. apply prefix_cons, H.
      * intros H. split; [eapply prefix_cons_inv_1, H | eapply prefix_cons_inv_2, H].
Qed.





Lemma not_below_child (p : path) (c : bytes) : Path.below (p </> c) p = false.
Proof.
  destruct (Path.below (p </> c) p) eqn:E; [|reflexivity].
  apply below_prefix, prefix_snoc_not in E. contradiction.
Qed.

Lemma below_trans (p q r : path) :
  Path.below p q = true -> Path.below q r = true -> Path.below p r = true.
Proof. rewrite !below_prefix. intros H1 H2. etransitivity; eauto. Qed.

(** ** When [mkdir] succeeds and what it adds *)



Lemma extends_refl (w : world) : extends w w.
Proof. intros q n E. exact E. Qed.






(** ** [create_asset_pack]: what is created *)











(** ** [create_asset_pack]: what is refused *)


(** ** [pack_specific]: the output does not depend on an earlier output *)




Section Rebuild.
Context `{HS : Heatshrink2} `{DEC : PIL.Decoder} `{UD : Unicodedata}.


End Rebuild.

(** ** The packers write to their destination only *)



Section WritesInside.
Context `{HS : Heatshrink2} `{DEC : PIL.Decoder} `{UD : Unicodedata}.









End WritesInside.

(** ** Static icons that are converted *)

Section Converted.
Context `{HS : Heatshrink2} `{DEC : PIL.Decoder} `{UD : Unicodedata}.




End Converted.

(** ** What [pack_anim] produces *)






Section AnimOutputs.
Context `{HS : Heatshrink2} `{DEC : PIL.Decoder} `{UD : Unicodedata}.




End AnimOutputs.

(** ** The frames of an animated icon *)








Section IconFrames.
Context `{HS : Heatshrink2} `{DEC : PIL.Decoder}.







End IconFrames.

(** ** The properties at sample inputs *)





